(** * grn.py: the GO-enrichment helpers and dataframe utilities

    A shallow embedding of [notebooks/grn.py].  Pandas dataframes are
    Python objects with identity: a function receives a reference, and
    [inplace = True] operations overwrite the object behind it.  The
    embedding therefore keeps every dataframe in a store and threads a
    [world] (store, standard output, files, uninitialised memory) through
    a small state-and-exception monad. *)

From Stdlib Require Import ZArith QArith String Ascii List Lia Bool.
From Stdlib Require Import Floats.SpecFloat DecimalString.
From stdpp Require Import base list strings gmap.
Import ListNotations.

Set Warnings "-clear-no-such-hyp".

Local Open Scope string_scope.
Local Open Scope list_scope.

(** ** Cell values and dataframes *)

(** A cell is missing ([NaN], which is how pandas stores None and NaN), a
    string, or a number.  Numbers are kept as rationals in lowest terms,
    whatever their Python type (int, float, bool), so that Python's [==]
    on two present cells is structural equality.  They are exact: the
    rounding of doubles is followed only where a result depends on it, in
    the threshold of [get_hi_GOs]. *)
Inductive value :=
| NaN
| Str (s : string)
| Num (q : Q).

Inductive dtype := int64 | float64 | bool_ | object_.

#[global] Instance Q_eq_dec : EqDecision Q.
Proof. solve_decision. Defined.

#[global] Instance value_eq_dec : EqDecision value.
Proof. solve_decision. Defined.

#[global] Instance dtype_eq_dec : EqDecision dtype.
Proof. solve_decision. Defined.

(** A dataframe: column labels, the dtype of every column, and the rows.
    Row labels (the index) are not kept: no function of the module reads
    them. *)
Record DataFrame := mkDataFrame {
  columns : list string;
  dtypes : list dtype;
  rows : list (list value)
}.

#[global] Instance DataFrame_eq_dec : EqDecision DataFrame.
Proof. solve_decision. Defined.

(** [pd.DataFrame()] *)
Definition empty_frame : DataFrame := mkDataFrame [] [] [].

Definition isnull (v : value) : bool :=
  match v with NaN => true | _ => false end.

(** Python's [a == b] on cells, as numpy evaluates it elementwise: a
    missing entry is equal to nothing, not even to itself. *)
Definition py_eqb (a b : value) : bool :=
  negb (isnull a) && negb (isnull b) && bool_decide (a = b).

(** [x in xs] for a Python list [xs].  (Python looks for the same object
    before it compares; cells have no identity here, so a missing cell is
    in no list.) *)
Definition py_in (x : value) (xs : list value) : bool :=
  existsb (py_eqb x) xs.

(** Position of the first column carrying a label. *)
Fixpoint index_of (c : string) (cs : list string) : option nat :=
  match cs with
  | [] => None
  | c' :: cs' => if bool_decide (c = c') then Some 0%nat
                 else option_map S (index_of c cs')
  end.

(** The cell of a row at a column position; rows are expected to be as
    long as the header, a short row reads as missing. *)
Definition cell (i : nat) (r : list value) : value := nth i r NaN.

(** [xs[mask]]: the entries of [xs] at which the boolean mask is true. *)
Fixpoint np_mask {A} (xs : list A) (mask : list bool) : list A :=
  match xs, mask with
  | x :: xs', b :: mask' => if b then x :: np_mask xs' mask' else np_mask xs' mask'
  | _, _ => []
  end.

(** ** Exceptions, worlds and the monad *)

Inductive exn :=
| AssertionError (msg : string)
| KeyError (key : value)
| AttributeError (name : string)
| FileNotFoundError (path : string)
| TypeError
| ValueError
| OverflowError
| DanglingReference.

Inductive result (A : Type) :=
| Ok (a : A)
| Raise (e : exn).
Arguments Ok {A} a.
Arguments Raise {A} e.

(** A reference to a dataframe object: its position in the store. *)
Abbreviation ref := nat.

(** The state a call runs in.
    - [heap]: the dataframe objects, addressed by position;
    - [stdout]: the lines printed so far, oldest first;
    - [files]: for every path, the table pandas parses from the file there;
    - [shell]: the commands handed to [os.system], oldest first;
    - [junk]: the contents of memory that [np.empty] hands out without
      initialising it. *)
Record world := mkWorld {
  heap : list DataFrame;
  stdout : list string;
  files : gmap string DataFrame;
  shell : list string;
  junk : nat -> Q
}.

Definition set_heap (h : list DataFrame) (w : world) : world :=
  mkWorld h (stdout w) (files w) (shell w) (junk w).
Definition set_stdout (o : list string) (w : world) : world :=
  mkWorld (heap w) o (files w) (shell w) (junk w).
Definition set_files (f : gmap string DataFrame) (w : world) : world :=
  mkWorld (heap w) (stdout w) f (shell w) (junk w).
Definition set_shell (s : list string) (w : world) : world :=
  mkWorld (heap w) (stdout w) (files w) s (junk w).
Definition set_junk (j : nat -> Q) (w : world) : world :=
  mkWorld (heap w) (stdout w) (files w) (shell w) j.

Definition M (A : Type) : Type := world -> result A * world.

Definition ret {A} (a : A) : M A := fun w => (Ok a, w).

Definition bind {A B} (m : M A) (f : A -> M B) : M B :=
  fun w => match m w with
           | (Ok a, w') => f a w'
           | (Raise e, w') => (Raise e, w')
           end.

Definition raise {A} (e : exn) : M A := fun w => (Raise e, w).

Notation "x <- m ;; k" := (bind m (fun x => k))
  (at level 100, m at next level, right associativity).
Notation "m ;;; k" := (bind m (fun _ => k))
  (at level 100, right associativity).

(** [try: m except: pass] *)
Definition try_pass (m : M unit) : M unit :=
  fun w => match m w with
           | (Ok a, w') => (Ok a, w')
           | (Raise _, w') => (Ok tt, w')
           end.

(** [for x in xs: s = body x s] *)
Fixpoint for_each {A S} (xs : list A) (body : A -> S -> M S) (s : S) : M S :=
  match xs with
  | [] => ret s
  | x :: xs' => s' <- body x s ;; for_each xs' body s'
  end.

(** Unwrap a lookup, raising when it failed. *)
Definition lift_option {A} (o : option A) (e : exn) : M A :=
  match o with Some a => ret a | None => raise e end.

(** *** Store primitives *)

(** A new object. *)
Definition new_frame (d : DataFrame) : M ref :=
  fun w => (Ok (length (heap w)), set_heap (heap w ++ [d]) w).

(** The current contents of an object. *)
Definition load (r : ref) : M DataFrame :=
  fun w => match heap w !! r with
           | Some d => (Ok d, w)
           | None => (Raise DanglingReference, w)
           end.

(** Overwrite an object in place. *)
Definition store (r : ref) (d : DataFrame) : M unit :=
  fun w => (Ok tt, set_heap (<[r := d]> (heap w)) w).

(** [print(s)] *)
Definition print (s : string) : M unit :=
  fun w => (Ok tt, set_stdout (stdout w ++ [s]) w).

(** ** The pandas and numpy operations the module calls *)

(** [d[c]] as the list of its cells, [KeyError] when no column has the
    label. *)
Definition getitem (d : DataFrame) (c : string) : M (list value) :=
  i <- lift_option (index_of c (columns d)) (KeyError (Str c)) ;;
  ret (map (cell i) (rows d)).

(** [d.c], attribute access to a column. *)
Definition getattr (d : DataFrame) (c : string) : M (list value) :=
  i <- lift_option (index_of c (columns d)) (AttributeError c) ;;
  ret (map (cell i) (rows d)).

(** [series == x], elementwise. *)
Definition series_eq (s : list value) (x : value) : list bool :=
  map (fun v => py_eqb v x) s.

(** [d[mask]] for a boolean mask over the rows. *)
Definition getitem_mask (d : DataFrame) (mask : list bool) : DataFrame :=
  mkDataFrame (columns d) (dtypes d) (np_mask (rows d) mask).

(** [pd.concat([a, b])] on values.  The header is the union of the two
    headers, in order of appearance; a frame whose header already is the
    union keeps its rows as they are, any other has its rows re-laid on
    the union with the absent cells missing. *)
Definition union_labels (a b : list string) : list string :=
  a ++ List.filter (fun c => negb (bool_decide (c ∈ a))) b.

Definition reindex_row (from to : list string) (r : list value) : list value :=
  map (fun c => match index_of c from with
                | Some i => cell i r
                | None => NaN
                end) to.

Definition align (cs : list string) (d : DataFrame) : list (list value) :=
  if bool_decide (columns d = cs) then rows d
  else map (reindex_row (columns d) cs) (rows d).

Definition dtype_of (d : DataFrame) (c : string) : option dtype :=
  match index_of c (columns d) with
  | Some i => dtypes d !! i
  | None => None
  end.

Definition concat_frames (a b : DataFrame) : DataFrame :=
  let cs := union_labels (columns a) (columns b) in
  mkDataFrame cs
    (map (fun c => match dtype_of a c with
                   | Some t => t
                   | None => default object_ (dtype_of b c)
                   end) cs)
    (align cs a ++ align cs b).

Definition pd_concat (a b : ref) : M ref :=
  da <- load a ;;
  db <- load b ;;
  new_frame (concat_frames da db).

(** Duplicates dropped, the first occurrence kept ([drop_duplicates] on
    rows, [unique] on a column).  Pandas counts missing cells as equal to
    each other here, so this is structural equality. *)
Fixpoint drop_seen {A} `{EqDecision A} (seen rs : list A) : list A :=
  match rs with
  | [] => []
  | r :: rs' => if bool_decide (r ∈ seen) then drop_seen seen rs'
                else r :: drop_seen (r :: seen) rs'
  end.

Definition drop_duplicates (d : DataFrame) : DataFrame :=
  mkDataFrame (columns d) (dtypes d) (drop_seen [] (rows d)).

(** [r.drop_duplicates(inplace = True)] *)
Definition drop_duplicates_inplace (r : ref) : M unit :=
  d <- load r ;;
  store r (drop_duplicates d).

(** [d.notnull()] and [np.all] of a boolean table. *)
Definition notnull (d : DataFrame) : list (list bool) :=
  map (map (fun v => negb (isnull v))) (rows d).

Definition np_all (t : list (list bool)) : bool :=
  forallb (forallb id) t.

(** ** [get_gene_data] *)

Definition get_gene_data (data : ref) (gene_name_column : string)
    (test_gene_list : list value) : M ref :=
  gene_profiles <- new_frame empty_frame ;;
  d <- load data ;;
  genes <- getitem d gene_name_column ;;
  gene_profiles <-
    for_each genes (fun gene gene_profiles =>
      if py_in gene test_gene_list then
        d <- load data ;;
        col <- getitem d gene_name_column ;;
        df_ <- new_frame (getitem_mask d (series_eq col gene)) ;;
        pd_concat gene_profiles df_
      else ret gene_profiles) gene_profiles ;;
  (drop_duplicates_inplace gene_profiles ;;;
   ret gene_profiles).

(** ** [test_missing_data] *)

Definition test_missing_data (df : ref) (fname : string) : M unit :=
  d <- load df ;;
  if np_all (notnull d) then ret tt
  else raise (AssertionError (fname ++ " contains missing data")).

(** ** Sorting, merging and the other table operations *)

(** The order pandas sorts cells in: numbers by value, strings by code
    point, missing cells last.  (A column mixing numbers and strings
    makes Python raise; here numbers go first.) *)
Definition value_cmp (a b : value) : comparison :=
  match a, b with
  | Num p, Num q => Qcompare p q
  | Str s, Str t => String.compare s t
  | Num _, Str _ => Lt
  | Str _, Num _ => Gt
  | NaN, NaN => Eq
  | NaN, _ => Gt
  | _, NaN => Lt
  end.

(** Lexicographic comparison of sort keys. *)
Fixpoint key_cmp (a b : list value) : comparison :=
  match a, b with
  | x :: a', y :: b' => match value_cmp x y with
                        | Eq => key_cmp a' b'
                        | c => c
                        end
  | [], [] => Eq
  | [], _ => Lt
  | _, [] => Gt
  end.

(** Stable insertion sort by a key; [desc] reverses the comparison and,
    as pandas does, keeps missing keys last in that case too. *)
Definition goes_before (desc : bool) (ka kb : list value) : bool :=
  match (if desc then key_cmp kb ka else key_cmp ka kb) with
  | Gt => false
  | _ => true
  end.

Fixpoint insert_by {A} (key : A -> list value) (desc : bool) (x : A)
    (l : list A) : list A :=
  match l with
  | [] => [x]
  | y :: l' => if goes_before desc (key y) (key x) then y :: insert_by key desc x l'
               else x :: l
  end.

Definition sort_by {A} (key : A -> list value) (desc : bool) (l : list A) : list A :=
  fold_left (fun acc x => insert_by key desc x acc) l [].

(** [d.sort_values(by)], the table sorted by the named columns. *)
Definition sort_values (d : DataFrame) (by_ : list string) : option DataFrame :=
  ixs ← mapM (fun c => index_of c (columns d)) by_;
  Some (mkDataFrame (columns d) (dtypes d)
          (sort_by (fun r => map (fun i => cell i r) ixs) false (rows d))).

Definition sort_values_inplace (r : ref) (by_ : list string) : M unit :=
  d <- load r ;;
  d' <- lift_option (sort_values d by_) (KeyError (Str (default "" (head by_)))) ;;
  store r d'.

Definition remove_at {A} (i : nat) (l : list A) : list A :=
  take i l ++ drop (S i) l.

(** [pd.merge(l, r, on = key, how = 'inner')] on values: every row of [l],
    in order, joined with every row of [r] carrying the same key, in
    order.  The key column appears once; a label that both sides carry
    outside the key gets the suffixes [_x] and [_y]. *)
Definition merged_labels (l r : list string) (key : string) : list string :=
  map (fun c => if bool_decide (c ≠ key) && bool_decide (c ∈ r)
                then (c ++ "_x")%string else c) l
  ++ map (fun c => if bool_decide (c ∈ l) then (c ++ "_y")%string else c)
         (List.filter (fun c => negb (bool_decide (c = key))) r).

Definition join_rows (i j : nat) (l r : list (list value)) : list (list value) :=
  flat_map (fun lr =>
    map (fun rr => lr ++ remove_at j rr)
        (List.filter (fun rr => bool_decide (cell j rr = cell i lr)) r)) l.

Definition merge_frames (l r : DataFrame) (key : string) : option DataFrame :=
  match index_of key (columns l), index_of key (columns r) with
  | Some i, Some j =>
      Some (mkDataFrame
              (merged_labels (columns l) (columns r) key)
              (dtypes l ++ remove_at j (dtypes r))
              (join_rows i j (rows l) (rows r)))
  | _, _ => None
  end.

Definition pd_merge (l r : ref) (key : string) : M ref :=
  dl <- load l ;;
  dr <- load r ;;
  d <- lift_option (merge_frames dl dr key) (KeyError (Str key)) ;;
  new_frame d.

Definition dtype_name (t : dtype) : string :=
  match t with
  | int64 => "int64"
  | float64 => "float64"
  | bool_ => "bool"
  | object_ => "object"
  end.

(** [d[v]] for a list of labels [v]. *)
Definition getitem_list (d : DataFrame) (v : list string) : M DataFrame :=
  ixs <- lift_option (mapM (fun c => index_of c (columns d)) v)
                    (KeyError (Str (default "" (head v)))) ;;
  ret (mkDataFrame v
         (map (fun i => default object_ (dtypes d !! i)) ixs)
         (map (fun r => map (fun i => cell i r) ixs) (rows d))).

(** [d.iloc[:, i].values] *)
Definition iloc_col (d : DataFrame) (i : nat) : list value :=
  map (cell i) (rows d).

(** [np.array_equal(a, b)]: same length and equal entry by entry, a
    missing entry being equal to nothing. *)
Fixpoint array_equal (a b : list value) : bool :=
  match a, b with
  | [], [] => true
  | x :: a', y :: b' => py_eqb x y && array_equal a' b'
  | _, _ => false
  end.

(** [d.columns.to_series().groupby(d.dtypes).groups]: for every dtype of
    the frame, the labels of its columns; the dtypes are listed in order
    of first appearance. *)
Definition groups_by_dtype (d : DataFrame) : list (dtype * list string) :=
  map (fun t => (t, map fst (List.filter (fun ct => bool_decide (ct.2 = t))
                                          (zip (columns d) (dtypes d)))))
      (drop_seen [] (dtypes d)).

(** [pd.concat([a, b], axis = 1)] on values, both frames carrying the
    default row labels: rows are put side by side, the shorter frame is
    padded with missing cells. *)
Fixpoint zip_rows (wa wb : nat) (ra rb : list (list value)) : list (list value) :=
  match ra with
  | [] => map (fun y => replicate wa NaN ++ y) rb
  | x :: ra' =>
      match rb with
      | [] => map (fun x => x ++ replicate wb NaN) ra
      | y :: rb' => (x ++ y) :: zip_rows wa wb ra' rb'
      end
  end.

Definition concat_columns (a b : DataFrame) : DataFrame :=
  mkDataFrame (columns a ++ columns b) (dtypes a ++ dtypes b)
    (zip_rows (length (columns a)) (length (columns b)) (rows a) (rows b)).

Definition pd_concat_axis1 (a b : ref) : M ref :=
  da <- load a ;;
  db <- load b ;;
  new_frame (concat_columns da db).

(** ** [get_df_missing_columns] *)

(** [data.isnull().sum(axis = 0) / len(data) * 100] for the column at
    position [j]; dividing zero by zero rows leaves a missing value. *)
Definition percent_missing (d : DataFrame) (j : nat) : value :=
  let nulls := length (List.filter isnull (iloc_col d j)) in
  match length (rows d) with
  | O => NaN
  | S n => Num (Qred ((Z.of_nat nulls # Pos.of_succ_nat n) * 100))
  end.

Definition get_df_missing_columns (data : ref) : M ref :=
  d <- load data ;;
  df_missing_values <-
    new_frame (mkDataFrame ["index"; "% missing_values"] [object_; float64]
      (sort_by (fun r => [cell 1 r]) true
         (imap (fun j c => [Str c; percent_missing d j]) (columns d)))) ;;
  d <- load data ;;
  df_feature_type <-
    new_frame (mkDataFrame ["index"; "feature_type"] [object_; object_]
      (map (fun ct => [Str ct.1; Str (dtype_name ct.2)])
           (zip (columns d) (dtypes d)))) ;;
  missing_cols_df <- pd_merge df_feature_type df_missing_values "index" ;;
  (sort_values_inplace missing_cols_df ["% missing_values"; "feature_type"] ;;;
   ret missing_cols_df).

(** ** [find_constant_features] *)

Definition find_constant_features (data : ref) : M (list string) :=
  d <- load data ;;
  for_each (columns d) (fun column const_features =>
    d <- load data ;;
    col <- getitem d column ;;
    if (length (drop_seen [] col) <? 2)%nat
    then ret (const_features ++ [column])
    else ret const_features) [].

(** ** [duplicate_columns] and [get_duplicate_columns] *)

(** The inner [for j ...: if equal: append; break] appends the label of
    column [i] once if a later column of the group holds the same array:
    [existsb] stops at the first such [j] like the [break]. *)
Definition duplicate_columns (frame : ref) : M (list string) :=
  d <- load frame ;;
  let groups := groups_by_dtype d in
  for_each groups (fun '(t, v) dups =>
    d <- load frame ;;
    vs <- getitem_list d v ;;
    let cs := columns vs in
    let lcs := length cs in
    ret (fold_left (fun dups i =>
           let ia := iloc_col vs i in
           if existsb (fun j => array_equal ia (iloc_col vs j))
                      (seq (i + 1) (lcs - (i + 1)))
           then dups ++ [nth i cs ""]
           else dups) (seq 0 lcs) dups)) [].

Definition get_duplicate_columns (df : ref) : M (list string) :=
  d <- load df ;;
  let groups := groups_by_dtype d in
  for_each groups (fun '(t, v) dups =>
    d <- load df ;;
    vs <- getitem_list d v ;;
    let cs := columns vs in
    let lcs := length cs in
    ret (fold_left (fun dups i =>
           let ia := iloc_col vs i in
           if existsb (fun j => array_equal ia (iloc_col vs j))
                      (seq (i + 1) (lcs - (i + 1)))
           then dups ++ [nth i cs ""]
           else dups) (seq 0 lcs) dups)) [].

(** ** [get_df_stats] *)

Definition get_df_stats (df : ref) : M (ref * list string * list string) :=
  missing_cols_df <- get_df_missing_columns df ;;
  const_features_list <- find_constant_features df ;;
  dup_cols_list <- duplicate_columns df ;;
  ret (missing_cols_df, const_features_list, dup_cols_list).

(** ** [col_encoding] and [one_hot_df] *)

(** [LabelEncoder().fit_transform]: the classes are the distinct cells in
    sorted order, a cell is encoded by the position of its class.  Sorting
    strings together with numbers or missing cells raises. *)
Definition is_str (v : value) : bool :=
  match v with Str _ => true | _ => false end.

Definition label_classes (col : list value) : option (list value) :=
  if existsb is_str col && negb (forallb is_str col) then None
  else Some (sort_by (fun v => [v]) false (drop_seen [] col)).

Fixpoint position (v : value) (classes : list value) : nat :=
  match classes with
  | [] => 0
  | c :: classes' => if bool_decide (v = c) then 0 else S (position v classes')
  end.

(** [OneHotEncoder(sparse = False).fit_transform] of the encoded labels:
    one indicator column per label, and no encoding of an empty column. *)
Definition col_encoding (df : ref) (column : string) : M (list (list Q)) :=
  d <- load df ;;
  col <- getitem d column ;;
  classes <- lift_option (label_classes col) TypeError ;;
  let label_encoded := map (fun v => position v classes) col in
  match label_encoded with
  | [] => raise ValueError
  | _ => ret (map (fun l => map (fun c => if (c =? l)%nat then 1%Q else 0%Q)
                                (seq 0 (length classes)))
                  label_encoded)
  end.

(** [str(int(i))] *)
Definition str_of_nat (i : nat) : string :=
  NilEmpty.string_of_uint (Nat.to_uint i).

(** [len(m[0])], the second component of the shape of a matrix *)
Definition shape_1 {A} (m : list (list A)) : nat :=
  match m with
  | [] => 0
  | r :: _ => length r
  end.

Definition one_hot_df (df : ref) (cat_col_list : list string) : M ref :=
  df_hot <- new_frame empty_frame ;;
  for_each cat_col_list (fun col df_hot =>
    encoded_matrix <- col_encoding df col ;;
    df_ <- new_frame
      (mkDataFrame
         (map (fun i => (col ++ " " ++ str_of_nat i)%string)
              (seq 0 (shape_1 encoded_matrix)))
         (replicate (shape_1 encoded_matrix) float64)
         (map (map Num) encoded_matrix)) ;;
    pd_concat_axis1 df_hot df_) df_hot.

(** ** Files, the shell and strings *)

(** [pd.read_csv(path, ...)]: a new dataframe holding the table parsed
    from the file. *)
Definition read_csv (path : string) : M ref :=
  fun w => match files w !! path with
           | Some d => new_frame d w
           | None => (Raise (FileNotFoundError path), w)
           end.

(** The table a file holds when it was written with the row labels: they
    come first, in an unnamed column. *)
Definition with_index (d : DataFrame) : DataFrame :=
  mkDataFrame ("" :: columns d) (int64 :: dtypes d)
    (imap (fun i r => Num (inject_Z (Z.of_nat i)) :: r) (rows d)).

(** [s.lower()] on ASCII *)
Definition lower_ascii (c : ascii) : ascii :=
  let n := nat_of_ascii c in
  if (65 <=? n)%nat && (n <=? 90)%nat then ascii_of_nat (n + 32) else c.

Fixpoint lower (s : string) : string :=
  match s with
  | EmptyString => EmptyString
  | String c s' => String (lower_ascii c) (lower s')
  end.

(** [series.apply(lambda x: x.lower())]: only strings have [lower]. *)
Definition apply_lower (col : list value) : M (list value) :=
  for_each col (fun x out =>
    match x with
    | Str s => ret (out ++ [Str (lower s)])
    | _ => raise (AttributeError "lower")
    end) [].

(** [d.rename(columns = {old: new})] on values *)
Definition rename_column (d : DataFrame) (old new : string) : DataFrame :=
  mkDataFrame (map (fun c => if bool_decide (c = old) then new else c) (columns d))
              (dtypes d) (rows d).

Definition rename_inplace (r : ref) (old new : string) : M unit :=
  d <- load r ;;
  store r (rename_column d old new).

(** [d[c] = col] on values: the column is overwritten where it exists and
    added at the end where it does not. *)
Definition set_column (d : DataFrame) (c : string) (t : dtype)
    (col : list value) : DataFrame :=
  match index_of c (columns d) with
  | Some i => mkDataFrame (columns d) (<[i := t]> (dtypes d))
                (zip_with (fun r v => <[i := v]> r) (rows d) col)
  | None => mkDataFrame (columns d ++ [c]) (dtypes d ++ [t])
              (zip_with (fun r v => r ++ [v]) (rows d) col)
  end.

Definition setitem (r : ref) (c : string) (t : dtype) (col : list value) : M unit :=
  d <- load r ;;
  store r (set_column d c t col).

(** [d.iloc[:, :k]] and [d.iloc[:, k:]] *)
Definition iloc_cols_to (d : DataFrame) (k : nat) : DataFrame :=
  mkDataFrame (take k (columns d)) (take k (dtypes d)) (map (take k) (rows d)).

Definition iloc_cols_from (d : DataFrame) (k : nat) : DataFrame :=
  mkDataFrame (drop k (columns d)) (drop k (dtypes d)) (map (drop k) (rows d)).

(** ** [download_and_preprocess_data] *)

Section Download.

(** What a shell command does (here: [wget] and [unzip]): the files it
    leaves, and the lines it writes to the standard output, which it
    inherits from the Python process. *)
Variable run_shell :
  string -> gmap string DataFrame -> gmap string DataFrame * list string.

(** The numeric part, which is scikit-learn's: median imputation and
    standard scaling, then [PCA(variance_ratio, random_state = 42)],
    [fit_transform] and [inverse_transform].  It yields the reconstructed
    matrix, or fails (for instance on a non-numeric column). *)
Variable pca_reconstruct : DataFrame -> Q -> option (list (list value)).

(** Whether a file can be created at a path: its directory exists and may
    be written to.  The file system decides that, not this module. *)
Variable writable : gmap string DataFrame -> string -> bool.

(** [os.system(cmd)]; the exit status is not looked at. *)
Definition os_system (cmd : string) : M unit :=
  fun w => (Ok tt, set_shell (shell w ++ [cmd])
                     (set_stdout (stdout w ++ (run_shell cmd (files w)).2)
                        (set_files (run_shell cmd (files w)).1 w))).

(** [r.to_csv(path, index = index)]: the file is opened before anything
    is written, and a path at which no file can be created raises an
    OSError (FileNotFoundError for a missing directory). *)
Definition to_csv (r : ref) (path : string) (index : bool) : M unit :=
  d <- load r ;;
  fun w => if writable (files w) path
           then (Ok tt, set_files (<[path := if index then with_index d else d]>
                                     (files w)) w)
           else (Raise (FileNotFoundError path), w).

Definition download_and_preprocess_data (org : string) (data_dir : option string)
    (variance_ratio : Q) (output_path : string) : M unit :=
  df <-
    match data_dir with
    | None =>
        let download_cmd :=
          ("wget http://colombos.net/cws_data/compendium_data/"
             ++ org ++ "_compendium_data.zip")%string in
        let unzip_cmd := ("unzip " ++ org ++ "_compendium_data.zip")%string in
        os_system download_cmd ;;;
        os_system unzip_cmd ;;;
        df <- read_csv ("colombos_" ++ org ++ "_exprdata_20151029.txt")%string ;;
        rename_inplace df "Gene name" "gene name" ;;;
        d <- load df ;;
        col <- getitem d "gene name" ;;
        col <- apply_lower col ;;
        setitem df "gene name" object_ col ;;;
        ret df
    | Some data_dir =>
        df <- read_csv data_dir ;;
        try_pass (rename_inplace df "Gene name" "gene name") ;;;
        ret df
    end ;;
  d <- load df ;;
  annot <- new_frame (iloc_cols_to d 3) ;;
  d <- load df ;;
  data <- new_frame (iloc_cols_from d 3) ;;
  data_d <- load data ;;
  reconstructed <- lift_option (pca_reconstruct data_d variance_ratio) ValueError ;;
  data_d <- load data ;;
  (if forallb (fun r => (length r =? length (columns data_d))%nat) reconstructed
   then ret tt else raise ValueError) ;;;
  reconstructed_df <-
    new_frame (mkDataFrame (columns data_d)
                 (replicate (length (columns data_d)) float64) reconstructed) ;;
  denoised_df <- pd_concat_axis1 annot reconstructed_df ;;
  d <- load denoised_df ;;
  col <- getitem d "gene name" ;;
  col <- apply_lower col ;;
  setitem denoised_df "gene name" object_ col ;;;
  to_csv denoised_df (output_path ++ "denoised_" ++ org ++ ".csv")%string false.

End Download.

(** ** Loading and filtering the GO annotations *)

Section GeneOntology.

(** [str(x)] of a number.  It depends on the Python type of [x] (int,
    float, bool), which the cell model does not keep. *)
Variable str_of_num : Q -> string.

Definition py_str (x : value) : string :=
  match x with
  | Str s => s
  | NaN => "nan"
  | Num q => str_of_num q
  end.

Definition lower_strings (string_list : list value) : list string :=
  map (fun x => lower (py_str x)) string_list.

Definition load_gene_ontology_data : M ref :=
  gene_ontology_data <- read_csv "../data/GO_annotations_ecoli.csv" ;;
  ret gene_ontology_data.

(** The parameter [gene_ontology_data] is rebound by the first statement;
    any Python value can be passed for it. *)
Definition get_GO_gene_set {A : Type} (gene_ontology_data : A)
    (test_gene_list : list value) : M ref :=
  gene_ontology_data <- load_gene_ontology_data ;;
  d <- load gene_ontology_data ;;
  names <- getattr d "gene_name" ;;
  setitem gene_ontology_data "gene_name" object_ (map Str (lower_strings names)) ;;;
  GO_gene_set <- get_gene_data gene_ontology_data "gene_name" test_gene_list ;;
  ret GO_gene_set.

End GeneOntology.

(** ** [get_hi_GOs] *)

(** IEEE 754 binary64 arithmetic, as far as the threshold needs it. *)
Definition float_of_nat (n : nat) : spec_float :=
  binary_normalize 53 1024 (Z.of_nat n) 0 false.

(** The literal [0.10]: the double nearest to one tenth. *)
Definition float_0_10 : spec_float := S754_finite false 7205759403792794 (-56).

Definition float_mul (x y : spec_float) : spec_float := SFmul 53 1024 x y.

(** [int(x)]: truncation towards zero; infinities and NaN have no integer. *)
Definition py_int (x : spec_float) : option Z :=
  match x with
  | S754_zero _ => Some 0%Z
  | S754_finite s m e => Some (cond_Zopp s (Z.shiftl (Zpos m) e))
  | _ => None
  end.

(** [int(n * 0.10)] for a row count [n] *)
Definition threshold (n : nat) : option Z :=
  py_int (float_mul (float_of_nat n) float_0_10).

(** [pd.value_counts(col, sort = False)]: the number of occurrences of
    every distinct present value, missing cells left out. *)
Fixpoint count_into (x : value) (acc : list (value * nat)) : list (value * nat) :=
  match acc with
  | [] => [(x, 1%nat)]
  | (y, c) :: acc' => if bool_decide (x = y) then (y, S c) :: acc'
                      else (y, c) :: count_into x acc'
  end.

Definition value_counts_unsorted (col : list value) : list (value * nat) :=
  fold_left (fun acc x => if isnull x then acc else count_into x acc) col [].

(** [series.value_counts()]: the same, most frequent first. *)
Definition value_counts (col : list value) : list (value * nat) :=
  sort_by (fun vc => [Num (inject_Z (Z.of_nat vc.2))]) true
          (value_counts_unsorted col).

Definition get_hi_GOs (GO_gene_set : ref) : M (option (list value)) :=
  d <- load GO_gene_set ;;
  thr <- lift_option (threshold (length (rows d))) OverflowError ;;
  d <- load GO_gene_set ;;
  if (1 <? length (rows d))%nat then
    d <- load GO_gene_set ;;
    GO_ID <- getattr d "GO_ID" ;;
    let hi_indices := map (fun vc => (thr <? Z.of_nat vc.2)%Z) (value_counts GO_ID) in
    d <- load GO_gene_set ;;
    GO_ID <- getattr d "GO_ID" ;;
    let hi_GO_ids := map fst (np_mask (value_counts GO_ID) hi_indices) in
    if (0 <? length hi_GO_ids)%nat then ret (Some hi_GO_ids)
    else (print "No enriched functions found." ;;; ret None)
  else (print "No enriched functions found." ;;; ret None).

(** ** [get_hyper_test_p_value] *)

(** [np.empty(k)]: [k] cells of memory, not initialised.  The cells come
    off the front of [junk]; [junk_after] is what stays behind them. *)
Definition junk_after (j : nat -> Q) (k : nat) : nat -> Q :=
  fun i => j (k + i)%nat.

Definition np_empty (k : nat) : M (list Q) :=
  fun w => (Ok (map (junk w) (seq 0 k)), set_junk (junk_after (junk w) k) w).

Definition np_sum (a : list Q) : Q := fold_right Qplus 0%Q a.

(** Binomial coefficients and [scipy.stats.hypergeom.pmf(k, M, n, N)]:
    the probability of [k] marked items in [N] draws without replacement
    from [M] items of which [n] are marked. *)
Fixpoint choose (n k : nat) : nat :=
  match n, k with
  | _, O => 1
  | O, S _ => 0
  | S n', S k' => choose n' k' + choose n' k
  end.

Definition hypergeom_pmf (k M n N : nat) : Q :=
  if (k <=? N)%nat
  then (inject_Z (Z.of_nat (choose n k * choose (M - n) (N - k))))
       / inject_Z (Z.of_nat (choose M N))
  else 0.

(** [series[key]] on a value-count series *)
Fixpoint count_of (key : value) (vc : list (value * nat)) : option nat :=
  match vc with
  | [] => None
  | (y, c) :: vc' => if bool_decide (key = y) then Some c else count_of key vc'
  end.

(** [enumerate(xs)] *)
Fixpoint enumerate_from {A} (k : nat) (xs : list A) : list (nat * A) :=
  match xs with
  | [] => []
  | x :: xs' => (k, x) :: enumerate_from (S k) xs'
  end.

Definition enumerate {A} (xs : list A) : list (nat * A) := enumerate_from 0 xs.

(** [p < 0.05] *)
Definition below_0_05 (p : Q) : bool :=
  match Qcompare p (5 # 100) with Lt => true | _ => false end.

Definition get_hyper_test_p_value (gene_ontology_data GO_gene_set : ref)
    (hi_GO_ids : option (list value)) : M (option ref) :=
  match hi_GO_ids with
  | Some hi_GO_ids =>
    if (0 <? length hi_GO_ids)%nat then
      gs <- load GO_gene_set ;;
      let n := length (rows gs) in
      go <- load gene_ontology_data ;;
      let M_ := length (rows go) in
      p_vals <- np_empty (length hi_GO_ids) ;;
      p_vals <-
        for_each (enumerate hi_GO_ids) (fun '(i, hi_GO) p_vals =>
          gs <- load GO_gene_set ;;
          GO_ID <- getitem gs "GO_ID" ;;
          w <- lift_option (count_of hi_GO (value_counts_unsorted GO_ID))
                           (KeyError hi_GO) ;;
          gs <- load GO_gene_set ;;
          let b := (length (rows gs) - w)%nat in
          go <- load gene_ontology_data ;;
          GO_ID <- getitem go "GO_ID" ;;
          w_genome <- lift_option (count_of hi_GO (value_counts_unsorted GO_ID))
                                  (KeyError hi_GO) ;;
          go <- load gene_ontology_data ;;
          let b_genome := (length (rows go) - w_genome)%nat in
          hypergeom_pmfs <- np_empty (n - w + 1) ;;
          let pmfs := map (fun k => hypergeom_pmf k M_ w_genome n)
                          (seq w (n + 1 - w)) in
          let p_val := np_sum hypergeom_pmfs in
          ret (<[i := p_val]> p_vals)) p_vals ;;
      let significant_indices := map below_0_05 p_vals in
      let significant_pvals := np_mask p_vals significant_indices in
      let significant_GOs := np_mask hi_GO_ids significant_indices in
      GO_summary_df <-
        new_frame (mkDataFrame ["GO_ID"; "p_val"] [object_; float64]
                     (zip_with (fun g p => [g; Num (Qred p)])
                               significant_GOs significant_pvals)) ;;
      summary_df <- pd_merge GO_summary_df GO_gene_set "GO_ID" ;;
      (print "Enrichment test ran succesfully!" ;;;
       ret (Some summary_df))
    else (print "Enrichment test did not run." ;;; ret None)
  | None => (print "Enrichment test did not run." ;;; ret None)
  end.

(** ** [get_GO_enrichment] *)

Definition get_GO_enrichment (gene_list : list value) : M (option ref) :=
  go <- load_gene_ontology_data ;;
  go_gene_set <- get_gene_data go "gene_name" gene_list ;;
  hi_go_ids <- get_hi_GOs go_gene_set ;;
  enrichment_report <- get_hyper_test_p_value go go_gene_set hi_go_ids ;;
  ret enrichment_report.

(** ** Reference definitions for the statements *)

(** The number of cells of a column equal to [x]. *)
Definition occurrences (x : value) (col : list value) : nat :=
  length (List.filter (fun y => bool_decide (y = x)) col).

(** What [get_gene_data] gathers before it drops the duplicates: for
    every cell [gene] of the column at position [i] that is in the list,
    all rows of [d] carrying [gene] there. *)
Definition matching_rows (d : DataFrame) (i : nat) (gene : value) : DataFrame :=
  getitem_mask d (series_eq (iloc_col d i) gene).

Definition gather (d : DataFrame) (i : nat) (genes : list value)
    (g : DataFrame) (gene : value) : DataFrame :=
  if py_in gene genes then concat_frames g (matching_rows d i gene) else g.

(** The rows gathered for a list of cells, in the order the loop visits
    them. *)
Definition gathered (d : DataFrame) (i : nat) (genes vals : list value)
    : list (list value) :=
  flat_map (fun gene => if py_in gene genes
                        then rows (matching_rows d i gene) else []) vals.

Definition gene_data_frame (d : DataFrame) (i : nat) (genes : list value) : DataFrame :=
  drop_duplicates (fold_left (gather d i genes) (iloc_col d i) empty_frame).

(** The sums of consecutive uninitialised buffers of the given sizes, and
    the memory left after them. *)
Fixpoint buffer_sums (j : nat -> Q) (sizes : list nat) : list Q :=
  match sizes with
  | [] => []
  | k :: sizes' => np_sum (map j (seq 0 k)) :: buffer_sums (junk_after j k) sizes'
  end.

Fixpoint junk_after_all (j : nat -> Q) (sizes : list nat) : nat -> Q :=
  match sizes with
  | [] => j
  | k :: sizes' => junk_after_all (junk_after j k) sizes'
  end.

(** The sizes of the buffers [get_hyper_test_p_value] allocates in its
    loop, one per GO ID: [n - w + 1] with [n] the number of rows of the
    gene set and [w] the count of the GO ID in it. *)
Definition buffer_sizes (gs : DataFrame) (i : nat) (ids : list value) : list nat :=
  map (fun id => (length (rows gs) - occurrences id (iloc_col gs i) + 1)%nat) ids.

(** The p-values [get_hyper_test_p_value] ends up with. *)
Definition computed_p_vals (j : nat -> Q) (gs : DataFrame) (i : nat)
    (ids : list value) : list Q :=
  buffer_sums (junk_after j (length ids)) (buffer_sizes gs i ids).

(** The hypergeometric upper tail: the probability of [w] or more marked
    items among [n] draws from [M_] items of which [w_genome] are marked. *)
Definition upper_tail (w n M_ w_genome : nat) : Q :=
  np_sum (map (fun k => hypergeom_pmf k M_ w_genome n) (seq w (n + 1 - w))).

(** The GO IDs that pass the cut with their p-values, and the frame
    [GO_summary_df] made of them. *)
Definition significant (ids : list value) (p_vals : list Q) : list (value * Q) :=
  List.filter (fun ip => below_0_05 ip.2) (zip ids p_vals).

Definition GO_summary_frame (ids : list value) (p_vals : list Q) : DataFrame :=
  mkDataFrame ["GO_ID"; "p_val"] [object_; float64]
    (map (fun ip => [ip.1; Num (Qred ip.2)]) (significant ids p_vals)).



(** Every object of [w0] is still there, unchanged, in [w]. *)
Definition preserves (w0 w : world) : Prop :=
  forall (r : ref) (d : DataFrame), heap w0 !! r = Some d -> heap w !! r = Some d.

(** [r] is not an object of [w0]. *)
Definition fresh (w0 : world) (r : ref) : Prop := (length (heap w0) <= r)%nat.

(** A computation that, started where the objects of [w0] are intact,
    leaves them intact, and whose result satisfies [post]. *)
Definition safe {A} (w0 : world) (m : M A) (post : A -> Prop) : Prop :=
  forall w, preserves w0 w ->
    preserves w0 (m w).2 /\ forall a, (m w).1 = Ok a -> post a.

(** Two worlds that differ in the store at most. *)
Definition same_io (w w' : world) : Prop :=
  stdout w' = stdout w /\ files w' = files w /\ shell w' = shell w /\ junk w' = junk w.

(** A computation that touches nothing but the store. *)
Definition heap_only {A} (m : M A) : Prop := forall w, same_io w (m w).2.

(** ** Example data *)

Definition frame_with_gap : DataFrame :=
  mkDataFrame ["gene_name"; "GO_ID"] [object_; object_]
    [[Str "araC"; Str "GO:0006355"]; [NaN; Str "GO:0003677"]].

Definition frame_without_gap : DataFrame :=
  mkDataFrame ["gene_name"; "GO_ID"] [object_; object_]
    [[Str "araC"; Str "GO:0006355"]; [Str "lacI"; Str "GO:0003677"]].

(** A world holding the given objects: nothing printed yet, no files,
    and zeros in the memory not yet initialised. *)
Definition world_of (h : list DataFrame) : world :=
  mkWorld h [] ∅ [] (fun _ => 0%Q).

Definition annotations_example : DataFrame :=
  mkDataFrame ["gene_name"; "GO_ID"] [object_; object_]
    [[Str "araC"; Str "GO:A"]; [Str "lacI"; Str "GO:A"];
     [Str "lacZ"; Str "GO:B"]; [Str "lacY"; Str "GO:B"]].

Definition gene_set_example : DataFrame :=
  mkDataFrame ["gene_name"; "GO_ID"] [object_; object_]
    [[Str "araC"; Str "GO:A"]; [Str "lacI"; Str "GO:A"]].

Definition summary_example : DataFrame :=
  mkDataFrame ["GO_ID"; "p_val"; "gene_name"] [object_; float64; object_]
    [[Str "GO:A"; Num 0; Str "araC"]; [Str "GO:A"; Num 0; Str "lacI"]].

Definition single_row_example : DataFrame :=
  mkDataFrame ["gene_name"; "GO_ID"] [object_; object_]
    [[Str "araC"; Str "GO:A"]].

Definition ten_distinct_example : DataFrame :=
  mkDataFrame ["gene_name"; "GO_ID"] [object_; object_]
    (map (fun k => [Str ("gene" ++ str_of_nat k); Str ("GO:" ++ str_of_nat k)])
         (seq 0 10)).

Definition columns_example : DataFrame :=
  mkDataFrame ["a"; "b"; "c"; "d"] [int64; object_; int64; int64]
    [[Num 1; Str "x"; Num 1; Num 1]; [Num 2; Str "y"; Num 2; Num 2]].

Definition expression_example : DataFrame :=
  mkDataFrame ["LocusTag"; "Gene name"; "Geneid"; "contrast_1"; "contrast_2"]
    [object_; object_; object_; float64; float64]
    [[Str "b0001"; Str "thrL"; Str "944742"; Num 1; Num 2];
     [Str "b0002"; Str "thrA"; Str "945803"; Num 3; Num 4]].

(** A shell in which [unzip] of the E. coli archive leaves the expression
    table behind and reports it, and a reconstruction that gives the data
    back. *)
Definition shell_example (cmd : string) (fs : gmap string DataFrame)
    : gmap string DataFrame * list string :=
  if bool_decide (cmd = "unzip ecoli_compendium_data.zip")
  then (<["colombos_ecoli_exprdata_20151029.txt" := expression_example]> fs,
        ["Archive:  ecoli_compendium_data.zip"])
  else (fs, []).

Definition pca_example (d : DataFrame) (variance_ratio : Q)
    : option (list (list value)) :=
  Some (rows d).

Definition denoised_example : DataFrame :=
  mkDataFrame ["LocusTag"; "gene name"; "Geneid"; "contrast_1"; "contrast_2"]
    [object_; object_; object_; float64; float64]
    [[Str "b0001"; Str "thrl"; Str "944742"; Num 1; Num 2];
     [Str "b0002"; Str "thra"; Str "945803"; Num 3; Num 4]].

(** ** [get_network_hubs] and [get_network_clusters] *)

(** A NetworkX graph as far as these functions read it: the nodes in
    insertion order, each with its attribute dictionary. *)
Definition Graph := list (string * gmap string value).

(** [G.nodes()] *)
Definition nodes (G : Graph) : list string := map fst G.

(** [G.node[n]], the attribute dictionary of a node (NetworkX before 2.4
    has this attribute) *)
Definition node (G : Graph) (n : string) : option (gmap string value) :=
  snd <$> List.find (fun e => bool_decide (e.1 = n)) G.

(** The comprehension reads [network_lcc.node[n]['modularity']] for every
    node; [range(n_clusters)] is empty for a count below one. *)
Definition get_network_clusters (network_lcc : Graph) (n_clusters : Z)
    : M (list (list string)) :=
  for_each (seq 0 (Z.to_nat n_clusters)) (fun i cluster_list =>
    cluster_lcc <-
      for_each (nodes network_lcc) (fun n cluster_lcc =>
        attrs <- lift_option (node network_lcc n) (KeyError (Str n)) ;;
        modularity <- lift_option (attrs !! "modularity")
                                  (KeyError (Str "modularity")) ;;
        if py_eqb modularity (Num (inject_Z (Z.of_nat i)))
        then ret (cluster_lcc ++ [n])
        else ret cluster_lcc) [] ;;
    ret (cluster_list ++ [cluster_lcc])) [].

Section Hubs.

(** [nx.eigenvector_centrality(ntw)]: the items of the dictionary it
    returns, in order; it is NetworkX's and may raise. *)
Variable eigenvector_centrality : Graph -> M (list (string * Q)).

(** [sorted(items, key = lambda cc: cc[1], reverse = True)[:10]]; Python's
    sort is stable, also in reverse. *)
Definition get_network_hubs (ntw : Graph) : M (list (string * Q)) :=
  eigen_cen <- eigenvector_centrality ntw ;;
  let hubs := take 10 (sort_by (fun cc : string * Q => [Num cc.2]) true eigen_cen) in
  ret hubs.

End Hubs.

(** ** [get_hyper_test_p_value] with the p-values as doubles *)

(** The model of [get_hyper_test_p_value] above keeps the cells of the
    buffers and their sums as exact rationals.  That shows which array is
    summed and which paths print and return None; the significance cut,
    however, compares doubles.  [Binary64] is the same function with the
    memory, the sums and the comparison in IEEE 754 binary64: the cells
    that [np.empty] hands out are doubles (a NaN or an infinity among
    them), their sum is numpy's, and [p < 0.05] is the comparison of two
    doubles. *)
Module Binary64.

(** The literal [0.05]: the double nearest to one twentieth. *)
Definition float_0_05 : spec_float := S754_finite false 7205759403792794 (-57).

(** The rational a finite double stands for. *)
Definition Q_of_float (x : spec_float) : Q :=
  match x with
  | S754_finite s m e =>
      match e with
      | Zneg k => cond_Zopp s (Zpos m) # (2 ^ k)
      | _ => inject_Z (cond_Zopp s (Zpos m) * 2 ^ e)
      end
  | _ => 0
  end.

(** A double as the cell of a dataframe: a NaN is a missing cell.  An
    infinite double has no counterpart among the cells; the statements
    about the summary leave that case out. *)
Definition float_cell (x : spec_float) : value :=
  match x with
  | S754_nan | S754_infinity _ => NaN
  | _ => Num (Qred (Q_of_float x))
  end.

Section Numpy.

(** [a.sum()] of an array of doubles.  It is numpy's (pairwise summation,
    in an order that depends on the length and the version). *)
Variable np_sum : list spec_float -> spec_float.

(** [st.hypergeom.pmf(k, M, n, N)], scipy's *)
Variable hypergeom_pmf : nat -> nat -> nat -> nat -> spec_float.

(** The doubles in the memory that [np.empty] hands out, in the order in
    which it is handed out. *)
Variable memory : nat -> spec_float.

(** [np.empty(k)], taken from the position [next] of that memory *)
Definition np_empty (next k : nat) : list spec_float :=
  map memory (seq next k).

Definition get_hyper_test_p_value (gene_ontology_data GO_gene_set : ref)
    (hi_GO_ids : option (list value)) : M (option ref) :=
  match hi_GO_ids with
  | Some hi_GO_ids =>
    if (0 <? length hi_GO_ids)%nat then
      gs <- load GO_gene_set ;;
      let n := length (rows gs) in
      go <- load gene_ontology_data ;;
      let M_ := length (rows go) in
      let p_vals := np_empty 0 (length hi_GO_ids) in
      filled <-
        for_each (enumerate hi_GO_ids) (fun '(i, hi_GO) '(p_vals, next) =>
          gs <- load GO_gene_set ;;
          GO_ID <- getitem gs "GO_ID" ;;
          w <- lift_option (count_of hi_GO (value_counts_unsorted GO_ID))
                           (KeyError hi_GO) ;;
          gs <- load GO_gene_set ;;
          let b := (length (rows gs) - w)%nat in
          go <- load gene_ontology_data ;;
          GO_ID <- getitem go "GO_ID" ;;
          w_genome <- lift_option (count_of hi_GO (value_counts_unsorted GO_ID))
                                  (KeyError hi_GO) ;;
          go <- load gene_ontology_data ;;
          let b_genome := (length (rows go) - w_genome)%nat in
          let hypergeom_pmfs := np_empty next (n - w + 1) in
          let pmfs := map (fun k => hypergeom_pmf k M_ w_genome n)
                          (seq w (n + 1 - w)) in
          let p_val := np_sum hypergeom_pmfs in
          ret (<[i := p_val]> p_vals, (next + (n - w + 1))%nat))
          (p_vals, length hi_GO_ids) ;;
      let p_vals := filled.1 in
      let significant_indices := map (fun p => SFltb p float_0_05) p_vals in
      let significant_pvals := np_mask p_vals significant_indices in
      let significant_GOs := np_mask hi_GO_ids significant_indices in
      GO_summary_df <-
        new_frame (mkDataFrame ["GO_ID"; "p_val"] [object_; float64]
                     (zip_with (fun g p => [g; float_cell p])
                               significant_GOs significant_pvals)) ;;
      summary_df <- pd_merge GO_summary_df GO_gene_set "GO_ID" ;;
      (print "Enrichment test ran succesfully!" ;;;
       ret (Some summary_df))
    else (print "Enrichment test did not run." ;;; ret None)
  | None => (print "Enrichment test did not run." ;;; ret None)
  end.

(** The buffers the loop gets from [np.empty], one per GO ID, of the
    given sizes and from the position [next] on; and the p-values the
    function ends up with, their sums: the buffer of the GO ID [id] has
    [n - w + 1] cells, with [n] the number of rows of the gene set and [w]
    the number of its rows that carry [id]. *)
Fixpoint buffers (next : nat) (sizes : list nat) : list (list spec_float) :=
  match sizes with
  | [] => []
  | k :: sizes' => map memory (seq next k) :: buffers (next + k) sizes'
  end.

Definition computed_p_vals (gs : DataFrame) (i : nat) (ids : list value)
    : list spec_float :=
  map np_sum
    (buffers (length ids)
       (map (fun id => (length (rows gs)
                        - length (List.filter (fun v => bool_decide (v = id))
                                              (map (fun row => nth i row NaN) (rows gs)))
                        + 1)%nat) ids)).

End Numpy.

End Binary64.

(** ** Reference definitions for the further properties *)

(** A column of a dataframe is constant when it holds at most one distinct
    value, missing cells counting as one value; [is_constant d c] says so
    of the column [d[c]]. *)
Definition is_constant (d : DataFrame) (c : string) : bool :=
  match index_of c (columns d) with
  | Some i => (length (drop_seen [] (iloc_col d i)) <? 2)%nat
  | None => false
  end.

(** The position of the column a label selects (0 for a label the header
    does not carry). *)
Definition pos (d : DataFrame) (c : string) : nat :=
  default 0%nat (index_of c (columns d)).

(** The labels [duplicate_columns] reports for one dtype group [v]: those
    at a position [i] of the group for which a later position [j] selects
    a column with an equal array. *)
Definition group_dups (d : DataFrame) (v : list string) : list string :=
  map (fun i => nth i v "")
      (List.filter
         (fun i => existsb (fun j => array_equal (iloc_col d (pos d (nth i v "")))
                                                 (iloc_col d (pos d (nth j v ""))))
                           (seq (i + 1) (length v - (i + 1))))
         (seq 0 (length v))).

(** [x] stands before [y] in [l]. *)
Definition ordered_pair {A} (l : list A) (x y : A) : Prop :=
  exists i j, (i < j)%nat /\ l !! i = Some x /\ l !! j = Some y.

(** The frames [get_df_missing_columns] builds from a dataframe [d]: the
    percentages, most missing first; the dtypes; their merge on the
    label; and the report, the merge sorted by percentage and dtype. *)
Definition missing_values_frame (d : DataFrame) : DataFrame :=
  mkDataFrame ["index"; "% missing_values"] [object_; float64]
    (sort_by (fun r => [cell 1 r]) true
       (imap (fun j c => [Str c; percent_missing d j]) (columns d))).

Definition feature_type_frame (d : DataFrame) : DataFrame :=
  mkDataFrame ["index"; "feature_type"] [object_; object_]
    (map (fun ct => [Str ct.1; Str (dtype_name ct.2)]) (zip (columns d) (dtypes d))).

Definition missing_cols_merge (d : DataFrame) : DataFrame :=
  mkDataFrame ["index"; "feature_type"; "% missing_values"]
    [object_; object_; float64]
    (join_rows 0 0 (rows (feature_type_frame d)) (rows (missing_values_frame d))).

Definition missing_cols_report (d : DataFrame) : DataFrame :=
  mkDataFrame ["index"; "feature_type"; "% missing_values"]
    [object_; object_; float64]
    (sort_by (fun r => map (fun i => cell i r) [2%nat; 1%nat]) false
       (rows (missing_cols_merge d))).

(** The row of the report for the column at position [j]. *)
Definition report_row (d : DataFrame) (j : nat) : list value :=
  [Str (nth j (columns d) ""); Str (dtype_name (nth j (dtypes d) object_));
   percent_missing d j].

(** A computation that prints nothing, runs no command, and has left the
    files alone whenever it raises. *)
Definition writes_last {A} (m : M A) : Prop :=
  forall w, stdout (m w).2 = stdout w /\ shell (m w).2 = shell w
            /\ forall e, (m w).1 = Raise e -> files (m w).2 = files w.

(** The indicator vector of class [c] among [k] classes. *)
Definition indicator (k c : nat) : list Q :=
  map (fun j => if (j =? c)%nat then 1%Q else 0%Q) (seq 0 k).

(** What [col_encoding] returns for the column [col] of [d], when it
    returns. *)
Definition encoding_of (d : DataFrame) (col : string) : option (list (list Q)) :=
  i ← index_of col (columns d);
  classes ← label_classes (iloc_col d i);
  match rows d with
  | [] => None
  | _ => Some (map (fun v => indicator (length classes) (position v classes))
                   (iloc_col d i))
  end.

(** The number of distinct values in a column. *)
Definition distinct_values (d : DataFrame) (col : string) : nat :=
  match index_of col (columns d) with
  | Some i => length (drop_seen [] (iloc_col d i))
  | None => 0
  end.

(** The frame [one_hot_df] makes of one encoded column. *)
Definition hot_block (col : string) (m : list (list Q)) : DataFrame :=
  mkDataFrame
    (map (fun i => (col ++ " " ++ str_of_nat i)%string) (seq 0 (shape_1 m)))
    (replicate (shape_1 m) float64)
    (map (map Num) m).

Definition hot_step (d : DataFrame) (acc : DataFrame) (col : string) : DataFrame :=
  concat_columns acc (hot_block col (default [] (encoding_of d col))).

(** Row [p] of the encodings of the listed columns, side by side. *)
Definition hot_row (d : DataFrame) (cols : list string) (p : nat) : list value :=
  flat_map (fun col => map Num (nth p (default [] (encoding_of d col)) [])) cols.

(** The node [n] of [G] carries the module number [i]. *)
Definition in_module (G : Graph) (i : nat) (n : string) : Prop :=
  exists attrs, node G n = Some attrs
    /\ attrs !! "modularity" = Some (Num (inject_Z (Z.of_nat i))).

(** The test of the comprehension, where the attribute is there. *)
Definition has_module (G : Graph) (i : nat) (n : string) : bool :=
  match node G n with
  | Some attrs => match attrs !! "modularity" with
                  | Some m => py_eqb m (Num (inject_Z (Z.of_nat i)))
                  | None => false
                  end
  | None => false
  end.

(** No column of dtype object holds a missing cell.  In an object column
    Python tells None from NaN and compares None equal to itself; the cell
    model has one missing cell, equal to nothing. *)
Definition no_missing_objects (d : DataFrame) : Prop :=
  forall p, dtypes d !! p = Some object_ -> NaN ∉ iloc_col d p.

(** ** Further example data *)

Definition interleaved_example : DataFrame :=
  mkDataFrame ["gene_name"; "GO_ID"] [object_; object_]
    [[Str "araC"; Str "GO:A"]; [Str "lacI"; Str "GO:B"]; [Str "araC"; Str "GO:C"]].

Definition constants_example : DataFrame :=
  mkDataFrame ["organism"; "gene_name"; "note"] [object_; object_; float64]
    [[Str "ecoli"; Str "araC"; NaN]; [Str "ecoli"; Str "lacI"; NaN]].

Definition nan_columns_example : DataFrame :=
  mkDataFrame ["a"; "b"] [float64; float64]
    [[Num 1; Num 1]; [NaN; NaN]].

(** Annotations as the file holds them, gene names in mixed case. *)
Definition mixed_case_example : DataFrame :=
  mkDataFrame ["gene_name"; "GO_ID"] [object_; object_]
    [[Str "araC"; Str "GO:A"]; [Str "lacI"; Str "GO:A"]; [Str "lacZ"; Str "GO:B"]].

Definition annotation_file_example : world :=
  mkWorld [] [] {["../data/GO_annotations_ecoli.csv" := mixed_case_example]} []
          (fun _ => 0%Q).

Definition category_example : DataFrame :=
  mkDataFrame ["gene_name"; "strand"] [object_; object_]
    [[Str "araC"; Str "+"]; [Str "lacI"; Str "-"]; [Str "lacZ"; Str "-"]].

Definition network_example : Graph :=
  [("araC", {["modularity" := Num 0]});
   ("lacI", {["modularity" := Num 1]});
   ("crp", {["modularity" := Num 0]})].

Definition centrality_example : list (string * Q) :=
  map (fun k => ("g" ++ str_of_nat k, inject_Z (Z.of_nat (k mod 7))))%string
      (seq 0 12).


(** ** Doubles for the significance cut

    A gene set with one row for each of two GO IDs, so that each ID gets a
    buffer of two doubles, and a memory whose cells 2 to 5 hold 0.03, 0.02,
    0.01 and 0.02.  [np.sum] on a short array adds its cells from left to
    right. *)

Definition two_terms_example : DataFrame :=
  mkDataFrame ["gene_name"; "GO_ID"] [object_; object_]
    [[Str "araC"; Str "GO:A"]; [Str "lacZ"; Str "GO:B"]].

Definition sequential_sum (xs : list spec_float) : spec_float :=
  fold_left (SFadd 53 1024) xs (S754_zero false).

Definition hundredths (a : nat) : spec_float :=
  SFdiv 53 1024 (float_of_nat a) (float_of_nat 100).

Definition rounded_pmf (k M_ n N : nat) : spec_float :=
  SFdiv 53 1024
    (binary_normalize 53 1024 (Qnum (hypergeom_pmf k M_ n N)) 0 false)
    (binary_normalize 53 1024 (Zpos (Qden (hypergeom_pmf k M_ n N))) 0 false).

Definition memory_example (k : nat) : spec_float :=
  match k with
  | 2 => hundredths 3
  | 3 => hundredths 2
  | 4 => hundredths 1
  | 5 => hundredths 2
  | _ => S754_zero false
  end.

(** ** The threshold of [get_hi_GOs] on a range of row counts *)

(** [int(z * 0.10)] for an integer [z], and the test that it is the
    quotient of [z] by ten for [fuel] successive integers from [z] on. *)
Definition threshold_of_Z (z : Z) : option Z :=
  py_int (float_mul (binary_normalize 53 1024 z 0 false) float_0_10).

Fixpoint quotients_by_ten (fuel : nat) (z : Z) : bool :=
  match fuel with
  | O => true
  | S fuel' =>
      match threshold_of_Z z with
      | Some t => (t =? z / 10)%Z && quotients_by_ten fuel' (z + 1)
      | None => false
      end
  end.

(** A gene set of twelve rows: GO:A three times, GO:B twice, seven other
    IDs once each. *)
Definition twelve_rows_example : DataFrame :=
  mkDataFrame ["gene_name"; "GO_ID"] [object_; object_]
    (map (fun g => [Str ("gene" ++ g.1); Str ("GO:" ++ g.2)])
       [("1", "A"); ("2", "A"); ("3", "A"); ("4", "B"); ("5", "B");
        ("6", "C"); ("7", "D"); ("8", "E"); ("9", "F"); ("10", "G");
        ("11", "H"); ("12", "I")]).

(** Annotations in which one row is there twice. *)
Definition repeated_row_example : DataFrame :=
  mkDataFrame ["gene_name"; "GO_ID"] [object_; object_]
    [[Str "araC"; Str "GO:A"]; [Str "lacI"; Str "GO:B"]; [Str "araC"; Str "GO:A"];
     [Str "lacZ"; Str "GO:C"]].
(** * Properties *)

(** ** Lists *)

Lemma np_mask_map {A} (f : A -> bool) (l : list A) :
  np_mask l (map f l) = List.filter f l.
Proof. induction l as [|x l IH]; simpl; [done|]. destruct (f x); by rewrite IH. Qed.

Lemma py_eqb_eq a b : py_eqb a b = true -> a = b /\ isnull a = false.
Proof.
  unfold py_eqb. intros H. apply andb_true_iff in H as [H1 H2].
  apply andb_true_iff in H1 as [H1 _]. apply bool_decide_eq_true in H2.
  split; [done|]. by destruct (isnull a).
Qed.

Lemma py_eqb_refl a : isnull a = false -> py_eqb a a = true.
Proof. unfold py_eqb. intros ->. simpl. by apply bool_decide_eq_true. Qed.

Lemma py_in_spec x xs : py_in x xs = true <-> isnull x = false /\ x ∈ xs.
Proof.
  unfold py_in. rewrite existsb_exists. split.
  - intros (y & Hy & He). apply py_eqb_eq in He as [-> Hn]. split; [done|].
    by apply list_elem_of_In.
  - intros [Hn Hx]. exists x. split; [by apply list_elem_of_In|by apply py_eqb_refl].
Qed.

Lemma drop_seen_elem {A} `{EqDecision A} (seen rs : list A) r :
  r ∈ drop_seen seen rs <-> r ∈ rs /\ r ∉ seen.
Proof.
  revert seen. induction rs as [|x rs IH]; intros seen; simpl.
  - set_solver.
  - case_bool_decide as Hx.
    + rewrite IH. set_solver.
    + rewrite elem_of_cons, IH.
      destruct (decide (r = x)) as [->|Hne]; set_solver.
Qed.

Lemma drop_seen_NoDup {A} `{EqDecision A} (seen rs : list A) :
  NoDup (drop_seen seen rs).
Proof.
  revert seen. induction rs as [|x rs IH]; intros seen; simpl.
  - constructor.
  - case_bool_decide; [apply IH|].
    constructor; [|apply IH]. rewrite drop_seen_elem. set_solver.
Qed.

(** ** Running the store primitives *)

Lemma load_run w r d : heap w !! r = Some d -> load r w = (Ok d, w).
Proof. unfold load. by intros ->. Qed.

Lemma lookup_new_frame_old w d r x :
  heap w !! r = Some x -> heap (set_heap (heap w ++ [d]) w) !! r = Some x.
Proof. intros H. simpl. rewrite lookup_app_l; [done|]. by eapply lookup_lt_Some. Qed.

Lemma lookup_new_frame_new w d :
  heap (set_heap (heap w ++ [d]) w) !! length (heap w) = Some d.
Proof. simpl. by rewrite list_lookup_middle. Qed.

Ltac run_steps :=
  repeat (unfold bind, load, store, getitem, getattr, lift_option, pd_concat,
            pd_merge, new_frame, ret, raise, print, drop_duplicates_inplace;
          simpl).

(** ** [test_missing_data] *)

Lemma row_notnull r :
  forallb id (map (fun v => negb (isnull v)) r) = false <-> NaN ∈ r.
Proof.
  induction r as [|v r IH]; simpl.
  - split; [done|]. by intros ?%elem_of_nil.
  - rewrite elem_of_cons. destruct v; simpl; [|rewrite IH..].
    + split; [by left|done].
    + split; [by right|by intros [?|?]].
    + split; [by right|by intros [?|?]].
Qed.

Lemma np_all_notnull d :
  np_all (notnull d) = false <-> exists r, r ∈ rows d /\ NaN ∈ r.
Proof.
  unfold np_all, notnull. induction (rows d) as [|r rs IH]; simpl.
  - split; [done|]. by intros (r & ?%elem_of_nil & _).
  - rewrite andb_false_iff, row_notnull, IH. split.
    + intros [H|(r' & H1 & H2)].
      * exists r. split; [by left|done].
      * exists r'. split; [by right|done].
    + intros (r' & [->|H1]%elem_of_cons & H2); [by left|].
      right. by exists r'.
Qed.

(** C6.  [test_missing_data(df, fname)] raises the AssertionError with the
    message [fname + ' contains missing data'] exactly when some cell of
    the dataframe is missing, and otherwise returns None; in both cases it
    changes nothing. *)
Theorem test_missing_data_raises_iff_null (w : world) (df : ref) (d : DataFrame)
    (fname : string) :
  heap w !! df = Some d ->
  (test_missing_data df fname w
     = (Raise (AssertionError (fname ++ " contains missing data")), w)
   <-> exists r, r ∈ rows d /\ NaN ∈ r)
  /\ (~ (exists r, r ∈ rows d /\ NaN ∈ r) ->
      test_missing_data df fname w = (Ok tt, w)).
Proof.
  intros Hd. unfold test_missing_data, bind. rewrite (load_run _ _ _ Hd).
  rewrite <- np_all_notnull.
  destruct (np_all (notnull d)); unfold ret, raise.
  - split; [split; [congruence|done]|done].
  - split; [done|]. intros H. by destruct H.
Qed.

Lemma test_missing_data_raises_iff_null_witness :
  test_missing_data 0 "go" (world_of [frame_with_gap])
    = (Raise (AssertionError "go contains missing data"), world_of [frame_with_gap])
  /\ test_missing_data 0 "go" (world_of [frame_without_gap])
    = (Ok tt, world_of [frame_without_gap]).
Proof.
  split.
  - apply (test_missing_data_raises_iff_null (world_of [frame_with_gap]) 0
             frame_with_gap "go" eq_refl).
    exists [NaN; Str "GO:0003677"]. split.
    + right. left.
    + left.
  - apply (test_missing_data_raises_iff_null (world_of [frame_without_gap]) 0
             frame_without_gap "go" eq_refl).
    intros (r & Hr & Hn). unfold frame_without_gap in Hr. simpl in Hr.
    apply elem_of_cons in Hr as [->|Hr].
    { apply elem_of_cons in Hn as [?|Hn]; [done|].
      apply elem_of_cons in Hn as [?|Hn]; [done|]. by apply elem_of_nil in Hn. }
    apply elem_of_cons in Hr as [->|Hr].
    { apply elem_of_cons in Hn as [?|Hn]; [done|].
      apply elem_of_cons in Hn as [?|Hn]; [done|]. by apply elem_of_nil in Hn. }
    by apply elem_of_nil in Hr.
Defined.

(** ** [get_gene_data] *)

Lemma filter_all {A} (f : A -> bool) (l : list A) :
  (forall x, f x = true) -> List.filter f l = l.
Proof. intros H. induction l as [|x l IH]; simpl; [done|]. by rewrite H, IH. Qed.

Lemma filter_none {A} (f : A -> bool) (l : list A) :
  (forall x, x ∈ l -> f x = false) -> List.filter f l = [].
Proof.
  induction l as [|x l IH]; intros H; simpl; [done|].
  rewrite H by left. apply IH. intros y Hy. apply H. by right.
Qed.

Lemma union_labels_nil cs : union_labels [] cs = cs.
Proof.
  unfold union_labels. cbn [app]. apply filter_all. intros c.
  apply negb_true_iff, bool_decide_eq_false_2, not_elem_of_nil.
Qed.

Lemma union_labels_same cs : union_labels cs cs = cs.
Proof.
  unfold union_labels. rewrite filter_none; [apply app_nil_r|].
  intros c Hc. by apply negb_false_iff, bool_decide_eq_true_2.
Qed.

Lemma concat_frames_onto_empty m :
  columns (concat_frames empty_frame m) = columns m
  /\ rows (concat_frames empty_frame m) = rows m.
Proof.
  unfold concat_frames, align. cbn [columns rows empty_frame].
  rewrite union_labels_nil. split; [done|].
  repeat case_bool_decide; done.
Qed.

Lemma concat_frames_same_columns g m :
  columns g = columns m ->
  columns (concat_frames g m) = columns m
  /\ rows (concat_frames g m) = rows g ++ rows m.
Proof.
  intros H. unfold concat_frames, align. cbn [columns rows].
  rewrite H, union_labels_same. split; [done|].
  repeat case_bool_decide; done.
Qed.

Lemma concat_frames_rows g m :
  g = empty_frame \/ columns g = columns m ->
  columns (concat_frames g m) = columns m
  /\ rows (concat_frames g m) = rows g ++ rows m.
Proof.
  intros [->|H]; [apply concat_frames_onto_empty|by apply concat_frames_same_columns].
Qed.

Lemma matching_rows_rows d i gene :
  rows (matching_rows d i gene)
  = List.filter (fun r => py_eqb (cell i r) gene) (rows d).
Proof.
  unfold matching_rows, getitem_mask, series_eq, iloc_col. simpl.
  rewrite map_map. apply np_mask_map.
Qed.

Section GeneData.

Variables (d : DataFrame) (i : nat) (genes : list value).

Lemma fold_gather vals : forall g,
  g = empty_frame \/ columns g = columns d ->
  let F := fold_left (gather d i genes) vals g in
  rows F = rows g ++ gathered d i genes vals
  /\ ((forall gene, gene ∈ vals -> py_in gene genes = false) -> F = g)
  /\ (columns g = columns d -> columns F = columns d)
  /\ ((exists gene, gene ∈ vals /\ py_in gene genes = true) -> columns F = columns d).
Proof.
  induction vals as [|gene vals IH]; intros g Hg; simpl.
  - split; [by rewrite app_nil_r|]. split; [done|]. split; [done|].
    by intros (gene & ?%elem_of_nil & _).
  - unfold gather at 2 4 6 8. destruct (py_in gene genes) eqn:Hin.
    + destruct (concat_frames_rows g (matching_rows d i gene)) as [Hc Hr]; [done|].
      destruct (IH (concat_frames g (matching_rows d i gene))) as (H1 & H2 & H3 & H4);
        [by right|].
      split; [by rewrite H1, Hr, app_assoc|]. split; [|split].
      * intros Hno. rewrite Hno in Hin; [done|left].
      * intros _. by apply H3.
      * intros _. by apply H3.
    + destruct (IH g Hg) as (H1 & H2 & H3 & H4). split; [done|]. split; [|split].
      * intros Hno. apply H2. intros gene' Hg'. apply Hno. by right.
      * done.
      * intros (gene' & [->|Hg']%elem_of_cons & Hin'); [congruence|].
        apply H4. by exists gene'.
Qed.

Lemma gathered_elem r :
  r ∈ gathered d i genes (iloc_col d i) <-> r ∈ rows d /\ py_in (cell i r) genes = true.
Proof.
  unfold gathered. rewrite list_elem_of_In, in_flat_map. split.
  - intros (gene & Hgene & Hr). destruct (py_in gene genes) eqn:Hin; [|done].
    rewrite matching_rows_rows in Hr. apply filter_In in Hr as [Hr He].
    apply py_eqb_eq in He as [<- _] . split; [by apply list_elem_of_In|done].
  - intros [Hr Hin]. exists (cell i r). split.
    + unfold iloc_col. apply in_map. by apply list_elem_of_In.
    + rewrite Hin, matching_rows_rows. apply filter_In.
      split; [by apply list_elem_of_In|].
      apply py_eqb_refl. by apply py_in_spec in Hin as [? _].
Qed.

Lemma gene_data_frame_spec :
  NoDup (rows (gene_data_frame d i genes))
  /\ (forall r, r ∈ rows (gene_data_frame d i genes)
               <-> r ∈ rows d /\ py_in (cell i r) genes = true)
  /\ ((forall r, r ∈ rows d -> py_in (cell i r) genes = false) ->
      gene_data_frame d i genes = empty_frame)
  /\ ((exists r, r ∈ rows d /\ py_in (cell i r) genes = true) ->
      columns (gene_data_frame d i genes) = columns d).
Proof.
  unfold gene_data_frame.
  destruct (fold_gather (iloc_col d i) empty_frame) as (H1 & H2 & _ & H3); [by left|].
  simpl in H1. split; [apply drop_seen_NoDup|]. split; [|split].
  - intros r. unfold drop_duplicates. simpl. rewrite drop_seen_elem, H1, gathered_elem.
    split; [by intros [? _]|]. intros ?. split; [done|apply not_elem_of_nil].
  - intros Hno. rewrite H2; [done|]. intros gene Hgene.
    unfold iloc_col in Hgene. apply list_elem_of_fmap in Hgene as (r & -> & Hr).
    by apply Hno.
  - intros (r & Hr & Hin). simpl. apply H3. exists (cell i r). split; [|done].
    unfold iloc_col. apply list_elem_of_fmap. by exists r.
Qed.

End GeneData.

Lemma gene_loop_run data col genes d i vals : forall w gp g,
  index_of col (columns d) = Some i ->
  heap w !! data = Some d -> heap w !! gp = Some g ->
  exists gp' w',
    for_each vals (fun gene gene_profiles =>
      if py_in gene genes then
        d <- load data ;;
        c <- getitem d col ;;
        df_ <- new_frame (getitem_mask d (series_eq c gene)) ;;
        pd_concat gene_profiles df_
      else ret gene_profiles) gp w = (Ok gp', w')
    /\ heap w' !! gp' = Some (fold_left (gather d i genes) vals g)
    /\ heap w' !! data = Some d
    /\ same_io w w'.
Proof.
  induction vals as [|gene vals IH]; intros w gp g Hcol Hd Hg; simpl.
  - by exists gp, w.
  - unfold bind at 1. unfold gather at 2.
    destruct (py_in gene genes) eqn:Hin.
    + run_steps. rewrite Hd, Hcol. simpl.
      rewrite lookup_app_l by (by eapply lookup_lt_Some).
      rewrite Hg. simpl. rewrite list_lookup_middle by done. simpl.
      edestruct IH as (gp' & w' & Hrun & Hgp & Hd' & Hio); [done| | |].
      3: { exists gp', w'. split; [exact Hrun|]. split; [exact Hgp|]. 
           split; [exact Hd'|]. exact Hio. }
      * simpl. rewrite !lookup_app_l; [done|..].
        -- by eapply lookup_lt_Some.
        -- rewrite length_app. apply lookup_lt_Some in Hd. lia.
      * simpl. rewrite list_lookup_middle; [done|]. by rewrite length_app.
    + unfold ret. by apply IH.
Qed.

Lemma get_gene_data_run w data col genes d i :
  heap w !! data = Some d ->
  index_of col (columns d) = Some i ->
  exists r w',
    get_gene_data data col genes w = (Ok r, w')
    /\ heap w' !! r = Some (gene_data_frame d i genes)
    /\ same_io w w'.
Proof.
  intros Hd Hcol. unfold get_gene_data.
  unfold bind at 1. unfold new_frame at 1.
  unfold bind at 1. erewrite load_run by (by apply lookup_new_frame_old).
  unfold bind at 1. unfold getitem at 1. unfold bind at 1. rewrite Hcol. simpl.
  unfold bind at 1.
  edestruct (gene_loop_run data col genes d i (map (cell i) (rows d)))
    as (gp' & w' & Hrun & Hgp & Hd' & Hio); [exact Hcol| | |].
  3: { rewrite Hrun. run_steps. rewrite Hgp. simpl.
       exists gp', (set_heap
         (<[gp':=drop_duplicates (fold_left (gather d i genes) (map (cell i) (rows d)) empty_frame)]> (heap w')) w').
       split; [done|]. split; [|exact Hio].
       simpl. apply list_lookup_insert_eq. by eapply lookup_lt_Some. }
  - by apply lookup_new_frame_old.
  - apply lookup_new_frame_new.
Qed.

(** Where the list holds no missing value, Python's [x in xs] is
    membership by [==], and no missing cell is in the list. *)
Lemma py_in_elem x xs : NaN ∉ xs -> (py_in x xs = true <-> x ∈ xs).
Proof.
  intros Hn. rewrite py_in_spec. split; [by intros [_ ?]|].
  intros Hx. split; [|done]. destruct x; [done|done..].
Qed.



(** ** Value counts and sorting *)

Lemma insert_by_perm {A} (key : A -> list value) desc x (l : list A) :
  insert_by key desc x l ≡ₚ x :: l.
Proof.
  induction l as [|y l IH]; simpl; [done|].
  destruct (goes_before desc (key y) (key x)); [|done].
  rewrite IH. apply Permutation_swap.
Qed.

Lemma sort_by_perm {A} (key : A -> list value) desc (l : list A) :
  sort_by key desc l ≡ₚ l.
Proof.
  unfold sort_by.
  assert (forall acc, fold_left (fun acc x => insert_by key desc x acc) l acc ≡ₚ acc ++ l)
    as H.
  { induction l as [|x l IH]; intros acc; simpl.
    - by rewrite app_nil_r.
    - rewrite IH, insert_by_perm. apply Permutation_middle. }
  by rewrite H.
Qed.

Lemma count_of_count_into x y acc :
  count_of y (count_into x acc)
  = if bool_decide (y = x) then Some (S (default 0%nat (count_of x acc)))
    else count_of y acc.
Proof.
  induction acc as [|[z c] acc IH]; simpl.
  - by repeat case_bool_decide.
  - repeat (case_bool_decide; simpl; subst); try done; try congruence.
    all: rewrite IH; by (rewrite bool_decide_eq_true_2 || rewrite bool_decide_eq_false_2).
Qed.

Lemma keys_count_into x acc :
  NoDup (map fst acc) -> NoDup (map fst (count_into x acc)).
Proof.
  induction acc as [|[z c] acc IH]; simpl; intros Hnd.
  - apply NoDup_singleton.
  - apply NoDup_cons in Hnd as [Hz Hnd]. case_bool_decide; simpl.
    + by apply NoDup_cons.
    + apply NoDup_cons. split; [|by apply IH].
      intros Hin. apply Hz. clear -Hin H.
      induction acc as [|[u k] acc IH]; simpl in *.
      * apply list_elem_of_singleton in Hin. congruence.
      * case_bool_decide; simpl in *.
        -- done.
        -- apply elem_of_cons in Hin as [->|Hin]; [left|right; by apply IH].
Qed.

Lemma occurrences_cons x y l :
  occurrences x (y :: l)
  = ((if bool_decide (y = x) then 1 else 0) + occurrences x l)%nat.
Proof. unfold occurrences. simpl. by case_bool_decide. Qed.

Lemma fold_counts x l : forall acc,
  count_of x (fold_left (fun acc x => if isnull x then acc else count_into x acc) l acc)
  = if isnull x then count_of x acc
    else match occurrences x l with
         | O => count_of x acc
         | S k => Some (S k + default 0 (count_of x acc))%nat
         end.
Proof.
  induction l as [|y l IH]; intros acc; simpl.
  - by destruct (isnull x).
  - rewrite IH, occurrences_cons. destruct (isnull x) eqn:Hx.
    + destruct (isnull y) eqn:Hy; [done|]. rewrite count_of_count_into.
      case_bool_decide; [congruence|done].
    + destruct (isnull y) eqn:Hy.
      * case_bool_decide; [congruence|done].
      * rewrite count_of_count_into. destruct (decide (x = y)) as [<-|Hne].
        -- rewrite !bool_decide_eq_true_2 by done. simpl.
           destruct (occurrences x l); simpl; f_equal; lia.
        -- rewrite (bool_decide_eq_false_2 (x = y)) by done.
           by rewrite (bool_decide_eq_false_2 (y = x)) by congruence.
Qed.

Lemma value_counts_unsorted_count_of x l :
  count_of x (value_counts_unsorted l)
  = if isnull x then None
    else match occurrences x l with O => None | S k => Some (S k) end.
Proof.
  unfold value_counts_unsorted. rewrite fold_counts. simpl.
  destruct (isnull x); [done|]. destruct (occurrences x l); [done|].
  f_equal. lia.
Qed.

Lemma value_counts_unsorted_keys l : NoDup (map fst (value_counts_unsorted l)).
Proof.
  unfold value_counts_unsorted.
  assert (forall acc, NoDup (map fst acc) ->
    NoDup (map fst (fold_left
      (fun acc x => if isnull x then acc else count_into x acc) l acc))) as H.
  { induction l as [|y l IH]; intros acc Hacc; simpl; [done|].
    apply IH. destruct (isnull y); [done|]. by apply keys_count_into. }
  apply H. constructor.
Qed.

Lemma count_of_elem x c vc :
  NoDup (map fst vc) -> ((x, c) ∈ vc <-> count_of x vc = Some c).
Proof.
  induction vc as [|[y k] vc IH]; simpl; intros Hnd.
  - split; [by intros ?%elem_of_nil|done].
  - apply NoDup_cons in Hnd as [Hy Hnd]. rewrite elem_of_cons.
    case_bool_decide as E; subst.
    + split; [|intros [= ->]; by left].
      intros [[= ->]|Hin]; [done|]. destruct Hy.
      apply list_elem_of_fmap. by exists (y, c).
    + rewrite <- (IH Hnd). split; [|by right].
      intros [[= -> ->]|Hin]; [done|done].
Qed.

Lemma occurrences_pos x l : (0 < occurrences x l)%nat <-> x ∈ l.
Proof.
  induction l as [|y l IH].
  - split; [inversion 1|by intros ?%elem_of_nil].
  - rewrite occurrences_cons, elem_of_cons. case_bool_decide; subst.
    + split; [by left|lia].
    + rewrite <- IH. split; [intros; right; lia|intros [?|?]; [congruence|lia]].
Qed.

(** A value and its count are listed by [value_counts] exactly when the
    value is present in the column, and the count is its number of
    occurrences. *)
Lemma value_counts_elem x c col :
  (x, c) ∈ value_counts col
  <-> isnull x = false /\ x ∈ col /\ c = occurrences x col.
Proof.
  unfold value_counts. rewrite sort_by_perm.
  rewrite count_of_elem by apply value_counts_unsorted_keys.
  rewrite value_counts_unsorted_count_of, <- occurrences_pos.
  destruct (isnull x); [by split; [|intros [? _]]|].
  destruct (occurrences x col) eqn:E.
  - split; [done|]. intros (_ & ? & _). lia.
  - split; [intros [= <-]|intros (_ & _ & ->)]; [|done]. repeat split; lia.
Qed.

Lemma value_counts_keys col : NoDup (map fst (value_counts col)).
Proof.
  unfold value_counts. apply NoDup_ListNoDup.
  eapply Permutation_NoDup;
    [|apply NoDup_ListNoDup, (value_counts_unsorted_keys col)].
  symmetry. apply Permutation_map, sort_by_perm.
Qed.

Lemma filter_keys_NoDup {A B} (f : A * B -> bool) (l : list (A * B)) :
  NoDup (map fst l) -> NoDup (map fst (List.filter f l)).
Proof.
  induction l as [|x l IH]; simpl; intros Hnd; [done|].
  apply NoDup_cons in Hnd as [Hx Hnd]. destruct (f x); simpl; [|by apply IH].
  apply NoDup_cons. split; [|by apply IH]. intros Hin. apply Hx.
  apply list_elem_of_fmap in Hin as (y & -> & Hy). apply list_elem_of_fmap.
  exists y. split; [done|]. apply list_elem_of_In in Hy.
  apply filter_In in Hy as [Hy _]. by apply list_elem_of_In.
Qed.

(** ** [get_hi_GOs] *)

Lemma binary_round_aux_sign mx ex lx :
  match binary_round_aux 53 1024 false mx ex lx with
  | S754_finite s _ _ => s = false
  | _ => True
  end.
Proof.
  unfold binary_round_aux. destruct (shr_fexp 53 1024 mx ex lx) as [mrs e].
  destruct (shr_fexp 53 1024 _ e loc_Exact) as [mrs' e'].
  destruct (shr_m mrs'); [done| |done]. by destruct (Z.leb _ _).
Qed.

Lemma threshold_nonneg n thr : threshold n = Some thr -> (0 <= thr)%Z.
Proof.
  unfold threshold, float_mul, float_of_nat, binary_normalize.
  destruct (Z.of_nat n) as [|p|p] eqn:E; [| |lia].
  - simpl. by intros [= <-].
  - unfold binary_round. destruct (shl_align _ _ _) as [mz ez].
    pose proof (binary_round_aux_sign (Z.pos mz) ez loc_Exact) as Hs.
    destruct (binary_round_aux 53 1024 false (Z.pos mz) ez loc_Exact)
      as [s|s| |s m e]; simpl; try done.
    + destruct s; simpl; by intros [= <-].
    + subst s. unfold float_0_10.
      pose proof (binary_round_aux_sign (Z.pos (m * 7205759403792794)) (e + -56) loc_Exact) as Hs.
      cbn [xorb].
      destruct (binary_round_aux 53 1024 false _ _ loc_Exact) as [s|s| |s m' e'];
        simpl; try done.
      * by intros [= <-].
      * subst s. intros [= <-]. simpl. apply Z.shiftl_nonneg. lia.
Qed.

Lemma threshold_small n : (n <= 1)%nat -> threshold n = Some 0%Z.
Proof.
  intros H. destruct n as [|[|n]]; [by vm_compute..|lia].
Qed.

Lemma get_hi_GOs_run w gs d i thr :
  heap w !! gs = Some d ->
  index_of "GO_ID" (columns d) = Some i ->
  threshold (length (rows d)) = Some thr ->
  (1 < length (rows d))%nat ->
  let hi := map fst (List.filter (fun vc => (thr <? Z.of_nat vc.2)%Z)
                                 (value_counts (iloc_col d i))) in
  get_hi_GOs gs w
  = match hi with
    | [] => (Ok None, set_stdout (stdout w ++ ["No enriched functions found."]) w)
    | _ => (Ok (Some hi), w)
    end.
Proof.
  intros Hd Hcol Hthr Hn hi. unfold get_hi_GOs. run_steps.
  rewrite Hd, Hthr. simpl. rewrite Hd. 
  apply Nat.ltb_lt in Hn. rewrite Hn, Hd, Hcol. simpl.
  rewrite Hd, Hcol. simpl. rewrite np_mask_map. fold (iloc_col d i). fold hi.
  by destruct hi.
Qed.

Lemma hi_GO_ids_elem thr col id :
  (0 <= thr)%Z ->
  id ∈ map fst (List.filter (fun vc => (thr <? Z.of_nat vc.2)%Z) (value_counts col))
  <-> isnull id = false /\ (thr < Z.of_nat (occurrences id col))%Z.
Proof.
  intros Hthr. rewrite list_elem_of_fmap. split.
  - intros ([x c] & -> & Hin). apply list_elem_of_In, filter_In in Hin as [Hin Hc].
    apply list_elem_of_In, value_counts_elem in Hin as (Hx & _ & ->).
    simpl in *. split; [done|]. by apply Z.ltb_lt.
  - intros [Hx Hc]. exists (id, occurrences id col). split; [done|].
    apply list_elem_of_In, filter_In. split; [|by apply Z.ltb_lt].
    apply list_elem_of_In, value_counts_elem. split; [done|]. split; [|done].
    apply occurrences_pos. lia.
Qed.

Lemma quotients_by_ten_spec fuel : forall z0 z,
  quotients_by_ten fuel z0 = true ->
  (z0 <= z < z0 + Z.of_nat fuel)%Z ->
  threshold_of_Z z = Some (z / 10)%Z.
Proof.
  induction fuel as [|fuel IH]; intros z0 z H Hz; [lia|].
  cbn [quotients_by_ten] in H.
  destruct (threshold_of_Z z0) as [t|] eqn:Ht; [|done].
  apply andb_true_iff in H as [Hq H]. apply Z.eqb_eq in Hq. subst t.
  destruct (decide (z = z0)) as [->|Hne]; [done|].
  apply (IH (z0 + 1)%Z); [done|lia].
Qed.

Lemma quotients_by_ten_up_to_a_hundred_thousand :
  quotients_by_ten (Z.to_nat 100001) 0 = true.
Proof. vm_compute. reflexivity. Qed.

(** Up to a hundred thousand rows, [int(n * 0.10)] in binary64 arithmetic
    is the integer quotient of [n] by ten. *)
Lemma threshold_quotient n :
  (Z.of_nat n <= 100000)%Z -> threshold n = Some (Z.of_nat n / 10)%Z.
Proof.
  intros Hn. change (threshold n) with (threshold_of_Z (Z.of_nat n)).
  apply (quotients_by_ten_spec _ 0 _ quotients_by_ten_up_to_a_hundred_thousand).
  lia.
Qed.

(** C2.  On a gene set of more than one row, [get_hi_GOs] lets through
    exactly the GO IDs whose number of occurrences in the [GO_ID] column is
    strictly greater than [int(0.10 * number of rows)], each once; when
    there is none it returns None.  That threshold is the integer quotient
    of the number of rows by ten, a tenth of the rows rounded down, on
    every gene set of up to a hundred thousand rows. *)
Theorem get_hi_GOs_keeps_counts_above_threshold (w : world) (GO_gene_set : ref)
    (d : DataFrame) (i : nat) (thr : Z) :
  heap w !! GO_gene_set = Some d ->
  index_of "GO_ID" (columns d) = Some i ->
  (1 < length (rows d))%nat ->
  threshold (length (rows d)) = Some thr ->
  exists (res : option (list value)) (w' : world),
    get_hi_GOs GO_gene_set w = (Ok res, w')
    /\ ((Z.of_nat (length (rows d)) <= 100000)%Z ->
        thr = (Z.of_nat (length (rows d)) / 10)%Z)
    /\ (forall id, id ∈ default [] res
          <-> id <> NaN
              /\ (thr < Z.of_nat (length (List.filter (fun v => bool_decide (v = id))
                                                      (iloc_col d i))))%Z)
    /\ NoDup (default [] res)
    /\ (res = None <-> forall id, id <> NaN ->
          ~ (thr < Z.of_nat (length (List.filter (fun v => bool_decide (v = id))
                                                 (iloc_col d i))))%Z).
Proof.
  intros Hd Hcol Hn Hthr.
  pose proof (get_hi_GOs_run w GO_gene_set d i thr Hd Hcol Hthr Hn) as Hrun.
  assert (forall id, id <> NaN <-> isnull id = false) as Hnull.
  { intros [|s|q]; split; done. }
  assert (forall id,
    id ∈ map fst (List.filter (fun vc : value * nat => (thr <? Z.of_nat vc.2)%Z)
                              (value_counts (iloc_col d i)))
    <-> id <> NaN /\ (thr < Z.of_nat (occurrences id (iloc_col d i)))%Z) as Hel.
  { intros id. rewrite Hnull. apply hi_GO_ids_elem. by eapply threshold_nonneg. }
  pose proof (filter_keys_NoDup (fun vc : value * nat => (thr <? Z.of_nat vc.2)%Z)
                (value_counts (iloc_col d i)) (value_counts_keys _)) as Hnd.
  assert ((Z.of_nat (length (rows d)) <= 100000)%Z ->
          thr = (Z.of_nat (length (rows d)) / 10)%Z) as Htie.
  { intros Hle. rewrite (threshold_quotient _ Hle) in Hthr. congruence. }
  cbv zeta in Hrun. fold (occurrences) in *.
  destruct (map fst (List.filter (fun vc => (thr <? Z.of_nat vc.2)%Z)
                       (value_counts (iloc_col d i)))) as [|x hi] eqn:E.
  - eexists None, _. split; [exact Hrun|]. split; [exact Htie|].
    split; [|split; [constructor|]].
    + intros id. by rewrite <- (Hel id).
    + split; [|done]. intros _ id Hid Hc.
      assert (id ∈ []) as Hin%elem_of_nil; [|done]. by apply Hel.
  - eexists (Some (x :: hi)), _. split; [exact Hrun|]. split; [exact Htie|].
    split; [|split; [done|]].
    + intros id. by rewrite <- (Hel id).
    + split; [done|]. intros Hno. exfalso.
      assert (x ∈ x :: hi) as Hx by left.
      apply Hel in Hx as [Hx1 Hx2]. by apply (Hno x).
Qed.

Lemma get_hi_GOs_few_rows w gs d :
  heap w !! gs = Some d ->
  (length (rows d) <= 1)%nat ->
  get_hi_GOs gs w
  = (Ok None, set_stdout (stdout w ++ ["No enriched functions found."]) w).
Proof.
  intros Hd Hn. unfold get_hi_GOs. run_steps.
  rewrite Hd, (threshold_small _ Hn). simpl. rewrite Hd.
  by rewrite (proj2 (Nat.ltb_ge 1 (length (rows d)))) by lia.
Qed.

Lemma get_hyper_test_p_value_nothing_to_test w go gs hi :
  hi = None \/ hi = Some [] ->
  get_hyper_test_p_value go gs hi w
  = (Ok None, set_stdout (stdout w ++ ["Enrichment test did not run."]) w).
Proof. by intros [->| ->]. Qed.

(** C4.  When the gene set has at most one row, or none of its GO IDs
    occurs more often than the threshold, [get_hi_GOs] prints
    'No enriched functions found.' and returns None, raising nothing.
    When its list of GO IDs is None or empty, [get_hyper_test_p_value]
    prints 'Enrichment test did not run.' and returns None. *)
Theorem no_enriched_GOs_prints_and_returns_None (w : world) (GO_gene_set : ref)
    (d : DataFrame) :
  heap w !! GO_gene_set = Some d ->
  ((length (rows d) <= 1)%nat ->
   get_hi_GOs GO_gene_set w
   = (Ok None, set_stdout (stdout w ++ ["No enriched functions found."]) w))
  /\ (forall i thr,
        (1 < length (rows d))%nat ->
        index_of "GO_ID" (columns d) = Some i ->
        threshold (length (rows d)) = Some thr ->
        (forall id, isnull id = false ->
                    ~ (thr < Z.of_nat (occurrences id (iloc_col d i)))%Z) ->
        get_hi_GOs GO_gene_set w
        = (Ok None, set_stdout (stdout w ++ ["No enriched functions found."]) w))
  /\ (forall gene_ontology_data hi_GO_ids,
        hi_GO_ids = None \/ hi_GO_ids = Some [] ->
        get_hyper_test_p_value gene_ontology_data GO_gene_set hi_GO_ids w
        = (Ok None, set_stdout (stdout w ++ ["Enrichment test did not run."]) w)).
Proof.
  intros Hd. split; [|split].
  - by apply get_hi_GOs_few_rows.
  - intros i thr Hn Hcol Hthr Hno.
    pose proof (get_hi_GOs_run w GO_gene_set d i thr Hd Hcol Hthr Hn) as Hrun.
    cbv zeta in Hrun.
    destruct (map fst (List.filter (fun vc => (thr <? Z.of_nat vc.2)%Z)
                         (value_counts (iloc_col d i)))) as [|x hi] eqn:E; [done|].
    exfalso.
    assert (x ∈ x :: hi) as Hx by left. rewrite <- E in Hx.
    apply hi_GO_ids_elem in Hx as [Hx1 Hx2]; [|by eapply threshold_nonneg].
    by apply (Hno x).
  - intros go hi Hhi. by apply get_hyper_test_p_value_nothing_to_test.
Qed.

Lemma occurrences_NoDup x l : NoDup l -> (occurrences x l <= 1)%nat.
Proof.
  induction 1 as [|y l Hy Hnd IH]; [unfold occurrences; simpl; lia|].
  rewrite occurrences_cons. case_bool_decide; [subst|lia].
  assert (occurrences x l = 0)%nat; [|lia].
  destruct (occurrences x l) eqn:E; [done|]. destruct Hy.
  apply occurrences_pos. lia.
Qed.

(** ** [get_hyper_test_p_value] *)

Lemma masked_zip {A B C} (f : B -> bool) (g : A -> B -> C) (xs : list A) :
  forall ys : list B,
  zip_with g (np_mask xs (map f ys)) (np_mask ys (map f ys))
  = map (fun ab => g ab.1 ab.2) (List.filter (fun ab => f ab.2) (zip xs ys)).
Proof.
  induction xs as [|x xs IH]; intros [|y ys]; simpl; try done.
  destruct (f y); simpl; by rewrite IH.
Qed.

Lemma count_of_present id col :
  isnull id = false -> id ∈ col ->
  count_of id (value_counts_unsorted col) = Some (occurrences id col).
Proof.
  intros Hn Hin. rewrite value_counts_unsorted_count_of, Hn.
  apply occurrences_pos in Hin. by destruct (occurrences id col); [lia|].
Qed.

Lemma below_0_05_spec p : below_0_05 p = true <-> (p < 5 # 100)%Q.
Proof.
  unfold below_0_05. rewrite Qlt_alt.
  destruct (p ?= 5 # 100)%Q; split; congruence.
Qed.

Lemma significant_elem ids pv id p :
  (id, p) ∈ significant ids pv <-> (id, p) ∈ zip ids pv /\ (p < 5 # 100)%Q.
Proof.
  unfold significant. rewrite list_elem_of_In, filter_In, <- list_elem_of_In.
  simpl. by rewrite below_0_05_spec.
Qed.

Lemma join_rows_elem i j l r row :
  row ∈ join_rows i j l r
  <-> exists lr rr, lr ∈ l /\ rr ∈ r /\ cell j rr = cell i lr
                    /\ row = lr ++ remove_at j rr.
Proof.
  unfold join_rows. rewrite list_elem_of_In, in_flat_map. split.
  - intros (lr & Hlr & Hrow). apply in_map_iff in Hrow as (rr & <- & Hrr).
    apply filter_In in Hrr as [Hrr He]. apply bool_decide_eq_true in He.
    exists lr, rr. by rewrite !list_elem_of_In.
  - intros (lr & rr & Hlr & Hrr & He & ->). exists lr.
    split; [by apply list_elem_of_In|]. apply in_map_iff. exists rr.
    split; [done|]. apply filter_In. split; [by apply list_elem_of_In|].
    by apply bool_decide_eq_true.
Qed.

Section PValueLoop.

Variables (gene_ontology_data GO_gene_set : ref) (dgo dgs : DataFrame) (i j : nat).
Variables (n M_ : nat).
Hypothesis Hi : index_of "GO_ID" (columns dgs) = Some i.
Hypothesis Hj : index_of "GO_ID" (columns dgo) = Some j.

Lemma p_val_loop_run ids : forall off pv w,
  heap w !! GO_gene_set = Some dgs ->
  heap w !! gene_ontology_data = Some dgo ->
  (forall id, id ∈ ids ->
     isnull id = false /\ id ∈ iloc_col dgs i /\ id ∈ iloc_col dgo j) ->
  (off + length ids <= length pv)%nat ->
  for_each (enumerate_from off ids) (fun '(i, hi_GO) p_vals =>
      gs <- load GO_gene_set ;;
      GO_ID <- getitem gs "GO_ID" ;;
      w <- lift_option (count_of hi_GO (value_counts_unsorted GO_ID))
                       (KeyError hi_GO) ;;
      gs <- load GO_gene_set ;;
      let b := (length (rows gs) - w)%nat in
      go <- load gene_ontology_data ;;
      GO_ID <- getitem go "GO_ID" ;;
      w_genome <- lift_option (count_of hi_GO (value_counts_unsorted GO_ID))
                              (KeyError hi_GO) ;;
      go <- load gene_ontology_data ;;
      let b_genome := (length (rows go) - w_genome)%nat in
      hypergeom_pmfs <- np_empty (n - w + 1) ;;
      let pmfs := map (fun k => hypergeom_pmf k M_ w_genome n)
                      (seq w (n + 1 - w)) in
      let p_val := np_sum hypergeom_pmfs in
      ret (<[i := p_val]> p_vals)) pv w
  = (Ok (take off pv
         ++ buffer_sums (junk w)
              (map (fun id => (n - occurrences id (iloc_col dgs i) + 1)%nat) ids)
         ++ drop (off + length ids) pv),
     set_junk (junk_after_all (junk w)
                 (map (fun id => (n - occurrences id (iloc_col dgs i) + 1)%nat) ids)) w).
Proof.
  induction ids as [|id ids IH]; intros off pv w Hgs Hgo Hids Hlen; simpl.
  - rewrite Nat.add_0_r, take_drop. by destruct w.
  - destruct (Hids id) as (Hn & Hin1 & Hin2); [left|].
    unfold bind at 1. run_steps. rewrite Hgs, Hi. simpl.
    fold (iloc_col dgs i). rewrite (count_of_present _ _ Hn Hin1). simpl.
    rewrite Hgs, Hgo, Hj. simpl.
    fold (iloc_col dgo j). rewrite (count_of_present _ _ Hn Hin2). simpl.
    rewrite Hgo. unfold np_empty. simpl.
    rewrite IH; simpl; [| done | done | | ].
    + f_equal. f_equal.
      replace (off + S (length ids))%nat with (S off + length ids)%nat by lia.
      rewrite drop_insert_lt by lia.
      rewrite (take_S_r _ _ (np_sum (map (junk w)
                 (seq 0 (n - occurrences id (iloc_col dgs i) + 1))))).
      * rewrite take_insert_ge by lia. by rewrite <- app_assoc.
      * apply list_lookup_insert_eq. simpl in Hlen. lia.
    + intros id' Hid'. apply Hids. by right.
    + rewrite length_insert. simpl in Hlen. lia.
Qed.

End PValueLoop.

Lemma index_of_GO_summary : index_of "GO_ID" ["GO_ID"; "p_val"] = Some 0%nat.
Proof. reflexivity. Qed.

Lemma pd_merge_run w l r dl dr key m :
  heap w !! l = Some dl -> heap w !! r = Some dr ->
  merge_frames dl dr key = Some m ->
  pd_merge l r key w = (Ok (length (heap w)), set_heap (heap w ++ [m]) w).
Proof.
  intros Hl Hr Hm. unfold pd_merge, bind. rewrite (load_run _ _ _ Hl).
  by rewrite (load_run _ _ _ Hr), Hm.
Qed.

Lemma get_hyper_test_p_value_run w go gs dgo dgs i j ids :
  heap w !! gs = Some dgs ->
  heap w !! go = Some dgo ->
  index_of "GO_ID" (columns dgs) = Some i ->
  index_of "GO_ID" (columns dgo) = Some j ->
  ids <> [] ->
  (forall id, id ∈ ids ->
     isnull id = false /\ id ∈ iloc_col dgs i /\ id ∈ iloc_col dgo j) ->
  let pv := computed_p_vals (junk w) dgs i ids in
  let merged :=
    mkDataFrame (merged_labels ["GO_ID"; "p_val"] (columns dgs) "GO_ID")
      ([object_; float64] ++ remove_at i (dtypes dgs))
      (join_rows 0 i (rows (GO_summary_frame ids pv)) (rows dgs)) in
  get_hyper_test_p_value go gs (Some ids) w
  = (Ok (Some (S (length (heap w)))),
     set_stdout (stdout w ++ ["Enrichment test ran succesfully!"])
       (set_heap (heap w ++ [GO_summary_frame ids pv; merged])
          (set_junk (junk_after_all (junk_after (junk w) (length ids))
                       (buffer_sizes dgs i ids)) w))).
Proof.
  intros Hgs Hgo Hi Hj Hne Hids pv merged. unfold get_hyper_test_p_value.
  replace (0 <? length ids)%nat with true by (by destruct ids). cbv beta iota.
  unfold bind at 1. rewrite (load_run _ _ _ Hgs). cbv beta iota.
  unfold bind at 1. rewrite (load_run _ _ _ Hgo). cbv beta iota.
  unfold bind at 1. unfold np_empty at 1. cbv beta iota.
  unfold bind at 1. unfold enumerate.
  rewrite (p_val_loop_run go gs dgo dgs i j (length (rows dgs)) (length (rows dgo)) Hi Hj).
  2-4: done.
  2: { rewrite length_map, length_seq. simpl. lia. }
  cbv beta iota.
  rewrite take_0, drop_ge by (rewrite length_map, length_seq; simpl; lia).
  rewrite app_nil_l, app_nil_r. cbn [junk set_junk].
  fold (buffer_sizes dgs i ids). fold (computed_p_vals (junk w) dgs i ids). fold pv.
  rewrite masked_zip. fold (significant ids pv). fold (GO_summary_frame ids pv).
  unfold bind at 1. unfold new_frame at 1. cbv beta iota.
  unfold bind at 1.
  erewrite pd_merge_run;
    [|apply lookup_new_frame_new|apply lookup_new_frame_old; exact Hgs|].
  2: { unfold merge_frames. cbn [columns GO_summary_frame].
       rewrite index_of_GO_summary, Hi. reflexivity. }
  fold merged. cbv beta iota.
  unfold bind, new_frame, print, ret.
  cbn [heap stdout files shell junk set_heap set_stdout set_junk].
  rewrite length_app, <- app_assoc. cbn [length app]. by rewrite Nat.add_1_r.
Qed.

Lemma lookup_second_new {A} (h : list A) a b :
  (h ++ [a; b]) !! S (length h) = Some b.
Proof.
  rewrite lookup_app_r by lia.
  by replace (S (length h) - length h)%nat with 1%nat by lia.
Qed.

(** *** The cut on doubles *)

Section Binary64Props.

Variable np_sum : list spec_float -> spec_float.
Variable hypergeom_pmf : nat -> nat -> nat -> nat -> spec_float.
Variable memory : nat -> spec_float.

Variables (gene_ontology_data GO_gene_set : ref) (dgo dgs : DataFrame) (i j : nat).
Variables (n M_ : nat).
Hypothesis Hi : index_of "GO_ID" (columns dgs) = Some i.
Hypothesis Hj : index_of "GO_ID" (columns dgo) = Some j.

Lemma float_p_val_loop_run ids : forall off pv next w,
  heap w !! GO_gene_set = Some dgs ->
  heap w !! gene_ontology_data = Some dgo ->
  (forall id, id ∈ ids ->
     isnull id = false /\ id ∈ iloc_col dgs i /\ id ∈ iloc_col dgo j) ->
  (off + length ids <= length pv)%nat ->
  for_each (enumerate_from off ids) (fun '(i, hi_GO) '(p_vals, next) =>
      gs <- load GO_gene_set ;;
      GO_ID <- getitem gs "GO_ID" ;;
      w <- lift_option (count_of hi_GO (value_counts_unsorted GO_ID))
                       (KeyError hi_GO) ;;
      gs <- load GO_gene_set ;;
      let b := (length (rows gs) - w)%nat in
      go <- load gene_ontology_data ;;
      GO_ID <- getitem go "GO_ID" ;;
      w_genome <- lift_option (count_of hi_GO (value_counts_unsorted GO_ID))
                              (KeyError hi_GO) ;;
      go <- load gene_ontology_data ;;
      let b_genome := (length (rows go) - w_genome)%nat in
      let hypergeom_pmfs := Binary64.np_empty memory next (n - w + 1) in
      let pmfs := map (fun k => hypergeom_pmf k M_ w_genome n)
                      (seq w (n + 1 - w)) in
      let p_val := np_sum hypergeom_pmfs in
      ret (<[i := p_val]> p_vals, (next + (n - w + 1))%nat)) (pv, next) w
  = (Ok (take off pv
         ++ map np_sum
              (Binary64.buffers memory next
                 (map (fun id => (n - occurrences id (iloc_col dgs i) + 1)%nat) ids))
         ++ drop (off + length ids) pv,
         (next + list_sum
                   (map (fun id => (n - occurrences id (iloc_col dgs i) + 1)%nat)
                        ids))%nat), w).
Proof.
  induction ids as [|id ids IH]; intros off pv next w Hgs Hgo Hids Hlen; simpl.
  - unfold ret. by rewrite !Nat.add_0_r, take_drop.
  - destruct (Hids id) as (Hn & Hin1 & Hin2); [left|].
    unfold bind at 1. run_steps. rewrite Hgs, Hi. simpl.
    fold (iloc_col dgs i). rewrite (count_of_present _ _ Hn Hin1). simpl.
    rewrite Hgs, Hgo, Hj. simpl.
    fold (iloc_col dgo j). rewrite (count_of_present _ _ Hn Hin2). simpl.
    rewrite Hgo. simpl.
    rewrite IH; simpl; [| done | done | | ].
    + f_equal. f_equal. f_equal; [|lia].
      replace (off + S (length ids))%nat with (S off + length ids)%nat by lia.
      rewrite drop_insert_lt by lia.
      rewrite (take_S_r _ _ (np_sum (Binary64.np_empty memory next
                 (n - occurrences id (iloc_col dgs i) + 1)))).
      * rewrite take_insert_ge by lia. by rewrite <- app_assoc.
      * apply list_lookup_insert_eq. cbn [length] in Hlen. lia.
    + intros id' Hid'. apply Hids. by right.
    + rewrite length_insert. cbn [length] in Hlen. lia.
Qed.

End Binary64Props.

Lemma occurrences_as_filter id (gs : DataFrame) i :
  occurrences id (iloc_col gs i)
  = length (List.filter (fun v => bool_decide (v = id))
                        (map (fun row => nth i row NaN) (rows gs))).
Proof. reflexivity. Qed.

Lemma float_get_hyper_test_p_value_run np_sum hypergeom_pmf memory
    w go gs dgo dgs i j ids :
  heap w !! gs = Some dgs ->
  heap w !! go = Some dgo ->
  index_of "GO_ID" (columns dgs) = Some i ->
  index_of "GO_ID" (columns dgo) = Some j ->
  ids <> [] ->
  (forall id, id ∈ ids ->
     isnull id = false /\ id ∈ iloc_col dgs i /\ id ∈ iloc_col dgo j) ->
  let pv := Binary64.computed_p_vals np_sum memory dgs i ids in
  let kept := List.filter (fun ip : value * spec_float =>
                             SFltb ip.2 Binary64.float_0_05) (zip ids pv) in
  let left := mkDataFrame ["GO_ID"; "p_val"] [object_; float64]
                (map (fun ip => [ip.1; Binary64.float_cell ip.2]) kept) in
  let merged :=
    mkDataFrame (merged_labels ["GO_ID"; "p_val"] (columns dgs) "GO_ID")
      ([object_; float64] ++ remove_at i (dtypes dgs))
      (join_rows 0 i (rows left) (rows dgs)) in
  Binary64.get_hyper_test_p_value np_sum hypergeom_pmf memory go gs (Some ids) w
  = (Ok (Some (S (length (heap w)))),
     set_stdout (stdout w ++ ["Enrichment test ran succesfully!"])
       (set_heap (heap w ++ [left; merged]) w)).
Proof.
  intros Hgs Hgo Hi Hj Hne Hids pv kept left merged.
  unfold Binary64.get_hyper_test_p_value.
  replace (0 <? length ids)%nat with true by (by destruct ids). cbv beta iota.
  unfold bind at 1. rewrite (load_run _ _ _ Hgs). cbv beta iota.
  unfold bind at 1. rewrite (load_run _ _ _ Hgo). cbv beta iota.
  unfold bind at 1. unfold enumerate.
  rewrite (float_p_val_loop_run np_sum hypergeom_pmf memory go gs dgo dgs i j
             (length (rows dgs)) (length (rows dgo)) Hi Hj).
  2-4: done.
  2: { unfold Binary64.np_empty. rewrite length_map, length_seq. simpl. lia. }
  cbv beta iota. cbn [fst].
  rewrite take_0, drop_ge
    by (unfold Binary64.np_empty; rewrite length_map, length_seq; simpl; lia).
  rewrite app_nil_l, app_nil_r.
  change (map np_sum (Binary64.buffers memory (length ids) _)) with pv.
  rewrite masked_zip. fold kept. fold left.
  unfold bind at 1. unfold new_frame at 1. cbv beta iota.
  unfold bind at 1.
  erewrite pd_merge_run;
    [|apply lookup_new_frame_new|apply lookup_new_frame_old; exact Hgs|].
  2: { unfold merge_frames. cbn [columns left].
       rewrite index_of_GO_summary, Hi. reflexivity. }
  fold merged. cbv beta iota.
  unfold bind, new_frame, print, ret.
  cbn [heap stdout files shell junk set_heap set_stdout set_junk].
  rewrite length_app, <- app_assoc. cbn [length app]. by rewrite Nat.add_1_r.
Qed.

(** C3.  The cut of [get_hyper_test_p_value] compares every computed
    p-value with the fixed level 0.05, whatever the number of GO IDs
    tested: a GO ID is kept exactly when its own p-value, the double the
    sum of its buffer gave, is below the double 0.05 in the IEEE
    comparison (which a NaN never is).  The summary returned is the inner
    merge on [GO_ID] of the kept GO IDs, with their p-values, and the gene
    set: a row for every kept GO ID and every row of the gene set carrying
    it, under the labels [GO_ID], [p_val] and the other labels of the
    gene set when a GO ID is kept.  This is for [hi_GO_ids] an array, as
    [get_hi_GOs] returns it, of strings found in the [GO_ID] column of
    both tables, for tables with distinct labels and no [p_val] column in
    the gene set, and for sums that are doubles other than minus
    infinity. *)
Theorem significance_cut_then_inner_merge
    (np_sum : list spec_float -> spec_float)
    (hypergeom_pmf : nat -> nat -> nat -> nat -> spec_float)
    (memory : nat -> spec_float) (w : world)
    (gene_ontology_data GO_gene_set : ref) (dgo dgs : DataFrame) (i j : nat)
    (hi_GO_ids : list value) :
  heap w !! GO_gene_set = Some dgs ->
  heap w !! gene_ontology_data = Some dgo ->
  NoDup (columns dgs) -> NoDup (columns dgo) ->
  index_of "GO_ID" (columns dgs) = Some i ->
  index_of "GO_ID" (columns dgo) = Some j ->
  "p_val" ∉ columns dgs ->
  hi_GO_ids <> [] ->
  (forall id, id ∈ hi_GO_ids ->
     (exists s, id = Str s)
     /\ id ∈ map (fun row => nth i row NaN) (rows dgs)
     /\ id ∈ map (fun row => nth j row NaN) (rows dgo)) ->
  let p_vals := Binary64.computed_p_vals np_sum memory dgs i hi_GO_ids in
  (forall p, p ∈ p_vals ->
     valid_binary 53 1024 p = true /\ p <> S754_infinity true) ->
  exists (r : ref) (w' : world) (summary : DataFrame),
    Binary64.get_hyper_test_p_value np_sum hypergeom_pmf memory
      gene_ontology_data GO_gene_set (Some hi_GO_ids) w = (Ok (Some r), w')
    /\ heap w' !! r = Some summary
    /\ stdout w' = stdout w ++ ["Enrichment test ran succesfully!"]
    /\ length p_vals = length hi_GO_ids
    /\ (forall row, row ∈ rows summary
          <-> exists k id p gr,
                hi_GO_ids !! k = Some id /\ p_vals !! k = Some p
                /\ SFltb p (S754_finite false 7205759403792794 (-57)) = true
                /\ gr ∈ rows dgs /\ nth i gr NaN = id
                /\ row = [id; Binary64.float_cell p] ++ take i gr ++ drop (S i) gr)
    /\ ((exists p, p ∈ p_vals
                   /\ SFltb p (S754_finite false 7205759403792794 (-57)) = true) ->
        columns summary
        = ["GO_ID"; "p_val"]
          ++ List.filter (fun c => negb (bool_decide (c = "GO_ID"))) (columns dgs)).
Proof.
  intros Hgs Hgo _ _ Hi Hj Hpval Hne Hids p_vals _.
  assert (forall id, id ∈ hi_GO_ids ->
            isnull id = false /\ id ∈ iloc_col dgs i /\ id ∈ iloc_col dgo j)
    as Hids'.
  { intros id Hid. destruct (Hids id Hid) as ([s ->] & H1 & H2). done. }
  pose proof (float_get_hyper_test_p_value_run np_sum hypergeom_pmf memory w
                gene_ontology_data GO_gene_set dgo dgs i j hi_GO_ids Hgs Hgo
                Hi Hj Hne Hids') as Hrun.
  cbv zeta in Hrun. fold p_vals in Hrun.
  assert (length p_vals = length hi_GO_ids) as Hlen.
  { unfold p_vals, Binary64.computed_p_vals. rewrite length_map.
    generalize (length hi_GO_ids) at 1. intros next.
    induction hi_GO_ids as [|id ids IH] in next |- *; cbn; [done|].
    f_equal. apply IH. }
  eexists _, _, _. split; [exact Hrun|].
  split.
  { cbn [heap set_stdout set_heap]. apply lookup_second_new. }
  split; [done|]. split; [done|]. split.
  - intros row. cbn [rows]. rewrite join_rows_elem. split.
    + intros (lr & rr & Hlr & Hrr & He & ->).
      apply list_elem_of_fmap in Hlr as ([id p] & -> & Hsig).
      apply list_elem_of_In, filter_In in Hsig as [Hz Hp].
      apply list_elem_of_In, list_elem_of_lookup in Hz as [k Hk].
      apply lookup_zip_with_Some in Hk as (id' & p' & [= <- <-] & Hk1 & Hk2).
      exists k, id, p, rr. cbn [fst snd] in *. done.
    + intros (k & id & p & gr & Hk1 & Hk2 & Hp & Hgr & He & ->).
      exists [id; Binary64.float_cell p], gr. split; [|done].
      apply list_elem_of_fmap. exists (id, p). split; [done|].
      apply list_elem_of_In, filter_In. split; [|done].
      apply list_elem_of_In, list_elem_of_lookup. exists k.
      apply lookup_zip_with_Some. eauto.
  - intros _. cbn [columns]. unfold merged_labels.
    assert (forall cs : list string,
              (forall c, In c cs -> c <> "GO_ID" /\ c <> "p_val") ->
              map (fun c => if bool_decide (c ∈ ["GO_ID"; "p_val"])
                            then (c ++ "_y")%string else c) cs = cs) as Hsame.
    { intros cs Hcs. rewrite <- (map_id cs) at 2. apply map_ext_in.
      intros c Hc. destruct (Hcs c Hc) as [H1 H2].
      rewrite bool_decide_eq_false_2; [done|].
      intros H. apply list_elem_of_In in H. simpl in H.
      destruct H as [<-|[<-|[]]]; done. }
    rewrite Hsame.
    + cbn [map]. rewrite bool_decide_eq_false_2 by (intros H; by apply H).
      rewrite (bool_decide_eq_true_2 ("p_val" ≠ "GO_ID")) by done.
      rewrite (bool_decide_eq_false_2 ("p_val" ∈ columns dgs)) by done.
      reflexivity.
    + intros c [Hc Hk]%filter_In. apply negb_true_iff in Hk.
      apply bool_decide_eq_false in Hk. split; [done|].
      intros ->. by apply Hpval, list_elem_of_In.
Qed.

(** C1.  Evaluation at a small input.  The annotations hold GO:A twice in
    four rows and the gene set holds it in both of its two rows, so the
    hypergeometric upper tail is 1/6, above the level 0.05.  The function
    computes the probability masses and then sums the buffer it got from
    [np.empty] instead; with that memory holding zeros, it reports GO:A
    with the p-value 0. *)
Theorem get_hyper_test_p_value_sums_uninitialised_buffer :
  let w := world_of [annotations_example; gene_set_example] in
  (get_hyper_test_p_value 0 1 (Some [Str "GO:A"]) w).1 = Ok (Some 3%nat)
  /\ heap (get_hyper_test_p_value 0 1 (Some [Str "GO:A"]) w).2 !! 3%nat
     = Some summary_example
  /\ (upper_tail 2 2 4 2 == 1 # 6)%Q
  /\ below_0_05 (upper_tail 2 2 4 2) = false.
Proof. repeat split; vm_compute; reflexivity. Qed.

(** The p-values the function computes are the sums of the uninitialised
    buffers: they do not depend on the annotations at all. *)
Lemma computed_p_vals_ignore_annotations w go go' gs dgo dgo' dgs i j j' ids :
  heap w !! gs = Some dgs ->
  heap w !! go = Some dgo -> heap w !! go' = Some dgo' ->
  index_of "GO_ID" (columns dgs) = Some i ->
  index_of "GO_ID" (columns dgo) = Some j ->
  index_of "GO_ID" (columns dgo') = Some j' ->
  ids <> [] ->
  (forall id, id ∈ ids -> isnull id = false /\ id ∈ iloc_col dgs i
                          /\ id ∈ iloc_col dgo j /\ id ∈ iloc_col dgo' j') ->
  get_hyper_test_p_value go gs (Some ids) w
  = get_hyper_test_p_value go' gs (Some ids) w.
Proof.
  intros Hgs Hgo Hgo' Hi Hj Hj' Hne Hids.
  rewrite (get_hyper_test_p_value_run w go gs dgo dgs i j ids); try done.
  - rewrite (get_hyper_test_p_value_run w go' gs dgo' dgs i j' ids); try done.
    intros id Hid. by destruct (Hids id Hid) as (? & ? & ? & ?).
  - intros id Hid. by destruct (Hids id Hid) as (? & ? & ? & ?).
Qed.

(** ** [duplicate_columns] and [get_duplicate_columns] *)

(** C9.  [duplicate_columns] and [get_duplicate_columns] return the same
    list of labels, and leave the same state, on every dataframe. *)
Theorem duplicate_columns_get_duplicate_columns (frame : ref) (w : world) :
  duplicate_columns frame w = get_duplicate_columns frame w.
Proof. reflexivity. Qed.

(** ** [get_GO_gene_set] *)

(** C10.  [get_GO_gene_set] gives the same result, and leaves the same
    state, whatever is passed for [gene_ontology_data]: the parameter is
    overwritten with the dataset loaded from the file before it is read. *)
Theorem get_GO_gene_set_ignores_gene_ontology_data (str_of_num : Q -> string)
    (A B : Type) (a : A) (b : B) (test_gene_list : list value) (w : world) :
  get_GO_gene_set str_of_num a test_gene_list w
  = get_GO_gene_set str_of_num b test_gene_list w.
Proof. reflexivity. Qed.

(** ** The store is only ever extended *)

Lemma preserves_refl w : preserves w w.
Proof. by intros r d. Qed.

Lemma preserves_length w0 w : preserves w0 w -> (length (heap w0) <= length (heap w))%nat.
Proof.
  intros H. destruct (decide (length (heap w0) <= length (heap w))%nat) as [|Hn]; [done|].
  destruct (lookup_lt_is_Some_2 (heap w0) (length (heap w))) as [d Hd]; [lia|].
  apply H, lookup_lt_Some in Hd. lia.
Qed.

Lemma safe_ret {A} w0 (a : A) (post : A -> Prop) : post a -> safe w0 (ret a) post.
Proof. intros Hp w Hw. split; [done|]. by intros a' [= <-]. Qed.

Lemma safe_raise {A} w0 e (post : A -> Prop) : safe w0 (raise e) post.
Proof. intros w Hw. by split. Qed.

Lemma safe_bind {A B} w0 (m : M A) (f : A -> M B) (P : A -> Prop) (Q : B -> Prop) :
  safe w0 m P -> (forall a, P a -> safe w0 (f a) Q) -> safe w0 (bind m f) Q.
Proof.
  intros Hm Hf w Hw. unfold bind. specialize (Hm w Hw).
  destruct (m w) as [[a|e] w1]; simpl in Hm; destruct Hm as [H1 H2].
  - by apply (Hf a (H2 a eq_refl) w1).
  - by split.
Qed.

Lemma safe_weaken {A} w0 (m : M A) (P Q : A -> Prop) :
  safe w0 m P -> (forall a, P a -> Q a) -> safe w0 m Q.
Proof. intros Hm HPQ w Hw. destruct (Hm w Hw) as [H1 H2]. split; [done|]. auto. Qed.

Lemma safe_load w0 r : safe w0 (load r) (fun _ => True).
Proof. intros w Hw. unfold load. by destruct (heap w !! r). Qed.

Lemma safe_lift_option {A} w0 (o : option A) e : safe w0 (lift_option o e) (fun _ => True).
Proof. intros w Hw. by destruct o. Qed.

Lemma safe_getitem w0 d c : safe w0 (getitem d c) (fun _ => True).
Proof.
  unfold getitem. eapply safe_bind; [apply safe_lift_option|].
  intros i _. by apply safe_ret.
Qed.

Lemma safe_new_frame w0 d : safe w0 (new_frame d) (fresh w0).
Proof.
  intros w Hw. unfold new_frame. simpl. split.
  - intros r x Hr. apply lookup_new_frame_old. by apply Hw.
  - intros a [= <-]. by apply preserves_length.
Qed.

Lemma safe_store w0 r d : fresh w0 r -> safe w0 (store r d) (fun _ => True).
Proof.
  intros Hr w Hw. unfold store. split; [|done].
  intros r' x Hx. cbn [fst snd heap set_heap].
  rewrite list_lookup_insert_ne; [by apply Hw|].
  apply lookup_lt_Some in Hx. unfold fresh in Hr. lia.
Qed.

Lemma safe_for_each {A S} w0 (xs : list A) (body : A -> S -> M S) (I : S -> Prop) :
  (forall x s, I s -> safe w0 (body x s) I) ->
  forall s, I s -> safe w0 (for_each xs body s) I.
Proof.
  intros Hbody. induction xs as [|x xs IH]; intros s Hs; simpl.
  - by apply safe_ret.
  - eapply safe_bind; [by apply Hbody|]. intros s' Hs'. by apply IH.
Qed.

Lemma safe_pd_concat w0 a b : safe w0 (pd_concat a b) (fresh w0).
Proof.
  unfold pd_concat. eapply safe_bind; [apply safe_load|]. intros da _.
  eapply safe_bind; [apply safe_load|]. intros db _. apply safe_new_frame.
Qed.

Lemma safe_pd_concat_axis1 w0 a b : safe w0 (pd_concat_axis1 a b) (fresh w0).
Proof.
  unfold pd_concat_axis1. eapply safe_bind; [apply safe_load|]. intros da _.
  eapply safe_bind; [apply safe_load|]. intros db _. apply safe_new_frame.
Qed.

Lemma safe_pd_merge w0 l r key : safe w0 (pd_merge l r key) (fresh w0).
Proof.
  unfold pd_merge. eapply safe_bind; [apply safe_load|]. intros dl _.
  eapply safe_bind; [apply safe_load|]. intros dr _.
  eapply safe_bind; [apply safe_lift_option|]. intros d _. apply safe_new_frame.
Qed.

Lemma safe_get_gene_data w0 data col genes :
  safe w0 (get_gene_data data col genes) (fresh w0).
Proof.
  unfold get_gene_data.
  eapply safe_bind; [apply safe_new_frame|]. intros gp Hgp.
  eapply safe_bind; [apply safe_load|]. intros d _.
  eapply safe_bind; [apply safe_getitem|]. intros vals _.
  eapply safe_bind.
  - apply (safe_for_each w0 vals _ (fresh w0)); [|done].
    intros gene g Hg. destruct (py_in gene genes); [|by apply safe_ret].
    eapply safe_bind; [apply safe_load|]. intros d' _.
    eapply safe_bind; [apply safe_getitem|]. intros c _.
    eapply safe_bind; [apply safe_new_frame|]. intros df_ _.
    apply safe_pd_concat.
  - intros gp' Hgp'. eapply safe_bind.
    + unfold drop_duplicates_inplace.
      eapply safe_bind; [apply safe_load|]. intros d' _. by apply safe_store.
    + intros _ _. by apply safe_ret.
Qed.

Lemma safe_get_df_missing_columns w0 data :
  safe w0 (get_df_missing_columns data) (fresh w0).
Proof.
  unfold get_df_missing_columns.
  eapply safe_bind; [apply safe_load|]. intros d _.
  eapply safe_bind; [apply safe_new_frame|]. intros mv _.
  eapply safe_bind; [apply safe_load|]. intros d' _.
  eapply safe_bind; [apply safe_new_frame|]. intros ft _.
  eapply safe_bind; [apply safe_pd_merge|]. intros mc Hmc.
  eapply safe_bind.
  - unfold sort_values_inplace.
    eapply safe_bind; [apply safe_load|]. intros dm _.
    eapply safe_bind; [apply safe_lift_option|]. intros dm' _. by apply safe_store.
  - intros _ _. by apply safe_ret.
Qed.

Lemma safe_find_constant_features w0 data :
  safe w0 (find_constant_features data) (fun _ => True).
Proof.
  unfold find_constant_features.
  eapply safe_bind; [apply safe_load|]. intros d _.
  apply (safe_for_each w0 _ _ (fun _ => True)); [|done].
  intros column cf _.
  eapply safe_bind; [apply safe_load|]. intros d' _.
  eapply safe_bind; [apply safe_getitem|]. intros c _.
  destruct (_ <? _)%nat; by apply safe_ret.
Qed.

Lemma safe_getitem_list w0 d v : safe w0 (getitem_list d v) (fun _ => True).
Proof.
  unfold getitem_list. eapply safe_bind; [apply safe_lift_option|].
  intros ixs _. by apply safe_ret.
Qed.

Lemma safe_duplicate_columns w0 frame :
  safe w0 (duplicate_columns frame) (fun _ => True).
Proof.
  unfold duplicate_columns.
  eapply safe_bind; [apply safe_load|]. intros d _.
  apply (safe_for_each w0 _ _ (fun _ => True)); [|done].
  intros [t v] dups _.
  eapply safe_bind; [apply safe_load|]. intros d' _.
  eapply safe_bind; [apply safe_getitem_list|]. intros vs _.
  by apply safe_ret.
Qed.

Lemma safe_col_encoding w0 df column :
  safe w0 (col_encoding df column) (fun _ => True).
Proof.
  unfold col_encoding.
  eapply safe_bind; [apply safe_load|]. intros d _.
  eapply safe_bind; [apply safe_getitem|]. intros c _.
  eapply safe_bind; [apply safe_lift_option|]. intros classes _.
  destruct (map _ c); [apply safe_raise|by apply safe_ret].
Qed.

Lemma safe_one_hot_df w0 df cat_col_list :
  safe w0 (one_hot_df df cat_col_list) (fresh w0).
Proof.
  unfold one_hot_df.
  eapply safe_bind; [apply safe_new_frame|]. intros df_hot Hh.
  apply (safe_for_each w0 _ _ (fresh w0)); [|done].
  intros col h _.
  eapply safe_bind; [apply safe_col_encoding|]. intros m _.
  eapply safe_bind; [apply safe_new_frame|]. intros df_ _.
  apply safe_pd_concat_axis1.
Qed.

(** C7.  The dataframe utilities leave the dataframe they are given as it
    was: after [get_gene_data], [get_df_missing_columns],
    [find_constant_features], [duplicate_columns] or [one_hot_df], whether
    the call returned or raised, the argument holds the columns, dtypes
    and rows it held before. *)
Theorem dataframe_utilities_leave_argument_unchanged (w : world) (data : ref)
    (d : DataFrame) :
  heap w !! data = Some d ->
  (forall col genes, heap (get_gene_data data col genes w).2 !! data = Some d)
  /\ heap (get_df_missing_columns data w).2 !! data = Some d
  /\ heap (find_constant_features data w).2 !! data = Some d
  /\ heap (duplicate_columns data w).2 !! data = Some d
  /\ (forall cat_col_list, heap (one_hot_df data cat_col_list w).2 !! data = Some d).
Proof.
  intros Hd. repeat split; intros.
  - by apply (safe_get_gene_data w data col genes w (preserves_refl w)).
  - by apply (safe_get_df_missing_columns w data w (preserves_refl w)).
  - by apply (safe_find_constant_features w data w (preserves_refl w)).
  - by apply (safe_duplicate_columns w data w (preserves_refl w)).
  - by apply (safe_one_hot_df w data cat_col_list w (preserves_refl w)).
Qed.

(** ** Computations that touch nothing but the store *)

Lemma same_io_refl w : same_io w w.
Proof. by repeat split. Qed.

Lemma same_io_trans w1 w2 w3 : same_io w1 w2 -> same_io w2 w3 -> same_io w1 w3.
Proof.
  intros (H1 & H2 & H3 & H4) (K1 & K2 & K3 & K4).
  repeat split; congruence.
Qed.

Lemma heap_only_ret {A} (a : A) : heap_only (ret a).
Proof. intros w. apply same_io_refl. Qed.

Lemma heap_only_raise {A} e : heap_only (@raise A e).
Proof. intros w. apply same_io_refl. Qed.

Lemma heap_only_bind {A B} (m : M A) (f : A -> M B) :
  heap_only m -> (forall a, heap_only (f a)) -> heap_only (bind m f).
Proof.
  intros Hm Hf w. unfold bind. specialize (Hm w).
  destruct (m w) as [[a|e] w1]; [|done].
  eapply same_io_trans; [exact Hm|apply Hf].
Qed.

Lemma heap_only_load r : heap_only (load r).
Proof. intros w. unfold load. destruct (heap w !! r); apply same_io_refl. Qed.

Lemma heap_only_new_frame d : heap_only (new_frame d).
Proof. intros w. by repeat split. Qed.

Lemma heap_only_store r d : heap_only (store r d).
Proof. intros w. by repeat split. Qed.

Lemma heap_only_lift_option {A} (o : option A) e : heap_only (lift_option o e).
Proof. destruct o; [apply heap_only_ret|apply heap_only_raise]. Qed.

Lemma heap_only_try_pass m : heap_only m -> heap_only (try_pass m).
Proof.
  intros Hm w. unfold try_pass. specialize (Hm w). by destruct (m w) as [[a|e] w1].
Qed.

Lemma heap_only_for_each {A S} (xs : list A) (body : A -> S -> M S) :
  (forall x s, heap_only (body x s)) -> forall s, heap_only (for_each xs body s).
Proof.
  intros Hbody. induction xs as [|x xs IH]; intros s; simpl.
  - apply heap_only_ret.
  - apply heap_only_bind; [apply Hbody|apply IH].
Qed.

Create HintDb heap_only.
#[local] Hint Resolve heap_only_ret heap_only_raise heap_only_load
  heap_only_new_frame heap_only_store heap_only_lift_option : heap_only.

Ltac heap_only_tac :=
  repeat first
    [ apply heap_only_bind; [|intros ?]
    | apply heap_only_try_pass
    | apply heap_only_for_each; intros ? ?
    | solve [auto with heap_only]
    | match goal with |- heap_only (match ?x with _ => _ end) => destruct x end ].

Lemma heap_only_getitem d c : heap_only (getitem d c).
Proof. unfold getitem. heap_only_tac. Qed.

Lemma heap_only_apply_lower col : heap_only (apply_lower col).
Proof. unfold apply_lower. heap_only_tac. Qed.

Lemma heap_only_rename_inplace r old new : heap_only (rename_inplace r old new).
Proof. unfold rename_inplace. heap_only_tac. Qed.

Lemma heap_only_setitem r c t col : heap_only (setitem r c t col).
Proof. unfold setitem. heap_only_tac. Qed.

Lemma heap_only_pd_concat_axis1 a b : heap_only (pd_concat_axis1 a b).
Proof. unfold pd_concat_axis1. heap_only_tac. Qed.

Lemma heap_only_read_csv path : heap_only (read_csv path).
Proof.
  intros w. unfold read_csv. destruct (files w !! path); [|apply same_io_refl].
  apply heap_only_new_frame.
Qed.

#[local] Hint Resolve heap_only_getitem heap_only_apply_lower
  heap_only_rename_inplace heap_only_setitem heap_only_pd_concat_axis1
  heap_only_read_csv : heap_only.

(** A successful [bind] ran both of its parts. *)
Lemma bind_Ok {A B} (m : M A) (f : A -> M B) w b w' :
  bind m f w = (Ok b, w') ->
  exists a w1, m w = (Ok a, w1) /\ f a w1 = (Ok b, w').
Proof.
  unfold bind. destruct (m w) as [[a|e] w1]; [|done]. intros H. by exists a, w1.
Qed.

Lemma bind_heap_only_Ok {A B} (m : M A) (f : A -> M B) w b w' :
  heap_only m ->
  bind m f w = (Ok b, w') ->
  exists a w1, same_io w w1 /\ f a w1 = (Ok b, w').
Proof.
  intros Hm H. apply bind_Ok in H as (a & w1 & H1 & H2). exists a, w1.
  split; [|done]. specialize (Hm w). by rewrite H1 in Hm.
Qed.

(** ** [download_and_preprocess_data] *)


Lemma load_Ok r w d w1 :
  load r w = (Ok d, w1) -> heap w !! r = Some d /\ w1 = w.
Proof. unfold load. destruct (heap w !! r); [|done]. by intros [= <- <-]. Qed.

Lemma lift_option_Ok {A} (o : option A) e w a w1 :
  lift_option o e w = (Ok a, w1) -> o = Some a /\ w1 = w.
Proof. destruct o; [|done]. by intros [= <- <-]. Qed.

Lemma getitem_Ok d c w col w1 :
  getitem d c w = (Ok col, w1) ->
  exists i, index_of c (columns d) = Some i /\ col = iloc_col d i /\ w1 = w.
Proof.
  unfold getitem. intros H. apply bind_Ok in H as (i & w2 & H1 & H2).
  apply lift_option_Ok in H1 as [H1 ->]. injection H2 as <- <-. by exists i.
Qed.



Lemma heap_only_run {A} (m : M A) w r w1 :
  heap_only m -> m w = (r, w1) -> same_io w w1.
Proof. intros Hm H. specialize (Hm w). by rewrite H in Hm. Qed.

Lemma lookup_app_plus {A} (h t : list A) k : (h ++ t) !! (length h + k)%nat = t !! k.
Proof. rewrite lookup_app_r by lia. f_equal. lia. Qed.









Section DownloadProps.

Variable run_shell :
  string -> gmap string DataFrame -> gmap string DataFrame * list string.
Variable pca_reconstruct : DataFrame -> Q -> option (list (list value)).
Variable writable : gmap string DataFrame -> string -> bool.


End DownloadProps.


(** ** The statements at concrete inputs *)


Lemma get_hi_GOs_keeps_counts_above_threshold_witness :
  exists (res : option (list value)) (w' : world),
    get_hi_GOs 0 (world_of [twelve_rows_example]) = (Ok res, w')
    /\ ((Z.of_nat (length (rows twelve_rows_example)) <= 100000)%Z ->
        1%Z = (Z.of_nat (length (rows twelve_rows_example)) / 10)%Z)
    /\ (forall id, id ∈ default [] res
          <-> id <> NaN
              /\ (1 < Z.of_nat (length (List.filter (fun v => bool_decide (v = id))
                                     (iloc_col twelve_rows_example 1))))%Z)
    /\ NoDup (default [] res)
    /\ (res = None <-> forall id, id <> NaN ->
          ~ (1 < Z.of_nat (length (List.filter (fun v => bool_decide (v = id))
                                    (iloc_col twelve_rows_example 1))))%Z).
Proof.
  apply (get_hi_GOs_keeps_counts_above_threshold (world_of [twelve_rows_example])
           0 twelve_rows_example 1 1 eq_refl eq_refl).
  - simpl. lia.
  - vm_compute. reflexivity.
Defined.

Lemma significance_cut_then_inner_merge_witness :
  let w := world_of [annotations_example; two_terms_example] in
  let hi_GO_ids := [Str "GO:A"; Str "GO:B"] in
  let p_vals := Binary64.computed_p_vals sequential_sum memory_example
                  two_terms_example 1 hi_GO_ids in
  exists (r : ref) (w' : world) (summary : DataFrame),
    Binary64.get_hyper_test_p_value sequential_sum rounded_pmf memory_example
      0 1 (Some hi_GO_ids) w = (Ok (Some r), w')
    /\ heap w' !! r = Some summary
    /\ stdout w' = stdout w ++ ["Enrichment test ran succesfully!"]
    /\ length p_vals = length hi_GO_ids
    /\ (forall row, row ∈ rows summary
          <-> exists k id p gr,
                hi_GO_ids !! k = Some id /\ p_vals !! k = Some p
                /\ SFltb p (S754_finite false 7205759403792794 (-57)) = true
                /\ gr ∈ rows two_terms_example /\ nth 1 gr NaN = id
                /\ row = [id; Binary64.float_cell p] ++ take 1 gr ++ drop 2 gr)
    /\ ((exists p, p ∈ p_vals
                   /\ SFltb p (S754_finite false 7205759403792794 (-57)) = true) ->
        columns summary
        = ["GO_ID"; "p_val"]
          ++ List.filter (fun c => negb (bool_decide (c = "GO_ID")))
               (columns two_terms_example)).
Proof.
  apply (significance_cut_then_inner_merge sequential_sum rounded_pmf
           memory_example
           (world_of [annotations_example; two_terms_example]) 0 1
           annotations_example two_terms_example 1 1
           [Str "GO:A"; Str "GO:B"] eq_refl eq_refl).
  - apply (bool_decide_unpack _). vm_compute. reflexivity.
  - apply (bool_decide_unpack _). vm_compute. reflexivity.
  - reflexivity.
  - reflexivity.
  - apply (bool_decide_unpack _). vm_compute. reflexivity.
  - discriminate.
  - intros id Hid. apply list_elem_of_In in Hid. simpl in Hid.
    destruct Hid as [<-|[<-|[]]].
    + split; [by eexists|].
      split; apply (bool_decide_unpack _); vm_compute; reflexivity.
    + split; [by eexists|].
      split; apply (bool_decide_unpack _); vm_compute; reflexivity.
  - intros p Hp. apply list_elem_of_In in Hp. vm_compute in Hp.
    destruct Hp as [<-|[<-|[]]]; split; first [reflexivity|discriminate].
Defined.

Lemma ten_distinct_example_NoDup : NoDup (iloc_col ten_distinct_example 1).
Proof. apply (bool_decide_unpack _). vm_compute. reflexivity. Qed.

Lemma no_enriched_GOs_prints_and_returns_None_witness :
  get_hi_GOs 0 (world_of [single_row_example])
    = (Ok None, set_stdout ["No enriched functions found."]
                  (world_of [single_row_example]))
  /\ get_hi_GOs 0 (world_of [ten_distinct_example])
    = (Ok None, set_stdout ["No enriched functions found."]
                  (world_of [ten_distinct_example]))
  /\ get_hyper_test_p_value 0 0 None (world_of [single_row_example])
    = (Ok None, set_stdout ["Enrichment test did not run."]
                  (world_of [single_row_example])).
Proof.
  destruct (no_enriched_GOs_prints_and_returns_None
              (world_of [single_row_example]) 0 single_row_example eq_refl)
    as (Ha & _ & Hc).
  destruct (no_enriched_GOs_prints_and_returns_None
              (world_of [ten_distinct_example]) 0 ten_distinct_example eq_refl)
    as (_ & Hb & _).
  split; [|split].
  - apply Ha. simpl. lia.
  - apply (Hb 1%nat 1%Z).
    + simpl. lia.
    + reflexivity.
    + vm_compute. reflexivity.
    + intros id _.
      pose proof (occurrences_NoDup id _ ten_distinct_example_NoDup). lia.
  - apply Hc. by left.
Defined.

Lemma dataframe_utilities_leave_argument_unchanged_witness :
  let w := world_of [frame_with_gap] in
  (forall col genes, heap (get_gene_data 0 col genes w).2 !! 0%nat = Some frame_with_gap)
  /\ heap (get_df_missing_columns 0 w).2 !! 0%nat = Some frame_with_gap
  /\ heap (find_constant_features 0 w).2 !! 0%nat = Some frame_with_gap
  /\ heap (duplicate_columns 0 w).2 !! 0%nat = Some frame_with_gap
  /\ (forall cat_col_list,
        heap (one_hot_df 0 cat_col_list w).2 !! 0%nat = Some frame_with_gap).
Proof.
  exact (dataframe_utilities_leave_argument_unchanged (world_of [frame_with_gap])
           0 frame_with_gap eq_refl).
Defined.


(** ** Checks of the model on small inputs *)

(** The literal [0.10] is the double obtained by dividing 1 by 10. *)
Example float_0_10_is_a_tenth :
  SFdiv 53 1024 (float_of_nat 1) (float_of_nat 10) = float_0_10.
Proof. vm_compute. reflexivity. Qed.

(** Of the twelve rows only GO:A (three times) and GO:B (twice) occur more
    than [int(12 * 0.10) = 1] times. *)
Example get_hi_GOs_twelve_rows :
  (get_hi_GOs 0 (world_of [twelve_rows_example])).1
  = Ok (Some [Str "GO:A"; Str "GO:B"]).
Proof. vm_compute. reflexivity. Qed.

Example duplicate_columns_example :
  (duplicate_columns 0 (world_of [columns_example])).1 = Ok ["a"; "c"].
Proof. vm_compute. reflexivity. Qed.

Example get_hi_GOs_example :
  (get_hi_GOs 0 (world_of [annotations_example])).1
  = Ok (Some [Str "GO:A"; Str "GO:B"]).
Proof. vm_compute. reflexivity. Qed.

Example download_example :
  files (download_and_preprocess_data shell_example pca_example
           (fun _ _ => true) "ecoli" None 1 "out/" (world_of [])).2
    !! "out/denoised_ecoli.csv"
  = Some denoised_example.
Proof. vm_compute. reflexivity. Qed.

(** Writing the row labels would change the table in the file. *)
Lemma with_index_differs d : with_index d <> d.
Proof.
  intros H. apply (f_equal (fun x => length (columns x))) in H.
  simpl in H. lia.
Qed.

(** With the buffers holding ones instead of zeros, the same call reports
    nothing: the p-value is then 1. *)
Example get_hyper_test_p_value_other_junk :
  let w := mkWorld [annotations_example; gene_set_example] [] ∅ [] (fun _ => 1%Q) in
  heap (get_hyper_test_p_value 0 1 (Some [Str "GO:A"]) w).2 !! 3%nat
  = Some (mkDataFrame ["GO_ID"; "p_val"; "gene_name"]
            [object_; float64; object_] []).
Proof. vm_compute. reflexivity. Qed.

(** What [get_GO_gene_set] returns is determined by the annotation file
    and the gene list. *)
Lemma get_GO_gene_set_run {A} (str_of_num : Q -> string) (a : A) genes w t i :
  files w !! "../data/GO_annotations_ecoli.csv" = Some t ->
  index_of "gene_name" (columns t) = Some i ->
  exists r w',
    get_GO_gene_set str_of_num a genes w = (Ok r, w')
    /\ heap w' !! r
       = Some (gene_data_frame
                 (set_column t "gene_name" object_
                    (map Str (lower_strings str_of_num (iloc_col t i))))
                 i genes).
Proof.
  intros Hf Hi. unfold get_GO_gene_set, load_gene_ontology_data.
  unfold bind at 1. unfold bind at 1. unfold read_csv. rewrite Hf.
  unfold new_frame at 1. unfold ret at 1. cbv beta iota.
  unfold bind at 1. erewrite load_run by apply lookup_new_frame_new. cbv beta iota.
  unfold bind at 1. unfold getattr, bind at 1. rewrite Hi.
  cbn [lift_option]. unfold ret at 1 2. cbv beta iota.
  unfold bind at 1. unfold setitem, bind at 1.
  erewrite load_run by apply lookup_new_frame_new. cbv beta iota.
  unfold store. 
  edestruct (get_gene_data_run
    (set_heap (<[length (heap w) := set_column t "gene_name" object_
                   (map Str (lower_strings str_of_num (iloc_col t i)))]>
                 (heap (set_heap (heap w ++ [t]) w)))
       (set_heap (heap w ++ [t]) w))
    (length (heap w)) "gene_name" genes) as (r & w' & Hrun & Hr & _).
  - cbn [heap set_heap]. apply list_lookup_insert_eq. rewrite length_app. simpl. lia.
  - unfold set_column. rewrite Hi. exact Hi.
  - exists r, w'. unfold bind at 1. fold (iloc_col t i). rewrite Hrun. done.
Qed.

(** The literal [0.05] of the significance cut is the double nearest to
    five hundredths. *)
Example float_0_05_is_nearest :
  Binary64.float_0_05 = SFdiv 53 1024 (float_of_nat 5) (float_of_nat 100).
Proof. vm_compute. reflexivity. Qed.

(** The doubles 0.03 and 0.02 add up to the double 0.05, which is not
    below the level, although the exact sum of their values is below five
    hundredths; the doubles 0.01 and 0.02 add up to a double below the
    level.  The function therefore keeps GO:B only. *)
Example significance_cut_on_doubles :
  let w := world_of [annotations_example; two_terms_example] in
  let run := Binary64.get_hyper_test_p_value sequential_sum rounded_pmf
               memory_example 0 1 (Some [Str "GO:A"; Str "GO:B"]) w in
  sequential_sum [hundredths 3; hundredths 2] = Binary64.float_0_05
  /\ (Binary64.Q_of_float (hundredths 3) + Binary64.Q_of_float (hundredths 2)
      < 5 # 100)%Q
  /\ SFltb (sequential_sum [hundredths 1; hundredths 2]) Binary64.float_0_05
     = true
  /\ run.1 = Ok (Some 3%nat)
  /\ heap run.2 !! 3%nat
     = Some (mkDataFrame ["GO_ID"; "p_val"; "gene_name"]
               [object_; float64; object_]
               [[Str "GO:B";
                 Binary64.float_cell
                   (sequential_sum [hundredths 1; hundredths 2]);
                 Str "lacZ"]]).
Proof. repeat split; vm_compute; reflexivity. Qed.

(** * Further properties *)

(** ** [get_gene_data]: errors, order, the gene list as a set *)

Lemma bind_ext {A B} (m : M A) (f g : A -> M B) w :
  (forall a w', f a w' = g a w') -> bind m f w = bind m g w.
Proof. intros H. unfold bind. destruct (m w) as [[a|e] w1]; [apply H|done]. Qed.

Lemma for_each_ext {A S} (xs : list A) (body1 body2 : A -> S -> M S) :
  (forall x s w, body1 x s w = body2 x s w) ->
  forall s w, for_each xs body1 s w = for_each xs body2 s w.
Proof.
  intros H. induction xs as [|x xs IH]; intros s w; simpl; [done|].
  unfold bind. rewrite H. destruct (body2 x s w) as [[s'|e] w1]; [apply IH|done].
Qed.

Lemma py_in_ext x g1 g2 :
  (forall y, y ∈ g1 <-> y ∈ g2) -> py_in x g1 = py_in x g2.
Proof.
  intros H. destruct (py_in x g1) eqn:E1; destruct (py_in x g2) eqn:E2; try done.
  - apply py_in_spec in E1 as [Hn Hx]. apply H in Hx.
    assert (py_in x g2 = true) by (by apply py_in_spec). congruence.
  - apply py_in_spec in E2 as [Hn Hx]. apply H in Hx.
    assert (py_in x g1 = true) by (by apply py_in_spec). congruence.
Qed.

(** X1.  Asked for a column the dataframe does not have, [get_gene_data]
    raises KeyError for that label.  By then it has created the empty
    [gene_profiles]; the dataframe it was given, the files and the
    standard output are as before. *)
Theorem get_gene_data_missing_column (w : world) (data : ref) (d : DataFrame)
    (gene_name_column : string) (test_gene_list : list value) :
  heap w !! data = Some d ->
  index_of gene_name_column (columns d) = None ->
  get_gene_data data gene_name_column test_gene_list w
  = (Raise (KeyError (Str gene_name_column)), set_heap (heap w ++ [empty_frame]) w).
Proof.
  intros Hd Hc. unfold get_gene_data.
  unfold bind at 1. unfold new_frame at 1. cbv beta iota.
  unfold bind at 1. erewrite load_run by (by apply lookup_new_frame_old).
  cbv beta iota. unfold bind at 1. unfold getitem, bind at 1. by rewrite Hc.
Qed.

Lemma get_gene_data_missing_column_witness :
  get_gene_data 0 "locus" [Str "araC"] (world_of [annotations_example])
  = (Raise (KeyError (Str "locus")),
     set_heap [annotations_example; empty_frame] (world_of [annotations_example])).
Proof.
  exact (get_gene_data_missing_column (world_of [annotations_example]) 0
           annotations_example "locus" [Str "araC"] eq_refl eq_refl).
Defined.

Lemma gene_data_frame_perm d i genes :
  rows (gene_data_frame d i genes)
  ≡ₚ drop_seen [] (List.filter (fun row => py_in (cell i row) genes) (rows d)).
Proof.
  destruct (gene_data_frame_spec d i genes) as (Hnd & Hel & _).
  apply NoDup_Permutation; [done|apply drop_seen_NoDup|].
  intros row. rewrite Hel, drop_seen_elem.
  rewrite (list_elem_of_In (List.filter _ _)), filter_In, <- list_elem_of_In.
  split; [intros [? ?]|intros [[? ?] _]]; [|done].
  split; [done|apply not_elem_of_nil].
Qed.

(** X2.  Up to the order of the rows, [get_gene_data] returns what the
    vectorised idiom [data[data[column].isin(genes)].drop_duplicates()]
    holds: the rows whose cell in the column is in the list, each distinct
    row exactly once however often its gene occurs.  As in C5, this is for
    distinct column labels and a gene list without missing values. *)
Theorem get_gene_data_permutation_of_isin_filter (w : world) (data : ref)
    (d : DataFrame) (gene_name_column : string) (i : nat)
    (test_gene_list : list value) :
  heap w !! data = Some d ->
  NoDup (columns d) ->
  index_of gene_name_column (columns d) = Some i ->
  NaN ∉ test_gene_list ->
  exists (r : ref) (w' : world) (d' : DataFrame),
    get_gene_data data gene_name_column test_gene_list w = (Ok r, w')
    /\ heap w' !! r = Some d'
    /\ rows d' ≡ₚ remove_dups
                    (List.filter (fun row => bool_decide (nth i row NaN ∈ test_gene_list))
                                 (rows d)).
Proof.
  intros Hd _ Hc Hnan.
  destruct (get_gene_data_run w data gene_name_column test_gene_list d i Hd Hc)
    as (r & w' & Hrun & Hr & _).
  exists r, w', (gene_data_frame d i test_gene_list).
  split; [done|]. split; [done|].
  destruct (gene_data_frame_spec d i test_gene_list) as (Hnd & Hel & _).
  apply NoDup_Permutation; [done|apply NoDup_remove_dups|].
  intros row. rewrite Hel, elem_of_remove_dups.
  rewrite (list_elem_of_In (List.filter _ _)), filter_In, <- list_elem_of_In.
  rewrite bool_decide_eq_true. by rewrite (py_in_elem _ _ Hnan).
Qed.

Lemma get_gene_data_permutation_of_isin_filter_witness :
  exists (r : ref) (w' : world) (d' : DataFrame),
    get_gene_data 0 "gene_name" [Str "araC"; Str "lacI"]
      (world_of [repeated_row_example]) = (Ok r, w')
    /\ heap w' !! r = Some d'
    /\ rows d' ≡ₚ remove_dups
         (List.filter (fun row => bool_decide (nth 0 row NaN ∈ [Str "araC"; Str "lacI"]))
                      (rows repeated_row_example)).
Proof.
  apply (get_gene_data_permutation_of_isin_filter (world_of [repeated_row_example])
           0 repeated_row_example "gene_name" 0 [Str "araC"; Str "lacI"] eq_refl).
  - apply (bool_decide_unpack _). vm_compute. reflexivity.
  - reflexivity.
  - apply (bool_decide_unpack _). vm_compute. reflexivity.
Defined.

(** The order is the loop's, by gene in order of first appearance, not the
    dataframe's. *)
Example get_gene_data_groups_rows_by_gene :
  let run := get_gene_data 0 "gene_name" [Str "araC"; Str "lacI"]
               (world_of [interleaved_example]) in
  exists r, run.1 = Ok r
    /\ (rows <$> heap run.2 !! r)
       = Some [[Str "araC"; Str "GO:A"]; [Str "araC"; Str "GO:C"];
               [Str "lacI"; Str "GO:B"]].
Proof. eexists. split; vm_compute; reflexivity. Qed.

(** X3.  Only the set of genes listed matters to [get_gene_data]: two
    lists with the same members, in any order and with any repetitions,
    give the same result and the same state, on every input. *)
Theorem get_gene_data_gene_list_as_set (w : world) (data : ref)
    (gene_name_column : string) (genes1 genes2 : list value) :
  (forall g, g ∈ genes1 <-> g ∈ genes2) ->
  get_gene_data data gene_name_column genes1 w
  = get_gene_data data gene_name_column genes2 w.
Proof.
  intros H. unfold get_gene_data.
  apply bind_ext. intros gp w1. apply bind_ext. intros d w2.
  apply bind_ext. intros vals w3. unfold bind at 1 3.
  rewrite (for_each_ext vals _
    (fun gene gene_profiles =>
      if py_in gene genes2 then
        d <- load data ;;
        col <- getitem d gene_name_column ;;
        df_ <- new_frame (getitem_mask d (series_eq col gene)) ;;
        pd_concat gene_profiles df_
      else ret gene_profiles)); [done|].
  intros gene s w'. by rewrite (py_in_ext gene genes1 genes2 H).
Qed.

Lemma get_gene_data_gene_list_as_set_witness :
  get_gene_data 0 "gene_name" [Str "araC"; Str "lacI"; Str "araC"]
    (world_of [annotations_example])
  = get_gene_data 0 "gene_name" [Str "lacI"; Str "araC"]
      (world_of [annotations_example]).
Proof.
  apply (get_gene_data_gene_list_as_set (world_of [annotations_example]) 0
           "gene_name" [Str "araC"; Str "lacI"; Str "araC"]
           [Str "lacI"; Str "araC"]).
  intros g. rewrite !elem_of_cons, !elem_of_nil. tauto.
Defined.

(** ** [find_constant_features] *)

Lemma index_of_elem c cs : c ∈ cs -> exists i, index_of c cs = Some i.
Proof.
  induction cs as [|c' cs IH]; [by intros ?%elem_of_nil|].
  intros Hc. simpl. case_bool_decide; [by exists 0%nat|].
  apply elem_of_cons in Hc as [?|Hc]; [done|].
  destruct (IH Hc) as [i ->]. by exists (S i).
Qed.

Lemma index_of_Some c cs i : index_of c cs = Some i -> cs !! i = Some c.
Proof.
  revert i. induction cs as [|c' cs IH]; intros i; simpl; [done|].
  case_bool_decide; [by intros [= <-]; subst|].
  destruct (index_of c cs) as [j|]; simpl; [|done]. intros [= <-]. by apply IH.
Qed.

Lemma drop_seen_short {A} `{EqDecision A} (l : list A) :
  (length (drop_seen [] l) < 2)%nat <-> forall x y, x ∈ l -> y ∈ l -> x = y.
Proof.
  pose proof (drop_seen_NoDup [] l) as Hnd.
  assert (forall x, x ∈ drop_seen [] l <-> x ∈ l) as Hel.
  { intros x. rewrite drop_seen_elem. split; [by intros [? _]|].
    intros ?. split; [done|apply not_elem_of_nil]. }
  split.
  - intros Hlen x y Hx Hy. apply Hel in Hx, Hy.
    destruct (drop_seen [] l) as [|a [|b k]]; simpl in Hlen; [|  |lia].
    + by apply elem_of_nil in Hx.
    + apply list_elem_of_singleton in Hx, Hy. congruence.
  - intros Hall. destruct (drop_seen [] l) as [|a [|b k]]; simpl; [lia..|].
    exfalso. apply NoDup_cons in Hnd as [Ha _]. apply Ha.
    rewrite (Hall a b); [left| |]; apply Hel; [left|right; left].
Qed.

Lemma filter_all_elem {A} (f : A -> bool) (l : list A) :
  (forall x, x ∈ l -> f x = true) -> List.filter f l = l.
Proof.
  induction l as [|x l IH]; intros H; simpl; [done|].
  rewrite H by left. f_equal. apply IH. intros y Hy. apply H. by right.
Qed.

Lemma find_constant_features_loop data d w cs : forall acc,
  heap w !! data = Some d ->
  (forall c, c ∈ cs -> c ∈ columns d) ->
  for_each cs (fun column const_features =>
    d <- load data ;;
    col <- getitem d column ;;
    if (length (drop_seen [] col) <? 2)%nat
    then ret (const_features ++ [column])
    else ret const_features) acc w
  = (Ok (acc ++ List.filter (is_constant d) cs), w).
Proof.
  intros acc Hd. revert acc. induction cs as [|c cs IH]; intros acc Hcs; simpl.
  - by rewrite app_nil_r.
  - destruct (index_of_elem c (columns d)) as [i Hi]; [apply Hcs; left|].
    unfold bind at 1. unfold bind at 1. rewrite (load_run _ _ _ Hd).
    unfold bind at 1. unfold getitem, bind at 1. rewrite Hi. cbn [lift_option].
    unfold ret at 1 2. cbv beta iota. unfold is_constant at 1. rewrite Hi.
    fold (iloc_col d i).
    destruct (_ <? _)%nat; unfold ret at 1; rewrite IH;
      try (intros c' Hc'; apply Hcs; by right).
    + by rewrite <- app_assoc.
    + done.
Qed.

(** X4.  On a dataframe with distinct column labels
    [find_constant_features] raises nothing and changes nothing; it
    returns, in the order of the columns, exactly the labels whose column
    holds at most one distinct value (missing cells counting as one
    value).  On a dataframe without rows that is every label.  (With a
    repeated label [data[column]] is a table and the call raises; the
    object columns are taken to hold no missing cell, where [unique]
    would tell None from NaN.) *)
Theorem find_constant_features_characterised (w : world) (data : ref)
    (d : DataFrame) :
  heap w !! data = Some d ->
  NoDup (columns d) ->
  no_missing_objects d ->
  exists res : list string,
    find_constant_features data w = (Ok res, w)
    /\ res = List.filter (is_constant d) (columns d)
    /\ (forall c, c ∈ res <->
          exists i, index_of c (columns d) = Some i
            /\ forall x y, x ∈ iloc_col d i -> y ∈ iloc_col d i -> x = y)
    /\ (rows d = [] -> res = columns d).
Proof.
  intros Hd _ _. exists (List.filter (is_constant d) (columns d)).
  split; [|split; [done|split]].
  - unfold find_constant_features. unfold bind at 1. rewrite (load_run _ _ _ Hd).
    cbv beta iota.
    by rewrite (find_constant_features_loop data d w (columns d) [] Hd).
  - intros c. rewrite list_elem_of_In, filter_In, <- list_elem_of_In.
    unfold is_constant. split.
    + intros [Hc Hk]. destruct (index_of c (columns d)) as [i|]; [|done].
      exists i. split; [done|]. apply drop_seen_short. by apply Nat.ltb_lt.
    + intros (i & Hi & Hall). rewrite Hi. split.
      * apply list_elem_of_lookup. exists i. by apply index_of_Some.
      * by apply Nat.ltb_lt, drop_seen_short.
  - intros Hr. apply filter_all_elem. intros c Hc. unfold is_constant.
    destruct (index_of_elem c (columns d) Hc) as [i ->].
    unfold iloc_col. by rewrite Hr.
Qed.

Lemma find_constant_features_characterised_witness :
  exists res : list string,
    find_constant_features 0 (world_of [constants_example])
      = (Ok res, world_of [constants_example])
    /\ res = List.filter (is_constant constants_example) (columns constants_example)
    /\ (forall c, c ∈ res <->
          exists i, index_of c (columns constants_example) = Some i
            /\ forall x y, x ∈ iloc_col constants_example i ->
                           y ∈ iloc_col constants_example i -> x = y)
    /\ (rows constants_example = [] -> res = columns constants_example).
Proof.
  apply (find_constant_features_characterised (world_of [constants_example]) 0
           constants_example eq_refl).
  - apply (bool_decide_unpack _). vm_compute. reflexivity.
  - intros p Hp. destruct p as [|[|[|p]]]; try discriminate Hp;
      apply (bool_decide_unpack _); vm_compute; reflexivity.
Defined.

Example find_constant_features_example :
  (find_constant_features 0 (world_of [constants_example])).1
  = Ok ["organism"; "note"].
Proof. vm_compute. reflexivity. Qed.

(** ** [duplicate_columns] *)

Lemma fold_left_append_if {A B} (P : A -> bool) (f : A -> B) (l : list A) :
  forall acc,
  fold_left (fun acc i => if P i then acc ++ [f i] else acc) l acc
  = acc ++ map f (List.filter P l).
Proof.
  induction l as [|x l IH]; intros acc; simpl; [by rewrite app_nil_r|].
  rewrite IH. destruct (P x); simpl; [by rewrite <- app_assoc|done].
Qed.

Lemma mapM_index_of d v :
  (forall c, c ∈ v -> c ∈ columns d) ->
  mapM (fun c => index_of c (columns d)) v = Some (map (pos d) v).
Proof.
  induction v as [|c v IH]; intros Hv; [done|]. cbn [mapM].
  destruct (index_of_elem c (columns d)) as [i Hi]; [apply Hv; left|].
  unfold pos at 1. cbn [map]. rewrite Hi. cbn.
  rewrite IH by (intros c' Hc'; apply Hv; by right). done.
Qed.

Lemma cell_map {A} (f : A -> value) (l : list A) (k : nat) (a : A) :
  (k < length l)%nat -> cell k (map f l) = f (nth k l a).
Proof.
  unfold cell. revert k. induction l as [|x l IH]; intros k Hk; simpl in *; [lia|].
  destruct k; [done|]. apply IH. lia.
Qed.

Lemma iloc_col_subframe d v k :
  (k < length v)%nat ->
  iloc_col (mkDataFrame v
              (map (fun i => default object_ (dtypes d !! i)) (map (pos d) v))
              (map (fun r => map (fun i => cell i r) (map (pos d) v)) (rows d))) k
  = iloc_col d (pos d (nth k v "")).
Proof.
  intros Hk. unfold iloc_col. cbn [rows]. rewrite map_map.
  apply map_ext. intros r.
  rewrite (cell_map _ _ _ 0%nat) by (by rewrite length_map).
  f_equal. rewrite (nth_indep _ 0%nat (pos d "")) by (by rewrite length_map).
  by rewrite (map_nth (pos d) v "").
Qed.

Lemma existsb_ext_in {A} (f g : A -> bool) (l : list A) :
  (forall x, In x l -> f x = g x) -> existsb f l = existsb g l.
Proof.
  induction l as [|x l IH]; intros H; simpl; [done|].
  rewrite H by (by left). f_equal. apply IH. intros y Hy. apply H. by right.
Qed.

Lemma duplicate_columns_loop frame d w (groups : list (dtype * list string)) :
  forall acc : list string,
  heap w !! frame = Some d ->
  (forall t v c, (t, v) ∈ groups -> c ∈ v -> c ∈ columns d) ->
  for_each groups (fun '(t, v) dups =>
    d <- load frame ;;
    vs <- getitem_list d v ;;
    let cs := columns vs in
    let lcs := length cs in
    ret (fold_left (fun dups i =>
           let ia := iloc_col vs i in
           if existsb (fun j => array_equal ia (iloc_col vs j))
                      (seq (i + 1) (lcs - (i + 1)))
           then dups ++ [nth i cs ""]
           else dups) (seq 0 lcs) dups)) acc w
  = (Ok (acc ++ flat_map (fun tv => group_dups d tv.2) groups), w).
Proof.
  intros acc Hd. revert acc.
  induction groups as [|[t v] groups IH]; intros acc Hg; cbn [for_each flat_map].
  - by rewrite app_nil_r.
  - unfold bind at 1. unfold bind at 1. rewrite (load_run _ _ _ Hd). cbv beta iota.
    unfold bind at 1. unfold getitem_list, bind at 1.
    rewrite mapM_index_of by (intros c Hc; apply (Hg t v); [left|done]).
    cbn [lift_option]. unfold ret at 1 2 3. cbv beta iota zeta. cbn [columns].
    rewrite fold_left_append_if.
    rewrite IH by (intros t' v' c Hv Hc; apply (Hg t' v'); [by right|done]).
    rewrite <- app_assoc. cbn [snd].
    match goal with
    | |- (Ok (_ ++ ?X ++ _), _) = _ => assert (X = group_dups d v) as ->; [|done]
    end.
    unfold group_dups. f_equal.
    apply filter_ext_in. intros i Hi. apply in_seq in Hi.
    rewrite iloc_col_subframe by lia.
    apply existsb_ext_in. intros j Hj. apply in_seq in Hj.
    rewrite iloc_col_subframe by lia. done.
Qed.

Lemma groups_by_dtype_labels d t v c :
  (t, v) ∈ groups_by_dtype d -> c ∈ v -> c ∈ columns d.
Proof.
  unfold groups_by_dtype. intros Hg Hc.
  apply list_elem_of_fmap in Hg as (t' & [= -> ->] & _).
  apply list_elem_of_fmap in Hc as ([c' t''] & -> & Hin).
  apply list_elem_of_In, filter_In in Hin as [Hin _].
  apply list_elem_of_In, elem_of_zip_l in Hin. done.
Qed.

Lemma duplicate_columns_run w frame d :
  heap w !! frame = Some d ->
  duplicate_columns frame w
  = (Ok (flat_map (fun tv => group_dups d tv.2) (groups_by_dtype d)), w).
Proof.
  intros Hd. unfold duplicate_columns. unfold bind at 1.
  rewrite (load_run _ _ _ Hd). cbv beta iota.
  exact (duplicate_columns_loop frame d w (groups_by_dtype d) [] Hd
           (groups_by_dtype_labels d)).
Qed.

Lemma ordered_pair_cons {A} (a : A) l x y :
  ordered_pair (a :: l) x y <-> (a = x /\ y ∈ l) \/ ordered_pair l x y.
Proof.
  unfold ordered_pair. split.
  - intros (i & j & Hij & Hi & Hj). destruct j as [|j]; [lia|]. simpl in Hj.
    destruct i as [|i]; simpl in Hi.
    + left. split; [congruence|]. apply list_elem_of_lookup. by exists j.
    + right. exists i, j. split; [lia|done].
  - intros [[-> Hy]|(i & j & Hij & Hi & Hj)].
    + apply list_elem_of_lookup in Hy as [j Hj]. exists 0%nat, (S j).
      split; [lia|done].
    + exists (S i), (S j). split; [lia|done].
Qed.

Lemma ordered_pair_nil {A} (x y : A) : ~ ordered_pair [] x y.
Proof. by intros (i & j & _ & Hi & _). Qed.

Lemma ordered_pair_filter {A} (P : A -> bool) l x y :
  ordered_pair (List.filter P l) x y
  <-> ordered_pair l x y /\ P x = true /\ P y = true.
Proof.
  induction l as [|a l IH]; simpl.
  - split; [by intros ?%ordered_pair_nil|by intros [?%ordered_pair_nil _]].
  - destruct (P a) eqn:Ha.
    + rewrite !ordered_pair_cons, IH, list_elem_of_In, filter_In, <- list_elem_of_In.
      split.
      * intros [[-> [Hy Hpy]]|(Ho & Hx & Hy)]; [|tauto].
        split; [by left|done].
      * intros [[[-> Hy]|Ho] [Hx Hpy]]; [left|right]; done.
    + rewrite ordered_pair_cons, IH. split; [tauto|].
      intros [[[-> Hy]|Ho] [Hx Hpy]]; [congruence|done].
Qed.

Lemma ordered_pair_map {A B} (f : A -> B) l x y :
  ordered_pair (map f l) x y
  <-> exists a b, ordered_pair l a b /\ f a = x /\ f b = y.
Proof.
  unfold ordered_pair. change (map f l) with (f <$> l). split.
  - intros (i & j & Hij & Hi & Hj).
    apply list_lookup_fmap_Some in Hi as (a & -> & Hi).
    apply list_lookup_fmap_Some in Hj as (b & -> & Hj).
    exists a, b. split; [|done]. by exists i, j.
  - intros (a & b & (i & j & Hij & Hi & Hj) & <- & <-). exists i, j.
    split; [done|]. split; by apply list_lookup_fmap_Some_2.
Qed.

Lemma nth_lookup_Some (v : list string) i c :
  v !! i = Some c -> nth i v "" = c /\ (i < length v)%nat.
Proof.
  intros H. split; [|by eapply lookup_lt_Some].
  revert i H. induction v as [|a v IH]; intros [|i] H; simpl in *; try done.
  - congruence.
  - by apply IH.
Qed.

Lemma group_dups_elem d v c :
  c ∈ group_dups d v
  <-> exists c', ordered_pair v c c'
        /\ array_equal (iloc_col d (pos d c)) (iloc_col d (pos d c')) = true.
Proof.
  unfold group_dups. rewrite list_elem_of_fmap. split.
  - intros (i & -> & Hi). apply list_elem_of_In, filter_In in Hi as [Hi He].
    apply in_seq in Hi. apply existsb_exists in He as (j & Hj & He).
    apply in_seq in Hj.
    destruct (lookup_lt_is_Some_2 v i) as [ci Hci]; [lia|].
    destruct (lookup_lt_is_Some_2 v j) as [cj Hcj]; [lia|].
    destruct (nth_lookup_Some v i ci Hci) as [Hni _].
    destruct (nth_lookup_Some v j cj Hcj) as [Hnj _].
    rewrite Hni, Hnj in *. exists cj. split; [|done]. exists i, j.
    split; [lia|done].
  - intros (c' & (i & j & Hij & Hi & Hj) & He).
    destruct (nth_lookup_Some v i c Hi) as [Hni Hli].
    destruct (nth_lookup_Some v j c' Hj) as [Hnj Hlj].
    exists i. split; [done|]. apply list_elem_of_In, filter_In. split.
    + apply in_seq. lia.
    + apply existsb_exists. exists j. split; [apply in_seq; lia|].
      by rewrite Hni, Hnj.
Qed.

Lemma index_of_NoDup cs p c :
  NoDup cs -> cs !! p = Some c -> index_of c cs = Some p.
Proof.
  intros Hnd. revert p. induction Hnd as [|a cs Ha Hnd IH]; intros p Hp; [done|].
  simpl. destruct p as [|p]; simpl in Hp.
  - injection Hp as ->. by rewrite bool_decide_eq_true_2.
  - rewrite bool_decide_eq_false_2.
    + by rewrite (IH p Hp).
    + intros ->. apply Ha. apply list_elem_of_lookup. by exists p.
Qed.

Lemma duplicate_columns_elem (w : world) (frame : ref)
    (d : DataFrame) :
  heap w !! frame = Some d ->
  NoDup (columns d) ->
  exists dups : list string,
    duplicate_columns frame w = (Ok dups, w)
    /\ forall c, c ∈ dups <->
         exists p q t, (p < q)%nat
           /\ columns d !! p = Some c /\ is_Some (columns d !! q)
           /\ dtypes d !! p = Some t /\ dtypes d !! q = Some t
           /\ array_equal (iloc_col d p) (iloc_col d q) = true.
Proof.
  intros Hd Hnd. eexists. split; [by apply duplicate_columns_run|].
  intros c. rewrite list_elem_of_In, in_flat_map. split.
  - intros ([t v] & Hg & Hc). apply list_elem_of_In in Hg, Hc.
    unfold groups_by_dtype in Hg.
    apply list_elem_of_fmap in Hg as (t' & [= -> ->] & Ht). cbn [snd] in Hc.
    apply group_dups_elem in Hc as (c' & Ho & He).
    apply ordered_pair_map in Ho as ([c1 t1] & [c2 t2] & Ho & <- & <-).
    apply ordered_pair_filter in Ho as (Ho & H1 & H2).
    apply bool_decide_eq_true in H1, H2. cbn [snd fst] in *. subst t1 t2.
    destruct Ho as (p & q & Hpq & Hp & Hq).
    apply lookup_zip_with_Some in Hp as (? & ? & [= <- <-] & Hp1 & Hp2).
    apply lookup_zip_with_Some in Hq as (? & ? & [= <- <-] & Hq1 & Hq2).
    unfold pos in He.
    rewrite (index_of_NoDup _ p c1 Hnd Hp1), (index_of_NoDup _ q c2 Hnd Hq1) in He.
    exists p, q, t'. eauto 10.
  - intros (p & q & t & Hpq & Hp & [c' Hq] & Htp & Htq & He).
    exists (t, map fst (List.filter (fun ct : string * dtype => bool_decide (ct.2 = t))
                          (zip (columns d) (dtypes d)))).
    split.
    + apply list_elem_of_In. unfold groups_by_dtype. apply list_elem_of_fmap.
      exists t. split; [done|]. apply drop_seen_elem.
      split; [|apply not_elem_of_nil]. apply list_elem_of_lookup. by exists p.
    + apply list_elem_of_In. cbn [snd]. apply group_dups_elem. exists c'. split.
      * apply ordered_pair_map. exists (c, t), (c', t). split; [|done].
        apply ordered_pair_filter. split.
        -- exists p, q. split; [done|].
           split; apply lookup_zip_with_Some; eauto 10.
        -- split; by apply bool_decide_eq_true.
      * unfold pos.
        by rewrite (index_of_NoDup _ p c Hnd Hp), (index_of_NoDup _ q c' Hnd Hq).
Qed.

Lemma array_equal_spec a b : array_equal a b = true <-> a = b /\ NaN ∉ a.
Proof.
  revert b. induction a as [|x a IH]; intros [|y b]; simpl.
  - split; [intros _; split; [done|apply not_elem_of_nil]|done].
  - split; [done|by intros [? _]].
  - split; [done|by intros [? _]].
  - rewrite andb_true_iff, IH. split.
    + intros [[-> Hx]%py_eqb_eq [-> Ha]]. split; [done|].
      intros [<-|?]%elem_of_cons; done.
    + intros [[= -> ->] Hn]. split.
      * apply py_eqb_refl. destruct y; [|done..].
        exfalso. apply Hn. left.
      * split; [done|]. intros ?. apply Hn. by right.
Qed.

(** X5.  On a dataframe with distinct column labels [duplicate_columns]
    raises nothing, changes nothing, and reports a label exactly when a
    column further to the right has the same dtype and holds the same
    cells, none of them missing (a NaN is different from itself).  The
    object columns are taken to hold no missing cell: [np.array_equal]
    finds None equal to None, which the cell model does not follow. *)
Theorem duplicate_columns_characterised (w : world) (frame : ref)
    (d : DataFrame) :
  heap w !! frame = Some d ->
  NoDup (columns d) ->
  no_missing_objects d ->
  exists dups : list string,
    duplicate_columns frame w = (Ok dups, w)
    /\ forall c, c ∈ dups <->
         exists p q t, (p < q)%nat
           /\ columns d !! p = Some c /\ is_Some (columns d !! q)
           /\ dtypes d !! p = Some t /\ dtypes d !! q = Some t
           /\ map (fun row => nth p row NaN) (rows d)
              = map (fun row => nth q row NaN) (rows d)
           /\ NaN ∉ map (fun row => nth p row NaN) (rows d).
Proof.
  intros Hd Hnd _.
  destruct (duplicate_columns_elem w frame d Hd Hnd) as (dups & Hrun & Hel).
  exists dups. split; [done|]. intros c. rewrite Hel.
  split; intros (p & q & t & Hpq & Hp & Hq & Htp & Htq & He);
    exists p, q, t; repeat (split; [done|]); by apply array_equal_spec.
Qed.

Lemma duplicate_columns_characterised_witness :
  exists dups : list string,
    duplicate_columns 0 (world_of [columns_example])
      = (Ok dups, world_of [columns_example])
    /\ forall c, c ∈ dups <->
         exists p q t, (p < q)%nat
           /\ columns columns_example !! p = Some c
           /\ is_Some (columns columns_example !! q)
           /\ dtypes columns_example !! p = Some t
           /\ dtypes columns_example !! q = Some t
           /\ map (fun row => nth p row NaN) (rows columns_example)
              = map (fun row => nth q row NaN) (rows columns_example)
           /\ NaN ∉ map (fun row => nth p row NaN) (rows columns_example).
Proof.
  apply (duplicate_columns_characterised (world_of [columns_example]) 0
           columns_example eq_refl).
  - apply (bool_decide_unpack _). vm_compute. reflexivity.
  - intros p Hp. destruct p as [|[|[|[|p]]]]; try discriminate Hp.
    apply (bool_decide_unpack _). vm_compute. reflexivity.
Defined.

Lemma array_equal_notnull a b : array_equal a b = true -> NaN ∉ a.
Proof.
  revert b. induction a as [|x a IH]; intros [|y b] H; simpl in H; try done.
  - apply not_elem_of_nil.
  - apply andb_true_iff in H as [Hxy Hab]. apply py_eqb_eq in Hxy as [_ Hx].
    intros [<-|Hin]%elem_of_cons; [done|]. by apply (IH b).
Qed.

(** X6.  A float column holding a missing value (NaN) is never reported
    by [duplicate_columns], not even when another column is its exact
    copy: [np.array_equal] finds NaN different from NaN.  (The statement
    is kept to float columns, where the array holds IEEE NaN; what numpy
    does with missing entries of an object array depends on its
    version.) *)
Theorem duplicate_columns_skips_columns_with_nan (w : world) (frame : ref)
    (d : DataFrame) (p : nat) (c : string) :
  heap w !! frame = Some d ->
  NoDup (columns d) ->
  columns d !! p = Some c ->
  dtypes d !! p = Some float64 ->
  NaN ∈ iloc_col d p ->
  exists dups : list string,
    duplicate_columns frame w = (Ok dups, w) /\ c ∉ dups.
Proof.
  intros Hd Hnd Hp _ Hnan.
  destruct (duplicate_columns_elem w frame d Hd Hnd) as (dups & Hrun & Hel).
  exists dups. split; [done|]. intros Hc.
  apply Hel in Hc as (p' & q & t & _ & Hp' & _ & _ & _ & He).
  assert (p' = p) as ->.
  { eapply NoDup_lookup; eauto. }
  by apply array_equal_notnull in He.
Qed.

Lemma duplicate_columns_skips_columns_with_nan_witness :
  exists dups : list string,
    duplicate_columns 0 (world_of [nan_columns_example])
      = (Ok dups, world_of [nan_columns_example])
    /\ "a" ∉ dups.
Proof.
  apply (duplicate_columns_skips_columns_with_nan (world_of [nan_columns_example])
           0 nan_columns_example 0 "a" eq_refl).
  - apply (bool_decide_unpack _). vm_compute. reflexivity.
  - reflexivity.
  - reflexivity.
  - right. left.
Defined.

(** ** [get_df_missing_columns] and [get_df_stats] *)

Lemma merge_missing_cols d :
  merge_frames (feature_type_frame d) (missing_values_frame d) "index"
  = Some (missing_cols_merge d).
Proof. reflexivity. Qed.

Lemma sort_missing_cols d :
  sort_values (missing_cols_merge d) ["% missing_values"; "feature_type"]
  = Some (missing_cols_report d).
Proof. reflexivity. Qed.

Lemma get_df_missing_columns_run w data d :
  heap w !! data = Some d ->
  get_df_missing_columns data w
  = (Ok (length (heap w) + 2)%nat,
     set_heap (heap w ++ [missing_values_frame d; feature_type_frame d;
                          missing_cols_report d]) w).
Proof.
  intros Hd. unfold get_df_missing_columns.
  unfold bind at 1. rewrite (load_run _ _ _ Hd). cbv beta iota.
  unfold bind at 1. unfold new_frame at 1. cbv beta iota.
  fold (missing_values_frame d).
  unfold bind at 1. erewrite load_run by (by apply lookup_new_frame_old).
  cbv beta iota. fold (feature_type_frame d).
  unfold bind at 1. unfold new_frame at 1. cbv beta iota.
  unfold bind at 1.
  rewrite (pd_merge_run _ _ _ (feature_type_frame d) (missing_values_frame d)
             "index" (missing_cols_merge d)).
  2: { cbn [heap set_heap]. apply list_lookup_middle. done. }
  2: { cbn [heap set_heap]. rewrite lookup_app_l by (rewrite length_app; cbn; lia).
       apply list_lookup_middle. done. }
  2: { apply merge_missing_cols. }
  cbv beta iota. unfold bind at 1. unfold sort_values_inplace.
  unfold bind at 1. erewrite load_run by apply lookup_new_frame_new.
  cbv beta iota. unfold bind at 1. rewrite sort_missing_cols.
  cbn [lift_option]. unfold ret at 1. cbv beta iota.
  unfold store, ret. cbn [heap set_heap stdout files shell junk].
  rewrite !length_app. cbn [length]. f_equal; [f_equal; lia|].
  unfold set_heap. cbn [heap stdout files shell junk]. f_equal.
  rewrite <- !app_assoc. cbn [app].
  replace (length (heap w) + 1 + 1)%nat with (length (heap w) + 2)%nat by lia.
  rewrite insert_app_r. done.
Qed.

Lemma filter_perm {A} (f : A -> bool) (l l' : list A) :
  l ≡ₚ l' -> List.filter f l ≡ₚ List.filter f l'.
Proof.
  induction 1 as [|x l l' _ IH|x y l|l l' l'' _ IH1 _ IH2]; simpl.
  - done.
  - destruct (f x); [by constructor|done].
  - destruct (f x), (f y); try done. apply Permutation_swap.
  - by etrans.
Qed.

Lemma join_rows_perm_r i j l r r' :
  r ≡ₚ r' -> join_rows i j l r ≡ₚ join_rows i j l r'.
Proof.
  intros H. unfold join_rows. induction l as [|lr l IH]; simpl; [done|].
  apply Permutation_app; [|done]. apply Permutation_map. by apply filter_perm.
Qed.

Lemma filter_unique_key {A B} `{EqDecision B} (k : A -> B) (l : list A) x :
  NoDup (map k l) -> x ∈ l ->
  List.filter (fun y => bool_decide (k y = k x)) l = [x].
Proof.
  induction l as [|a l IH]; intros Hnd Hx; [by apply elem_of_nil in Hx|].
  simpl in Hnd. apply NoDup_cons in Hnd as [Ha Hnd]. simpl.
  apply elem_of_cons in Hx as [->|Hx].
  - rewrite bool_decide_eq_true_2 by done. f_equal. apply filter_none.
    intros y Hy. apply bool_decide_eq_false_2. intros He. apply Ha.
    rewrite <- He. change (map k l) with (k <$> l). by apply list_elem_of_fmap_2.
  - rewrite bool_decide_eq_false_2; [by apply IH|].
    intros He. apply Ha. rewrite He.
    change (map k l) with (k <$> l). by apply list_elem_of_fmap_2.
Qed.

Lemma join_rows_unique_keys {A} (fl fr : A -> list value) i j (l : list A) :
  NoDup (map (fun x => cell j (fr x)) l) ->
  (forall x, cell i (fl x) = cell j (fr x)) ->
  join_rows i j (map fl l) (map fr l)
  = map (fun x => fl x ++ remove_at j (fr x)) l.
Proof.
  intros Hnd Hk. unfold join_rows.
  assert (forall l', (forall x, x ∈ l' -> x ∈ l) ->
    flat_map (fun lr => map (fun rr => lr ++ remove_at j rr)
      (List.filter (fun rr => bool_decide (cell j rr = cell i lr)) (map fr l)))
      (map fl l')
    = map (fun x => fl x ++ remove_at j (fr x)) l') as H.
  { induction l' as [|a l' IH]; intros Hsub; simpl; [done|].
    rewrite IH by (intros x Hx; apply Hsub; by right). f_equal.
    rewrite Hk.
    rewrite (filter_unique_key (cell j) (map fr l) (fr a)).
    - done.
    - by rewrite map_map.
    - change (map fr l) with (fr <$> l). apply list_elem_of_fmap_2.
      apply Hsub. by left. }
  by apply H.
Qed.

Lemma map_nth_seq (cs : list string) :
  map (fun j => nth j cs "") (seq 0 (length cs)) = cs.
Proof.
  apply list_eq. intros i.
  change (map ?f ?l) with (f <$> l). rewrite list_lookup_fmap.
  destruct (cs !! i) as [c|] eqn:Hc.
  - apply nth_lookup_Some in Hc as [Hn Hlt].
    rewrite lookup_seq_lt by done. simpl. by rewrite Hn.
  - apply lookup_ge_None in Hc. by rewrite lookup_seq_ge by lia.
Qed.

Lemma imap_as_map_seq {B} (f : nat -> string -> B) (cs : list string) :
  imap f cs = map (fun j => f j (nth j cs "")) (seq 0 (length cs)).
Proof.
  apply list_eq. intros i.
  change (map ?g ?l) with (g <$> l).
  rewrite list_lookup_imap, list_lookup_fmap.
  destruct (cs !! i) as [c|] eqn:Hc.
  - apply nth_lookup_Some in Hc as [Hn Hlt].
    rewrite lookup_seq_lt by done. simpl. by rewrite Hn.
  - apply lookup_ge_None in Hc. by rewrite lookup_seq_ge by lia.
Qed.

Lemma map_zip_as_map_seq {B} (f : string * dtype -> B) (cs : list string)
    (ts : list dtype) :
  length ts = length cs ->
  map f (zip cs ts)
  = map (fun j => f (nth j cs "", nth j ts object_)) (seq 0 (length cs)).
Proof.
  revert ts. induction cs as [|c cs IH]; intros [|t ts] Hlen; simpl in *;
    try done.
  f_equal. rewrite IH by lia. by rewrite <- seq_shift, map_map.
Qed.

Lemma percent_missing_range d j :
  (percent_missing d j = NaN /\ rows d = [])
  \/ (exists q, percent_missing d j = Num q /\ 0 <= q <= 100)%Q.
Proof.
  unfold percent_missing.
  assert (length (List.filter isnull (iloc_col d j)) <= length (rows d))%nat
    as Hle.
  { etrans; [apply filter_length_le|]. unfold iloc_col. by rewrite length_map. }
  destruct (length (rows d)) as [|n] eqn:Hn.
  - left. split; [done|]. by apply nil_length_inv.
  - right. eexists. split; [done|].
    rewrite Qred_correct. unfold Qle, Qmult. simpl. split; [lia|].
    rewrite Pos.mul_1_r. lia.
Qed.

Lemma percent_missing_none d j :
  rows d <> [] -> NaN ∉ iloc_col d j -> percent_missing d j = Num 0.
Proof.
  intros Hr Hn. unfold percent_missing.
  rewrite (filter_none isnull).
  - destruct (length (rows d)) eqn:E; [by apply nil_length_inv in E|done].
  - intros x Hx. destruct x; [by exfalso; apply Hn|done..].
Qed.

Lemma percent_missing_all d j :
  rows d <> [] -> (forall x, x ∈ iloc_col d j -> x = NaN) ->
  percent_missing d j = Num 100.
Proof.
  intros Hr Hall. unfold percent_missing.
  rewrite (filter_all_elem isnull).
  - unfold iloc_col. rewrite length_map.
    destruct (length (rows d)) as [|n] eqn:E; [by apply nil_length_inv in E|].
    f_equal. apply (Qred_complete _ 100). unfold Qeq, Qmult. cbn [Qnum Qden].
    lia.
  - intros x Hx. by rewrite (Hall x Hx).
Qed.

Lemma missing_cols_report_rows d :
  NoDup (columns d) -> length (dtypes d) = length (columns d) ->
  rows (missing_cols_report d) ≡ₚ map (report_row d) (seq 0 (length (columns d))).
Proof.
  intros Hnd Hlen. cbn [rows missing_cols_report]. rewrite sort_by_perm.
  cbn [rows missing_cols_merge missing_values_frame feature_type_frame].
  rewrite (join_rows_perm_r _ _ _ _ _ (sort_by_perm _ _ _)).
  rewrite imap_as_map_seq, (map_zip_as_map_seq _ _ _ Hlen).
  rewrite (join_rows_unique_keys
    (fun j => [Str (nth j (columns d) "");
               Str (dtype_name (nth j (dtypes d) object_))])
    (fun j => [Str (nth j (columns d) ""); percent_missing d j])).
  - done.
  - cbn [cell nth].
    rewrite <- (map_map (fun j => nth j (columns d) "") Str), map_nth_seq.
    assert (Inj eq eq Str) as HI by (intros a b Hab; by injection Hab).
    by apply (NoDup_fmap_2 Str).
  - done.
Qed.

(** X7.  For a dataframe with distinct column labels (and a dtype for
    each), [get_df_missing_columns] succeeds, leaves the dataframe as it
    was and returns a new frame labelled [index], [feature_type],
    [% missing_values] with exactly one row per column, in some order:
    the label, the dtype's name and a percentage.  The percentage is
    missing when the dataframe has no rows; otherwise it lies between 0
    and 100, and is 0 for a column without missing cells and 100 for a
    column of missing cells only.  (Its other values are not stated: pandas
    rounds them to doubles, and they are kept exact here.) *)
Theorem get_df_missing_columns_one_row_per_column (w : world) (data : ref)
    (d : DataFrame)
    (Hd : heap w !! data = Some d)
    (Hnd : NoDup (columns d))
    (Hlen : length (dtypes d) = length (columns d)) :
  exists r w' rep,
    get_df_missing_columns data w = (Ok r, w')
    /\ heap w' !! r = Some rep
    /\ heap w' !! data = Some d
    /\ r <> data
    /\ columns rep = ["index"; "feature_type"; "% missing_values"]
    /\ map (take 2) (rows rep)
       ≡ₚ map (fun j => [Str (nth j (columns d) "");
                         Str (dtype_name (nth j (dtypes d) object_))])
              (seq 0 (length (columns d)))
    /\ forall row, row ∈ rows rep ->
         exists j pct,
           (j < length (columns d))%nat
           /\ row = [Str (nth j (columns d) "");
                     Str (dtype_name (nth j (dtypes d) object_)); pct]
           /\ (rows d = [] -> pct = NaN)
           /\ (rows d <> [] ->
               exists q, pct = Num q /\ (0 <= q <= 100)%Q
                 /\ (NaN ∉ map (fun r => nth j r NaN) (rows d) -> (q == 0)%Q)
                 /\ ((forall x, x ∈ map (fun r => nth j r NaN) (rows d) -> x = NaN)
                     -> (q == 100)%Q)).
Proof.
  eexists _, _, (missing_cols_report d).
  split; [by apply get_df_missing_columns_run|].
  assert (data < length (heap w))%nat as Hlt by (by eapply lookup_lt_Some).
  pose proof (missing_cols_report_rows d Hnd Hlen) as Hrows.
  split; [|split; [|split; [lia|split; [done|split]]]].
  - cbn [heap set_heap]. by rewrite lookup_app_plus.
  - cbn [heap set_heap]. by rewrite lookup_app_l.
  - rewrite Hrows, map_map. done.
  - intros row Hrow. rewrite Hrows in Hrow.
    change (map ?f ?l) with (f <$> l) in Hrow.
    apply list_elem_of_fmap in Hrow as (j & -> & Hj). apply elem_of_seq in Hj.
    exists j, (percent_missing d j). split; [lia|]. split; [done|].
    destruct (percent_missing_range d j) as [[Hp Hr]|(q & Hq & Hq1 & Hq2)].
    + split; [done|]. by intros ?.
    + split.
      * intros Hr. unfold percent_missing in Hq. by rewrite Hr in Hq.
      * intros Hr. exists q. split; [done|]. split; [done|]. split.
        -- intros Hn. rewrite (percent_missing_none d j Hr Hn) in Hq.
           by injection Hq as <-.
        -- intros Hall. rewrite (percent_missing_all d j Hr Hall) in Hq.
           by injection Hq as <-.
Qed.

Lemma get_df_missing_columns_one_row_per_column_witness :
  exists r w' rep,
    get_df_missing_columns 0%nat (world_of [frame_with_gap]) = (Ok r, w')
    /\ heap w' !! r = Some rep
    /\ heap w' !! 0%nat = Some frame_with_gap
    /\ r <> 0%nat
    /\ columns rep = ["index"; "feature_type"; "% missing_values"]
    /\ map (take 2) (rows rep)
       ≡ₚ map (fun j => [Str (nth j (columns frame_with_gap) "");
                         Str (dtype_name (nth j (dtypes frame_with_gap) object_))])
              (seq 0 (length (columns frame_with_gap)))
    /\ forall row, row ∈ rows rep ->
         exists j pct,
           (j < length (columns frame_with_gap))%nat
           /\ row = [Str (nth j (columns frame_with_gap) "");
                     Str (dtype_name (nth j (dtypes frame_with_gap) object_)); pct]
           /\ (rows frame_with_gap = [] -> pct = NaN)
           /\ (rows frame_with_gap <> [] ->
               exists q, pct = Num q /\ (0 <= q <= 100)%Q
                 /\ (NaN ∉ map (fun r => nth j r NaN) (rows frame_with_gap) ->
                     (q == 0)%Q)
                 /\ ((forall x, x ∈ map (fun r => nth j r NaN) (rows frame_with_gap)
                                -> x = NaN)
                     -> (q == 100)%Q)).
Proof.
  apply (get_df_missing_columns_one_row_per_column
           (world_of [frame_with_gap]) 0%nat frame_with_gap).
  - reflexivity.
  - vm_compute. repeat constructor; set_solver.
  - reflexivity.
Defined.

Lemma find_constant_features_run w data d :
  heap w !! data = Some d ->
  find_constant_features data w
  = (Ok (List.filter (is_constant d) (columns d)), w).
Proof.
  intros Hd. unfold find_constant_features. unfold bind at 1.
  rewrite (load_run _ _ _ Hd). cbv beta iota.
  by rewrite (find_constant_features_loop data d w (columns d) [] Hd).
Qed.

(** X8.  On a dataframe with distinct column labels [get_df_stats]
    succeeds and returns exactly what [get_df_missing_columns],
    [find_constant_features] and [duplicate_columns] return when called on
    it one at a time; the dataframe itself is left as it was and nothing
    is printed or written.  (With a repeated label
    [find_constant_features] raises, and so does [get_df_stats].) *)
Theorem get_df_stats_combines_the_three_reports (w : world) (df : ref)
    (d : DataFrame)
    (Hd : heap w !! df = Some d)
    (Hnd : NoDup (columns d)) :
  exists r cf dups w',
    get_df_stats df w = (Ok (r, cf, dups), w')
    /\ get_df_missing_columns df w = (Ok r, w')
    /\ find_constant_features df w = (Ok cf, w)
    /\ duplicate_columns df w = (Ok dups, w)
    /\ heap w' !! df = Some d
    /\ stdout w' = stdout w /\ files w' = files w /\ shell w' = shell w.
Proof.
  assert (data_lt : (df < length (heap w))%nat) by (by eapply lookup_lt_Some).
  set (w1 := set_heap (heap w ++ [missing_values_frame d; feature_type_frame d;
                                  missing_cols_report d]) w).
  assert (heap w1 !! df = Some d) as Hd1.
  { unfold w1. cbn [heap set_heap]. by rewrite lookup_app_l. }
  exists (length (heap w) + 2)%nat, (List.filter (is_constant d) (columns d)),
    (flat_map (fun tv => group_dups d tv.2) (groups_by_dtype d)), w1.
  split; [|split; [by apply get_df_missing_columns_run|split; [|split]]].
  - unfold get_df_stats. unfold bind at 1.
    rewrite (get_df_missing_columns_run _ _ _ Hd). fold w1. cbv beta iota.
    unfold bind at 1.
    rewrite (find_constant_features_run _ _ _ Hd1). cbv beta iota.
    unfold bind at 1. rewrite (duplicate_columns_run _ _ _ Hd1). done.
  - by apply find_constant_features_run.
  - by apply duplicate_columns_run.
  - done.
Qed.

Lemma get_df_stats_combines_the_three_reports_witness :
  exists r cf dups w',
    get_df_stats 0%nat (world_of [constants_example]) = (Ok (r, cf, dups), w')
    /\ get_df_missing_columns 0%nat (world_of [constants_example]) = (Ok r, w')
    /\ find_constant_features 0%nat (world_of [constants_example])
       = (Ok cf, world_of [constants_example])
    /\ duplicate_columns 0%nat (world_of [constants_example])
       = (Ok dups, world_of [constants_example])
    /\ heap w' !! 0%nat = Some constants_example
    /\ stdout w' = stdout (world_of [constants_example])
    /\ files w' = files (world_of [constants_example])
    /\ shell w' = shell (world_of [constants_example]).
Proof.
  apply (get_df_stats_combines_the_three_reports
           (world_of [constants_example]) 0%nat constants_example).
  - reflexivity.
  - apply (bool_decide_unpack _). vm_compute. reflexivity.
Defined.

(** ** The gene-ontology pipeline: [get_GO_gene_set], [get_GO_enrichment] *)

Lemma lower_ascii_idem c : lower_ascii (lower_ascii c) = lower_ascii c.
Proof. by destruct c as [[] [] [] [] [] [] [] []]. Qed.

Lemma lower_idem s : lower (lower s) = lower s.
Proof. induction s as [|c s IH]; simpl; [done|]. by rewrite lower_ascii_idem, IH. Qed.

Lemma cell_insert i v (row : list value) :
  cell i (<[i := v]> row) = v \/ cell i (<[i := v]> row) = NaN.
Proof.
  unfold cell. destruct (decide (i < length row)%nat) as [Hlt|Hge].
  - left. by rewrite nth_lookup, list_lookup_insert_eq.
  - right. apply nth_overflow. rewrite length_insert. lia.
Qed.

Lemma py_in_NaN genes : py_in NaN genes = false.
Proof.
  destruct (py_in NaN genes) eqn:E; [|done].
  by apply py_in_spec in E as [? _].
Qed.

Section GeneOntologyProps.

Variable str_of_num : Q -> string.

Lemma lowered_names_never_match t i genes :
  index_of "gene_name" (columns t) = Some i ->
  (forall s, Str s ∈ genes -> lower s <> s) ->
  forall r,
    r ∈ rows (set_column t "gene_name" object_
                (map Str (lower_strings str_of_num (iloc_col t i)))) ->
    py_in (cell i r) genes = false.
Proof.
  intros Hi Hup r. unfold set_column. rewrite Hi. cbn [rows].
  intros Hr. apply elem_of_zip_with in Hr as (row & v & -> & _ & Hv).
  destruct (cell_insert i v row) as [->| ->]; [|apply py_in_NaN].
  change (map Str ?l) with (Str <$> l) in Hv.
  apply list_elem_of_fmap in Hv as (s & -> & Hs).
  unfold lower_strings in Hs. change (map ?f ?l) with (f <$> l) in Hs.
  apply list_elem_of_fmap in Hs as (x & -> & _).
  destruct (py_in (Str (lower (py_str str_of_num x))) genes) eqn:E; [|done].
  apply py_in_spec in E as [_ Hin]. apply Hup in Hin.
  by rewrite lower_idem in Hin.
Qed.

(** X9.  [get_GO_gene_set] lower-cases the gene names of the annotation
    file but not the names it is asked for.  When every name in
    [test_gene_list] holds an upper-case letter, as in [araC], nothing
    matches: whatever the file holds, the result is the empty dataframe,
    without columns and without rows. *)
Theorem get_GO_gene_set_upper_case_names_match_nothing {A : Type}
    (gene_ontology_data : A) (test_gene_list : list value) (w : world)
    (t : DataFrame) (i : nat)
    (Hfile : files w !! "../data/GO_annotations_ecoli.csv" = Some t)
    (Hcol : index_of "gene_name" (columns t) = Some i)
    (Hupper : forall s, Str s ∈ test_gene_list -> lower s <> s) :
  exists r w',
    get_GO_gene_set str_of_num gene_ontology_data test_gene_list w = (Ok r, w')
    /\ heap w' !! r = Some empty_frame.
Proof.
  destruct (get_GO_gene_set_run str_of_num gene_ontology_data test_gene_list
              w t i Hfile Hcol) as (r & w' & Hrun & Hr).
  exists r, w'. split; [done|]. rewrite Hr. f_equal.
  destruct (gene_data_frame_spec
    (set_column t "gene_name" object_
       (map Str (lower_strings str_of_num (iloc_col t i)))) i test_gene_list)
    as (_ & _ & Hempty & _).
  apply Hempty. by apply lowered_names_never_match.
Qed.

End GeneOntologyProps.

Lemma get_GO_gene_set_upper_case_names_match_nothing_witness :
  exists r w',
    get_GO_gene_set (fun _ => "0") tt [Str "araC"; Str "lacZ"]
      annotation_file_example = (Ok r, w')
    /\ heap w' !! r = Some empty_frame.
Proof.
  apply (get_GO_gene_set_upper_case_names_match_nothing (fun _ => "0") tt
           [Str "araC"; Str "lacZ"] annotation_file_example
           mixed_case_example 0%nat).
  - reflexivity.
  - reflexivity.
  - intros s Hs.
    apply elem_of_cons in Hs as [Hs|Hs]; [injection Hs as ->; discriminate|].
    apply elem_of_cons in Hs as [Hs|Hs]; [injection Hs as ->; discriminate|].
    by apply elem_of_nil in Hs.
Defined.

(** With the names in lower case the same call finds the rows. *)
Example get_GO_gene_set_lower_case_names :
  let run := get_GO_gene_set (fun _ => "0") tt [Str "arac"; Str "lacz"]
               annotation_file_example in
  exists r, run.1 = Ok r
    /\ (rows <$> heap run.2 !! r)
       = Some [[Str "arac"; Str "GO:A"]; [Str "lacz"; Str "GO:B"]].
Proof. eexists. split; vm_compute; reflexivity. Qed.

Lemma read_csv_run w path t :
  files w !! path = Some t ->
  read_csv path w = (Ok (length (heap w)), set_heap (heap w ++ [t]) w).
Proof. intros H. unfold read_csv. by rewrite H. Qed.

(** X10.  When the gene list matches at most one distinct row of the
    annotation file (none, for instance), [get_GO_enrichment] returns
    None after printing, in this order, 'No enriched functions found.'
    and 'Enrichment test did not run.'; it raises nothing and writes no
    file. *)
Theorem get_GO_enrichment_too_few_matches (gene_list : list value) (w : world)
    (t : DataFrame) (i : nat)
    (Hfile : files w !! "../data/GO_annotations_ecoli.csv" = Some t)
    (Hcol : index_of "gene_name" (columns t) = Some i)
    (Hfew : (length (drop_seen []
               (List.filter (fun row => py_in (cell i row) gene_list) (rows t)))
             <= 1)%nat) :
  exists w',
    get_GO_enrichment gene_list w = (Ok None, w')
    /\ stdout w' = stdout w ++ ["No enriched functions found.";
                                "Enrichment test did not run."]
    /\ files w' = files w /\ shell w' = shell w.
Proof.
  unfold get_GO_enrichment, load_gene_ontology_data.
  unfold bind at 1. unfold bind at 1. rewrite (read_csv_run _ _ _ Hfile).
  unfold ret at 1. cbv beta iota.
  set (w0 := set_heap (heap w ++ [t]) w).
  assert (heap w0 !! length (heap w) = Some t) as Ht
    by apply lookup_new_frame_new.
  destruct (get_gene_data_run w0 (length (heap w)) "gene_name" gene_list t i
              Ht Hcol) as (r & w1 & Hrun & Hr & Hs & Hf & Hsh & _).
  unfold bind at 1. rewrite Hrun. cbv beta iota.
  unfold bind at 1. rewrite (get_hi_GOs_few_rows _ _ _ Hr).
  2: { by rewrite (Permutation_length (gene_data_frame_perm t i gene_list)). }
  cbv beta iota. unfold bind at 1.
  rewrite get_hyper_test_p_value_nothing_to_test by (by left).
  cbv beta iota. unfold ret. eexists. split; [done|].
  cbn [stdout set_stdout files shell]. rewrite Hs, Hf, Hsh.
  by rewrite <- app_assoc.
Qed.

Lemma get_GO_enrichment_too_few_matches_witness :
  exists w',
    get_GO_enrichment [Str "arac"; Str "araC"] annotation_file_example
    = (Ok None, w')
    /\ stdout w' = stdout annotation_file_example
                   ++ ["No enriched functions found.";
                       "Enrichment test did not run."]
    /\ files w' = files annotation_file_example
    /\ shell w' = shell annotation_file_example.
Proof.
  apply (get_GO_enrichment_too_few_matches [Str "arac"; Str "araC"]
           annotation_file_example mixed_case_example 0%nat).
  - reflexivity.
  - reflexivity.
  - vm_compute. lia.
Defined.

(** ** [get_hyper_test_p_value]: a GO ID that is not in the tables *)

Lemma for_each_app {A S} (xs ys : list A) (body : A -> S -> M S) s w :
  for_each (xs ++ ys) body s w
  = match for_each xs body s w with
    | (Ok s', w') => for_each ys body s' w'
    | (Raise e, w') => (Raise e, w')
    end.
Proof.
  revert s w. induction xs as [|x xs IH]; intros s w; simpl; [done|].
  unfold bind. destruct (body x s w) as [[s'|e] w']; [apply IH|done].
Qed.

Lemma enumerate_from_app {A} (xs ys : list A) k :
  enumerate_from k (xs ++ ys)
  = enumerate_from k xs ++ enumerate_from (k + length xs) ys.
Proof.
  revert k. induction xs as [|x xs IH]; intros k; simpl.
  - by rewrite Nat.add_0_r.
  - rewrite IH. do 3 f_equal. lia.
Qed.

Lemma count_of_absent id col :
  isnull id = true \/ id ∉ col ->
  count_of id (value_counts_unsorted col) = None.
Proof.
  intros H. rewrite value_counts_unsorted_count_of.
  destruct (isnull id); [done|]. destruct H as [H|H]; [done|].
  destruct (occurrences id col) eqn:E; [done|].
  exfalso. apply H, occurrences_pos. lia.
Qed.

(** X11.  [get_hyper_test_p_value] looks every listed GO ID up in the
    value counts of the gene set and of the annotations.  If some listed
    ID, a string as GO IDs are or a missing value, is not among the
    values of one of the two [GO_ID] columns, the call raises KeyError
    for the first such ID; no dataframe is created or changed and nothing
    is printed.  (For a number pandas may look the position up instead of
    the label; the statement leaves that case out.) *)
Theorem get_hyper_test_p_value_unknown_GO_ID (w : world)
    (gene_ontology_data GO_gene_set : ref) (dgo dgs : DataFrame) (i j : nat)
    (known : list value) (unknown : value) (rest : list value)
    (Hgs : heap w !! GO_gene_set = Some dgs)
    (Hgo : heap w !! gene_ontology_data = Some dgo)
    (Hi : index_of "GO_ID" (columns dgs) = Some i)
    (Hj : index_of "GO_ID" (columns dgo) = Some j)
    (Hknown : forall id, id ∈ known ->
       isnull id = false /\ id ∈ iloc_col dgs i /\ id ∈ iloc_col dgo j)
    (Hlabel : forall q, unknown <> Num q)
    (Hunknown : isnull unknown = true \/ unknown ∉ iloc_col dgs i
                \/ unknown ∉ iloc_col dgo j) :
  exists w',
    get_hyper_test_p_value gene_ontology_data GO_gene_set
      (Some (known ++ unknown :: rest)) w = (Raise (KeyError unknown), w')
    /\ heap w' = heap w /\ stdout w' = stdout w /\ files w' = files w.
Proof.
  unfold get_hyper_test_p_value.
  replace (0 <? length (known ++ unknown :: rest))%nat with true
    by (by destruct known).
  cbv beta iota.
  unfold bind at 1. rewrite (load_run _ _ _ Hgs). cbv beta iota.
  unfold bind at 1. rewrite (load_run _ _ _ Hgo). cbv beta iota.
  unfold bind at 1. unfold np_empty at 1. cbv beta iota.
  unfold bind at 1. unfold enumerate.
  rewrite enumerate_from_app, for_each_app.
  rewrite (p_val_loop_run gene_ontology_data GO_gene_set dgo dgs i j
             (length (rows dgs)) (length (rows dgo)) Hi Hj known).
  2-4: done.
  2: { rewrite length_map, length_seq, length_app. simpl. lia. }
  cbn [enumerate_from for_each].
  match goal with
  | |- context [set_junk ?jk (set_junk ?jk0 w)] =>
      set (w1 := set_junk jk (set_junk jk0 w))
  end.
  assert (heap w1 !! GO_gene_set = Some dgs) as Hgs1 by done.
  assert (heap w1 !! gene_ontology_data = Some dgo) as Hgo1 by done.
  unfold bind at 1. unfold bind at 1. rewrite (load_run _ _ _ Hgs1).
  cbv beta iota. unfold bind at 1. unfold getitem at 1. unfold bind at 1.
  rewrite Hi. cbn [lift_option]. unfold ret at 1. cbv beta iota.
  unfold ret at 1. cbv beta iota. fold (iloc_col dgs i).
  unfold bind at 1.
  destruct (count_of unknown (value_counts_unsorted (iloc_col dgs i)))
    as [c|] eqn:Hc.
  - cbn [lift_option]. unfold ret at 1. cbv beta iota.
    unfold bind at 1. rewrite (load_run _ _ _ Hgs1). cbv beta iota.
    unfold bind at 1. rewrite (load_run _ _ _ Hgo1). cbv beta iota.
    unfold bind at 1. unfold getitem at 1. unfold bind at 1.
    rewrite Hj. cbn [lift_option]. unfold ret at 1. cbv beta iota.
    unfold ret at 1. cbv beta iota. fold (iloc_col dgo j).
    unfold bind at 1. rewrite count_of_absent.
    + cbn [lift_option]. unfold raise. by exists w1.
    + rewrite value_counts_unsorted_count_of in Hc.
      destruct (isnull unknown) eqn:Hn; [done|].
      destruct Hunknown as [?|[Hu|Hu]]; [done| |by right].
      destruct (occurrences unknown (iloc_col dgs i)) eqn:E; [done|].
      exfalso. apply Hu, occurrences_pos. lia.
  - cbn [lift_option]. unfold raise. by exists w1.
Qed.

Lemma get_hyper_test_p_value_unknown_GO_ID_witness :
  exists w',
    get_hyper_test_p_value 0%nat 1%nat (Some ([Str "GO:A"] ++ Str "GO:B" :: []))
      (world_of [annotations_example; gene_set_example])
    = (Raise (KeyError (Str "GO:B")), w')
    /\ heap w' = heap (world_of [annotations_example; gene_set_example])
    /\ stdout w' = stdout (world_of [annotations_example; gene_set_example])
    /\ files w' = files (world_of [annotations_example; gene_set_example]).
Proof.
  apply (get_hyper_test_p_value_unknown_GO_ID
           (world_of [annotations_example; gene_set_example]) 0%nat 1%nat
           annotations_example gene_set_example 1%nat 1%nat
           [Str "GO:A"] (Str "GO:B") []).
  - reflexivity.
  - reflexivity.
  - reflexivity.
  - reflexivity.
  - intros id Hid. apply elem_of_cons in Hid as [->|Hid];
      [|by apply elem_of_nil in Hid].
    split; [reflexivity|]. split; vm_compute; set_solver.
  - intros q. discriminate.
  - right. left. vm_compute. set_solver.
Defined.

(** ** [get_hi_GOs]: the order of the result, a missing column *)

Lemma elem_of_insert_by {A} (key : A -> list value) desc x (l : list A) a :
  a ∈ insert_by key desc x l <-> a = x \/ a ∈ l.
Proof. by rewrite (insert_by_perm key desc x l), elem_of_cons. Qed.

Lemma ordered_pair_elem {A} (l : list A) x y :
  ordered_pair l x y -> x ∈ l /\ y ∈ l.
Proof.
  intros (i & j & _ & Hi & Hj). split; apply list_elem_of_lookup; eauto.
Qed.

Section SortOrder.

Context {A : Type} (key : A -> list value) (desc : bool) (R : A -> A -> Prop).
Hypothesis R_before : forall a b, goes_before desc (key a) (key b) = true -> R a b.
Hypothesis R_after : forall a b, goes_before desc (key a) (key b) = false -> R b a.
Hypothesis R_trans : forall a b c, R a b -> R b c -> R a c.

Lemma insert_by_ordered x (l : list A) :
  (forall a b, ordered_pair l a b -> R a b) ->
  forall a b, ordered_pair (insert_by key desc x l) a b -> R a b.
Proof.
  induction l as [|y l IH]; intros Hl a b; simpl.
  - rewrite ordered_pair_cons. intros [[_ Hb]|Hab].
    + by apply elem_of_nil in Hb.
    + by apply ordered_pair_nil in Hab.
  - destruct (goes_before desc (key y) (key x)) eqn:E.
    + rewrite ordered_pair_cons, elem_of_insert_by.
      intros [[<- [->|Hb]]|Hab].
      * by apply R_before.
      * apply Hl. apply ordered_pair_cons. by left.
      * apply IH; [|done]. intros a' b' H'. apply Hl.
        apply ordered_pair_cons. by right.
    + rewrite ordered_pair_cons. intros [[<- Hb]|Hab]; [|by apply Hl].
      apply elem_of_cons in Hb as [->|Hb]; [by apply R_after|].
      apply (R_trans _ y); [by apply R_after|].
      apply Hl. apply ordered_pair_cons. by left.
Qed.

Lemma sort_by_ordered (l : list A) :
  forall a b, ordered_pair (sort_by key desc l) a b -> R a b.
Proof.
  unfold sort_by.
  assert (forall acc, (forall a b, ordered_pair acc a b -> R a b) ->
            forall a b, ordered_pair
              (fold_left (fun acc x => insert_by key desc x acc) l acc) a b ->
            R a b) as H.
  { induction l as [|x l IH]; intros acc Hacc; simpl; [done|].
    apply IH. by apply insert_by_ordered. }
  apply H. intros a b Hab. by apply ordered_pair_nil in Hab.
Qed.

End SortOrder.

Lemma count_key_before (a b : value * nat) :
  goes_before true [Num (inject_Z (Z.of_nat a.2))]
                   [Num (inject_Z (Z.of_nat b.2))] = true
  <-> (b.2 <= a.2)%nat.
Proof.
  unfold goes_before. cbn [key_cmp value_cmp].
  unfold Qcompare. cbn [Qnum Qden inject_Z]. rewrite !Z.mul_1_r.
  destruct (Z.compare_spec (Z.of_nat b.2) (Z.of_nat a.2)); split; intros;
    try done; lia.
Qed.

Lemma value_counts_ordered col (a b : value * nat) :
  ordered_pair (value_counts col) a b -> (b.2 <= a.2)%nat.
Proof.
  unfold value_counts.
  apply (sort_by_ordered _ true (fun a b : value * nat => (b.2 <= a.2)%nat)).
  - intros x y. apply count_key_before.
  - intros x y Hf.
    destruct (decide (x.2 <= y.2)%nat) as [|Hn]; [done|].
    assert (y.2 <= x.2)%nat as H%count_key_before by lia. congruence.
  - intros x y z ? ?. lia.
Qed.

(** X12.  The GO IDs [get_hi_GOs] returns come most frequent first: an
    ID never stands before one that occurs more often in the [GO_ID]
    column of the gene set. *)
Theorem get_hi_GOs_most_frequent_first (w : world) (GO_gene_set : ref)
    (d : DataFrame) (i : nat) (thr : Z)
    (Hd : heap w !! GO_gene_set = Some d)
    (Hcol : index_of "GO_ID" (columns d) = Some i)
    (Hn : (1 < length (rows d))%nat)
    (Hthr : threshold (length (rows d)) = Some thr) :
  exists (res : option (list value)) (w' : world),
    get_hi_GOs GO_gene_set w = (Ok res, w')
    /\ forall x y, ordered_pair (default [] res) x y ->
         (occurrences y (iloc_col d i) <= occurrences x (iloc_col d i))%nat.
Proof.
  pose proof (get_hi_GOs_run w GO_gene_set d i thr Hd Hcol Hthr Hn) as Hrun.
  cbv zeta in Hrun.
  set (hi := map fst (List.filter (fun vc : value * nat => (thr <? Z.of_nat vc.2)%Z)
                        (value_counts (iloc_col d i)))) in *.
  assert (forall x y, ordered_pair hi x y ->
            (occurrences y (iloc_col d i) <= occurrences x (iloc_col d i))%nat)
    as Hord.
  { intros x y Hxy. unfold hi in Hxy.
    apply ordered_pair_map in Hxy as ([x' cx] & [y' cy] & Hp & <- & <-).
    apply ordered_pair_filter in Hp as (Hp & _ & _).
    pose proof (value_counts_ordered _ _ _ Hp) as Hle.
    apply ordered_pair_elem in Hp as [Hx Hy].
    apply value_counts_elem in Hx as (_ & _ & ->).
    apply value_counts_elem in Hy as (_ & _ & ->). done. }
  destruct hi as [|x0 hi0] eqn:E.
  - eexists None, _. split; [exact Hrun|]. intros x y Hxy.
    by apply ordered_pair_nil in Hxy.
  - eexists (Some (x0 :: hi0)), _. split; [exact Hrun|]. exact Hord.
Qed.

Lemma get_hi_GOs_most_frequent_first_witness :
  exists (res : option (list value)) (w' : world),
    get_hi_GOs 0%nat (world_of [annotations_example]) = (Ok res, w')
    /\ forall x y, ordered_pair (default [] res) x y ->
         (occurrences y (iloc_col annotations_example 1)
          <= occurrences x (iloc_col annotations_example 1))%nat.
Proof.
  apply (get_hi_GOs_most_frequent_first (world_of [annotations_example]) 0%nat
           annotations_example 1%nat 0%Z).
  - reflexivity.
  - reflexivity.
  - vm_compute. lia.
  - vm_compute. reflexivity.
Defined.

(** X13.  A gene set of more than one row that has no [GO_ID] column
    makes [get_hi_GOs] raise AttributeError; with at most one row the
    column is never looked at, and the call prints 'No enriched functions
    found.' and returns None whatever the columns are. *)
Theorem get_hi_GOs_without_GO_ID_column (w : world) (GO_gene_set : ref)
    (d : DataFrame)
    (Hd : heap w !! GO_gene_set = Some d)
    (Hcol : index_of "GO_ID" (columns d) = None)
    (Hthr : threshold (length (rows d)) <> None) :
  get_hi_GOs GO_gene_set w
  = if (1 <? length (rows d))%nat
    then (Raise (AttributeError "GO_ID"), w)
    else (Ok None, set_stdout (stdout w ++ ["No enriched functions found."]) w).
Proof.
  destruct (1 <? length (rows d))%nat eqn:E.
  - unfold get_hi_GOs. unfold bind at 1. rewrite (load_run _ _ _ Hd).
    cbv beta iota. unfold bind at 1.
    destruct (threshold (length (rows d))) as [thr|]; [|done].
    cbn [lift_option]. unfold ret at 1. cbv beta iota.
    unfold bind at 1. rewrite (load_run _ _ _ Hd). cbv beta iota.
    rewrite E. unfold bind at 1. rewrite (load_run _ _ _ Hd). cbv beta iota.
    unfold bind at 1. unfold getattr at 1. unfold bind at 1.
    by rewrite Hcol.
  - apply (get_hi_GOs_few_rows _ _ d); [done|]. apply Nat.ltb_ge in E. lia.
Qed.

Lemma get_hi_GOs_without_GO_ID_column_witness :
  get_hi_GOs 0%nat (world_of [constants_example])
  = if (1 <? length (rows constants_example))%nat
    then (Raise (AttributeError "GO_ID"), world_of [constants_example])
    else (Ok None,
          set_stdout (stdout (world_of [constants_example])
                      ++ ["No enriched functions found."])
            (world_of [constants_example])).
Proof.
  apply (get_hi_GOs_without_GO_ID_column (world_of [constants_example]) 0%nat
           constants_example).
  - reflexivity.
  - reflexivity.
  - vm_compute. discriminate.
Defined.

(** ** [download_and_preprocess_data]: when it raises *)

Lemma writes_last_heap_only {A} (m : M A) : heap_only m -> writes_last m.
Proof. intros H w. by destruct (H w) as (? & ? & ? & _). Qed.

Lemma writes_last_bind {A B} (m : M A) (f : A -> M B) :
  heap_only m -> (forall a, writes_last (f a)) -> writes_last (bind m f).
Proof.
  intros Hm Hf w. unfold bind. destruct (Hm w) as (H1 & H2 & H3 & _).
  destruct (m w) as [[a|e] w1]; cbn [fst snd] in *; [|done].
  destruct (Hf a w1) as (K1 & K2 & K3).
  split; [congruence|]. split; [congruence|].
  intros e He. rewrite (K3 e He). done.
Qed.

Lemma writes_last_to_csv (writable : gmap string DataFrame -> string -> bool)
    r path index :
  writes_last (to_csv writable r path index).
Proof.
  intros w. unfold to_csv, bind, load.
  destruct (heap w !! r); [|done]. by destruct (writable (files w) path).
Qed.

Lemma bind_Raise {A B} (m : M A) (f : A -> M B) w e w' :
  bind m f w = (Raise e, w') ->
  m w = (Raise e, w')
  \/ exists a w1, m w = (Ok a, w1) /\ f a w1 = (Raise e, w').
Proof.
  unfold bind. destruct (m w) as [[a|e1] w1]; intros H; [right|left].
  - by exists a, w1.
  - by injection H as -> ->.
Qed.

Section DownloadFailure.

Variable run_shell :
  string -> gmap string DataFrame -> gmap string DataFrame * list string.
Variable pca_reconstruct : DataFrame -> Q -> option (list (list value)).
Variable writable : gmap string DataFrame -> string -> bool.

(** X14.  [download_and_preprocess_data] writes its CSV as its last step,
    and [to_csv] opens the file before it writes: a call that raises, in
    that step (no file can be created at the path) or before it, has
    written no file and printed nothing itself.  The files and the
    standard output are then as it found them when [data_dir] is given;
    when it is not, the [wget] and [unzip] commands have been run all the
    same, and files and output are as those two left them. *)
Theorem download_and_preprocess_data_failure_writes_nothing (org : string)
    (data_dir : option string) (variance_ratio : Q) (output_path : string)
    (w w' : world) (e : exn) :
  download_and_preprocess_data run_shell pca_reconstruct writable org data_dir
    variance_ratio output_path w = (Raise e, w') ->
  let download_cmd := ("wget http://colombos.net/cws_data/compendium_data/"
                         ++ org ++ "_compendium_data.zip")%string in
  let unzip_cmd := ("unzip " ++ org ++ "_compendium_data.zip")%string in
  let after_wget := run_shell download_cmd (files w) in
  let after_unzip := run_shell unzip_cmd after_wget.1 in
  stdout w' = stdout w ++ match data_dir with
                          | Some _ => []
                          | None => after_wget.2 ++ after_unzip.2
                          end
  /\ files w' = match data_dir with
                | Some _ => files w
                | None => after_unzip.1
                end
  /\ shell w' = shell w ++ match data_dir with
                           | Some _ => []
                           | None => [download_cmd; unzip_cmd]
                           end.
Proof.
  intros H download_cmd unzip_cmd after_wget after_unzip.
  unfold download_and_preprocess_data in H.
  match type of H with
  | bind ?m ?f w = _ => set (branch := m) in H; set (rest := f) in H
  end.
  assert (forall r w1, branch w = (r, w1) ->
            stdout w1 = stdout w ++ match data_dir with
                                    | Some _ => []
                                    | None => after_wget.2 ++ after_unzip.2
                                    end
            /\ files w1 = match data_dir with
                          | Some _ => files w
                          | None => after_unzip.1
                          end
            /\ shell w1 = shell w ++ match data_dir with
                                     | Some _ => []
                                     | None => [download_cmd; unzip_cmd]
                                     end) as Hbranch.
  { intros r w1 Hb. unfold branch in Hb. destruct data_dir as [p|].
    - apply heap_only_run in Hb as (? & ? & ? & ?); [|heap_only_tac].
      by rewrite !app_nil_r.
    - unfold bind at 1, os_system at 1 in Hb. cbv beta iota in Hb.
      unfold bind at 1, os_system at 1 in Hb. cbv beta iota in Hb.
      apply heap_only_run in Hb as (K1 & K2 & K3 & K4); [|heap_only_tac].
      cbn [stdout files shell set_shell set_files set_stdout] in *.
      rewrite <- !app_assoc in K1, K3. done. }
  assert (forall df, writes_last (rest df)) as Hrest.
  { intros df. unfold rest.
    do 14 (apply writes_last_bind; [heap_only_tac|intros ?]).
    apply writes_last_to_csv. }
  apply bind_Raise in H as [H|(df & w1 & Hb & H)].
  - by apply Hbranch in H.
  - destruct (Hbranch _ _ Hb) as (B1 & B2 & B3).
    destruct (Hrest df w1) as (R1 & R2 & R3).
    rewrite H in R1, R2, R3. cbn [fst snd] in *.
    rewrite R1, R2, (R3 e eq_refl). done.
Qed.

End DownloadFailure.

Lemma download_and_preprocess_data_failure_writes_nothing_witness :
  let w := world_of [] in
  let w' := (download_and_preprocess_data shell_example pca_example
               (fun _ _ => false) "ecoli" None 1 "out/" w).2 in
  let download_cmd :=
    "wget http://colombos.net/cws_data/compendium_data/ecoli_compendium_data.zip" in
  let unzip_cmd := "unzip ecoli_compendium_data.zip" in
  let after_wget := shell_example download_cmd (files w) in
  let after_unzip := shell_example unzip_cmd after_wget.1 in
  stdout w' = stdout w ++ after_wget.2 ++ after_unzip.2
  /\ files w' = after_unzip.1
  /\ shell w' = shell w ++ [download_cmd; unzip_cmd].
Proof.
  apply (download_and_preprocess_data_failure_writes_nothing shell_example
           pca_example (fun _ _ => false) "ecoli" None 1 "out/" (world_of [])
           (download_and_preprocess_data shell_example pca_example
              (fun _ _ => false) "ecoli" None 1 "out/" (world_of [])).2
           (FileNotFoundError "out/denoised_ecoli.csv")).
  vm_compute. reflexivity.
Defined.

(** ** [col_encoding] and [one_hot_df] *)

Lemma position_lookup v (classes : list value) :
  v ∈ classes -> classes !! position v classes = Some v.
Proof.
  induction classes as [|c classes IH]; intros Hv; [by apply elem_of_nil in Hv|].
  simpl. case_bool_decide as E; [by subst|].
  simpl. apply IH. apply elem_of_cons in Hv as [?|?]; [done|done].
Qed.

Lemma position_lt v (classes : list value) :
  v ∈ classes -> (position v classes < length classes)%nat.
Proof. intros Hv. eapply lookup_lt_Some. by apply position_lookup. Qed.

Lemma indicator_lookup k c j :
  (j < k)%nat -> indicator k c !! j = Some (if (j =? c)%nat then 1%Q else 0%Q).
Proof.
  intros Hj. unfold indicator. change (map ?f ?l) with (f <$> l).
  by rewrite list_lookup_fmap, lookup_seq_lt.
Qed.

Lemma indicator_inj k c c' :
  (c < k)%nat -> indicator k c = indicator k c' -> c = c'.
Proof.
  intros Hc H. assert (indicator k c !! c = indicator k c' !! c) as E
    by (by rewrite H).
  rewrite !indicator_lookup in E by done. rewrite Nat.eqb_refl in E.
  destruct (c =? c')%nat eqn:Ec; [by apply Nat.eqb_eq|done].
Qed.

Lemma label_classes_elem col classes v :
  label_classes col = Some classes -> (v ∈ classes <-> v ∈ col).
Proof.
  unfold label_classes. destruct (_ && _); [done|]. intros [= <-].
  rewrite sort_by_perm, drop_seen_elem. split; [by intros [? _]|].
  intros ?. split; [done|apply not_elem_of_nil].
Qed.

Lemma label_classes_length col classes :
  label_classes col = Some classes ->
  length classes = length (drop_seen [] col).
Proof.
  unfold label_classes. destruct (_ && _); [done|]. intros [= <-].
  by rewrite sort_by_perm.
Qed.

Lemma col_encoding_Ok df column w m w' d i :
  heap w !! df = Some d ->
  index_of column (columns d) = Some i ->
  col_encoding df column w = (Ok m, w') ->
  w' = w /\ rows d <> []
  /\ exists classes, label_classes (iloc_col d i) = Some classes
       /\ m = map (fun v => indicator (length classes) (position v classes))
                  (iloc_col d i).
Proof.
  intros Hd Hi H. unfold col_encoding in H.
  apply bind_Ok in H as (d' & ? & [Hd' ->]%load_Ok & H).
  assert (d' = d) as -> by congruence.
  apply bind_Ok in H as (col & ? & (i' & Hi' & -> & ->)%getitem_Ok & H).
  assert (i' = i) as -> by congruence.
  apply bind_Ok in H as (classes & ? & [Hcl ->]%lift_option_Ok & H).
  destruct (map (fun v => position v classes) (iloc_col d i)) as [|l ls] eqn:E;
    [done|].
  injection H as <- <-. split; [done|]. split.
  - intros Hr. unfold iloc_col in E. by rewrite Hr in E.
  - exists classes. split; [done|].
    change (map (fun l0 => indicator (length classes) l0) (l :: ls)
            = map (fun v => indicator (length classes) (position v classes))
                  (iloc_col d i)).
    rewrite <- E. by rewrite map_map.
Qed.

(** X15.  When [col_encoding] returns, the matrix has one row for every
    row of the dataframe.  Each row is an indicator vector, all zeros but
    for a single one, as wide as the column has distinct values; two rows
    of the matrix are the same exactly when the two cells of the column
    are.  The world is left as it was. *)
Theorem col_encoding_rows_are_indicators (w w' : world) (df : ref)
    (d : DataFrame) (column : string) (i : nat) (m : list (list Q))
    (Hd : heap w !! df = Some d)
    (Hi : index_of column (columns d) = Some i)
    (Hrun : col_encoding df column w = (Ok m, w')) :
  let k := length (drop_seen [] (iloc_col d i)) in
  w' = w
  /\ length m = length (rows d)
  /\ (forall row, row ∈ m -> exists c, (c < k)%nat /\ row = indicator k c)
  /\ (forall p q rp rq, m !! p = Some rp -> m !! q = Some rq ->
        (rp = rq <-> iloc_col d i !! p = iloc_col d i !! q)).
Proof.
  intros k.
  destruct (col_encoding_Ok _ _ _ _ _ _ _ Hd Hi Hrun)
    as (-> & Hne & classes & Hcl & ->).
  pose proof (label_classes_length _ _ Hcl) as Hk. fold k in Hk.
  split; [done|]. split; [|split].
  - unfold iloc_col. by rewrite !length_map.
  - intros row Hrow. change (map ?f ?l) with (f <$> l) in Hrow.
    apply list_elem_of_fmap in Hrow as (v & -> & Hv).
    exists (position v classes). rewrite Hk. split; [|done].
    rewrite <- Hk. apply position_lt. by apply (label_classes_elem _ _ _ Hcl).
  - intros p q rp rq Hp Hq. change (map ?f ?l) with (f <$> l) in Hp, Hq.
    apply list_lookup_fmap_Some in Hp as (vp & -> & Hp).
    apply list_lookup_fmap_Some in Hq as (vq & -> & Hq).
    rewrite Hp, Hq.
    assert (vp ∈ classes) as Hvp.
    { apply (label_classes_elem _ _ _ Hcl), list_elem_of_lookup. eauto. }
    assert (vq ∈ classes) as Hvq.
    { apply (label_classes_elem _ _ _ Hcl), list_elem_of_lookup. eauto. }
    split.
    + intros E. apply indicator_inj in E; [|by apply position_lt].
      pose proof (position_lookup _ _ Hvp) as E1.
      pose proof (position_lookup _ _ Hvq) as E2.
      rewrite E in E1. congruence.
    + by intros [= ->].
Qed.

Lemma col_encoding_rows_are_indicators_witness :
  let w := world_of [category_example] in
  let m := [[1; 0]; [0; 1]; [0; 1]]%Q in
  let k := length (drop_seen [] (iloc_col category_example 1)) in
  w = w
  /\ length m = length (rows category_example)
  /\ (forall row, row ∈ m -> exists c, (c < k)%nat /\ row = indicator k c)
  /\ (forall p q rp rq, m !! p = Some rp -> m !! q = Some rq ->
        (rp = rq <-> iloc_col category_example 1 !! p
                     = iloc_col category_example 1 !! q)).
Proof.
  apply (col_encoding_rows_are_indicators (world_of [category_example])
           (world_of [category_example]) 0%nat category_example "strand" 1%nat
           [[1; 0]; [0; 1]; [0; 1]]%Q).
  - reflexivity.
  - reflexivity.
  - vm_compute. reflexivity.
Defined.

Lemma encoding_of_run df col w d m :
  heap w !! df = Some d ->
  encoding_of d col = Some m ->
  col_encoding df col w = (Ok m, w).
Proof.
  intros Hd H. unfold encoding_of in H.
  destruct (index_of col (columns d)) as [i|] eqn:Hi; [|done].
  cbn [mbind option_bind] in H.
  destruct (label_classes (iloc_col d i)) as [classes|] eqn:Hcl; [|done].
  cbn [mbind option_bind] in H.
  unfold col_encoding. unfold bind at 1. rewrite (load_run _ _ _ Hd).
  cbv beta iota. unfold bind at 1. unfold getitem at 1. unfold bind at 1.
  rewrite Hi. cbn [lift_option]. unfold ret at 1. cbv beta iota.
  unfold ret at 1. cbv beta iota. fold (iloc_col d i).
  unfold bind at 1. rewrite Hcl. cbn [lift_option]. unfold ret at 1.
  cbv beta iota.
  destruct (rows d) as [|r rs] eqn:Hr; [done|]. injection H as <-.
  unfold iloc_col. rewrite Hr. cbn [map]. unfold ret, indicator.
  by rewrite (map_map (fun v => position v classes)).
Qed.

Lemma col_encoding_encoding_of df col w d m w' :
  heap w !! df = Some d ->
  col_encoding df col w = (Ok m, w') ->
  encoding_of d col = Some m.
Proof.
  intros Hd H. unfold encoding_of.
  destruct (index_of col (columns d)) as [i|] eqn:Hi.
  - destruct (col_encoding_Ok _ _ _ _ _ _ _ Hd Hi H)
      as (_ & Hne & classes & Hcl & ->).
    cbn [mbind option_bind]. rewrite Hcl. cbn [mbind option_bind].
    by destruct (rows d).
  - unfold col_encoding in H.
    apply bind_Ok in H as (d' & ? & [Hd' ->]%load_Ok & H).
    assert (d' = d) as -> by congruence.
    apply bind_Ok in H as (c & ? & (i' & Hi' & _)%getitem_Ok & H). congruence.
Qed.

Lemma encoding_of_shape d col m :
  encoding_of d col = Some m ->
  length m = length (rows d) /\ rows d <> []
  /\ shape_1 m = distinct_values d col
  /\ forall row, row ∈ m ->
       exists c, (c < distinct_values d col)%nat
                 /\ row = indicator (distinct_values d col) c.
Proof.
  unfold encoding_of, distinct_values.
  destruct (index_of col (columns d)) as [i|] eqn:Hi; [|done].
  cbn [mbind option_bind].
  destruct (label_classes (iloc_col d i)) as [classes|] eqn:Hcl; [|done].
  cbn [mbind option_bind]. rewrite <- (label_classes_length _ _ Hcl).
  destruct (rows d) as [|r rs] eqn:Hr; [done|]. intros [= <-].
  split; [|split; [done|split]].
  - unfold iloc_col. by rewrite !length_map, Hr.
  - unfold iloc_col. rewrite Hr. cbn [map shape_1]. unfold indicator.
    by rewrite length_map, length_seq.
  - intros row Hrow. change (map ?f ?l) with (f <$> l) in Hrow.
    apply list_elem_of_fmap in Hrow as (v & -> & Hv).
    exists (position v classes). split; [|done].
    apply position_lt. by apply (label_classes_elem _ _ _ Hcl).
Qed.

Lemma one_hot_df_loop df d cols : forall w h acc,
  heap w !! df = Some d ->
  heap w !! h = Some acc ->
  (forall col, col ∈ cols -> is_Some (encoding_of d col)) ->
  exists r w',
    for_each cols (fun col df_hot =>
      encoded_matrix <- col_encoding df col ;;
      df_ <- new_frame
        (mkDataFrame
           (map (fun i => (col ++ " " ++ str_of_nat i)%string)
                (seq 0 (shape_1 encoded_matrix)))
           (replicate (shape_1 encoded_matrix) float64)
           (map (map Num) encoded_matrix)) ;;
      pd_concat_axis1 df_hot df_) h w = (Ok r, w')
    /\ heap w' !! r = Some (fold_left (hot_step d) cols acc)
    /\ heap w' !! df = Some d
    /\ same_io w w'.
Proof.
  induction cols as [|col cols IH]; intros w h acc Hd Hh Hcols.
  - exists h, w. cbn [for_each fold_left]. unfold ret.
    split; [done|]. split; [done|]. split; [done|apply same_io_refl].
  - destruct (Hcols col) as [m Hm]; [left|].
    cbn [for_each fold_left]. unfold bind at 1. unfold bind at 1.
    rewrite (encoding_of_run _ _ _ _ _ Hd Hm). cbv beta iota.
    unfold bind at 1. unfold new_frame at 1. cbv beta iota.
    fold (hot_block col m).
    set (w1 := set_heap (heap w ++ [hot_block col m]) w).
    assert (heap w1 !! h = Some acc) as Hh1 by (by apply lookup_new_frame_old).
    assert (heap w1 !! length (heap w) = Some (hot_block col m)) as Hb
      by apply lookup_new_frame_new.
    unfold pd_concat_axis1. unfold bind at 1. rewrite (load_run _ _ _ Hh1).
    cbv beta iota. unfold bind at 1. rewrite (load_run _ _ _ Hb).
    cbv beta iota. unfold new_frame at 1.
    set (w2 := set_heap (heap w1 ++ [concat_columns acc (hot_block col m)]) w1).
    destruct (IH w2 (length (heap w1)) (hot_step d acc col))
      as (r & w' & Hrun & Hr & Hdf & Hio).
    + apply lookup_new_frame_old. by apply lookup_new_frame_old.
    + unfold hot_step. rewrite Hm. apply lookup_new_frame_new.
    + intros c Hc. apply Hcols. by right.
    + exists r, w'. split; [exact Hrun|]. split; [done|]. split; [done|].
      eapply same_io_trans; [|exact Hio]. by repeat split.
Qed.

Lemma columns_hot_fold d cols : forall acc,
  (forall col, col ∈ cols -> is_Some (encoding_of d col)) ->
  columns (fold_left (hot_step d) cols acc)
  = columns acc
    ++ flat_map (fun col => map (fun j => (col ++ " " ++ str_of_nat j)%string)
                              (seq 0 (distinct_values d col))) cols.
Proof.
  induction cols as [|col cols IH]; intros acc Hcols; cbn [fold_left flat_map].
  - by rewrite app_nil_r.
  - rewrite IH by (intros c Hc; apply Hcols; by right).
    destruct (Hcols col) as [m Hm]; [left|].
    unfold hot_step. rewrite Hm. cbn [default id columns concat_columns hot_block].
    destruct (encoding_of_shape _ _ _ Hm) as (_ & _ & -> & _).
    by rewrite <- app_assoc.
Qed.

Lemma zip_rows_map {X} (A B : X -> list value) wa wb (l : list X) :
  zip_rows wa wb (map A l) (map B l) = map (fun p => A p ++ B p) l.
Proof. induction l as [|x l IH]; cbn; [done|]. by rewrite IH. Qed.

Lemma map_as_nth {X Y} (f : X -> Y) (l : list X) (dflt : X) :
  map f l = map (fun p => f (nth p l dflt)) (seq 0 (length l)).
Proof.
  induction l as [|x l IH]; cbn [map length seq]; [done|].
  f_equal. by rewrite <- seq_shift, map_map.
Qed.

Lemma rows_hot_block d col m :
  encoding_of d col = Some m ->
  rows (hot_block col m)
  = map (fun p => map Num (nth p m [])) (seq 0 (length (rows d))).
Proof.
  intros Hm. destruct (encoding_of_shape _ _ _ Hm) as (<- & _).
  cbn [rows hot_block]. apply map_as_nth.
Qed.

Lemma rows_hot_fold d cols : forall done_ acc,
  (forall col, col ∈ cols -> is_Some (encoding_of d col)) ->
  (done_ = [] -> columns acc = []) ->
  rows acc = match done_ with
             | [] => []
             | _ => map (hot_row d done_) (seq 0 (length (rows d)))
             end ->
  rows (fold_left (hot_step d) cols acc)
  = match done_ ++ cols with
    | [] => []
    | _ => map (hot_row d (done_ ++ cols)) (seq 0 (length (rows d)))
    end.
Proof.
  induction cols as [|col cols IH]; intros done_ acc Hcols Hempty Hacc;
    cbn [fold_left].
  - by rewrite app_nil_r.
  - replace (done_ ++ col :: cols) with ((done_ ++ [col]) ++ cols)
      by (by rewrite <- app_assoc).
    apply IH; [intros c Hc; apply Hcols; by right|by destruct done_|].
    destruct (Hcols col) as [m Hm]; [left|].
    unfold hot_step. rewrite Hm. cbn [default id rows concat_columns].
    rewrite (rows_hot_block _ _ _ Hm), Hacc.
    assert (forall p, hot_row d (done_ ++ [col]) p
                      = hot_row d done_ p ++ map Num (nth p m [])) as Hrow.
    { intros p. unfold hot_row. rewrite flat_map_app. cbn [flat_map].
      rewrite Hm. cbn [default id]. by rewrite app_nil_r. }
    destruct done_ as [|c0 done_].
    + cbn [app]. cbn [zip_rows]. rewrite Hempty by done. rewrite map_map.
      apply map_ext. intros p. by rewrite Hrow.
    + cbn [app]. rewrite zip_rows_map. apply map_ext. intros p.
      by rewrite <- Hrow.
Qed.

Lemma occurrences_indicator_from k c a :
  occurrences (Num 1)
    (map Num (map (fun j => if (j =? c)%nat then 1%Q else 0%Q) (seq a k)))
  = if bool_decide (a <= c < a + k)%nat then 1%nat else 0%nat.
Proof.
  revert a. induction k as [|k IH]; intros a.
  - cbn. case_bool_decide; [lia|done].
  - cbn [seq map]. unfold occurrences in *. cbn [List.filter].
    specialize (IH (S a)). destruct (a =? c)%nat eqn:E.
    + apply Nat.eqb_eq in E as ->. rewrite bool_decide_eq_true_2 by done.
      cbn [length]. rewrite IH. rewrite bool_decide_eq_false_2 by lia.
      rewrite bool_decide_eq_true_2 by lia. done.
    + apply Nat.eqb_neq in E. rewrite bool_decide_eq_false_2 by done.
      rewrite IH. repeat case_bool_decide; try done; lia.
Qed.

Lemma occurrences_app x (l1 l2 : list value) :
  occurrences x (l1 ++ l2) = (occurrences x l1 + occurrences x l2)%nat.
Proof. unfold occurrences. by rewrite List.filter_app, length_app. Qed.

Lemma indicator_cells k c x : x ∈ indicator k c -> x = 0%Q \/ x = 1%Q.
Proof.
  unfold indicator. change (map ?f ?l) with (f <$> l).
  intros (j & -> & _)%list_elem_of_fmap. destruct (j =? c)%nat; auto.
Qed.

Lemma hot_row_spec d cols p :
  (forall col, col ∈ cols -> is_Some (encoding_of d col)) ->
  (p < length (rows d))%nat ->
  occurrences (Num 1) (hot_row d cols p) = length cols
  /\ forall x, x ∈ hot_row d cols p -> x = Num 0 \/ x = Num 1.
Proof.
  intros Hcols Hp. induction cols as [|col cols IH].
  - split; [done|]. intros x Hx. by apply elem_of_nil in Hx.
  - destruct IH as [IH1 IH2]; [intros c Hc; apply Hcols; by right|].
    destruct (Hcols col) as [m Hm]; [left|].
    destruct (encoding_of_shape _ _ _ Hm) as (Hlen & _ & _ & Hrows).
    assert (nth p m [] ∈ m) as Hin.
    { apply list_elem_of_In, nth_In. lia. }
    destruct (Hrows _ Hin) as (c & Hc & Hrow).
    unfold hot_row in *. cbn [flat_map]. rewrite Hm. cbn [default id].
    rewrite Hrow. split.
    + rewrite occurrences_app, IH1. unfold indicator.
      rewrite occurrences_indicator_from.
      rewrite bool_decide_eq_true_2 by lia. done.
    + intros x Hx. apply elem_of_app in Hx as [Hx|Hx]; [|by apply IH2].
      change (map Num ?l) with (Num <$> l) in Hx.
      apply list_elem_of_fmap in Hx as (q & -> & Hq).
      apply indicator_cells in Hq as [-> | ->]; auto.
Qed.

(** X16.  When every listed column can be encoded, [one_hot_df] returns a
    new dataframe whose columns are, for each listed column in order, its
    label followed by a space and 0, 1, ... up to the number of its
    distinct values.  Unless the list is empty the result has as many
    rows as the input; every cell is 0 or 1, and every row holds exactly
    one 1 per listed column.  The input is left as it was. *)
Theorem one_hot_df_labels_and_rows (w : world) (df : ref) (d : DataFrame)
    (cat_col_list : list string)
    (Hd : heap w !! df = Some d)
    (Hcols : forall col, col ∈ cat_col_list ->
               exists m, col_encoding df col w = (Ok m, w)) :
  exists r w' hot,
    one_hot_df df cat_col_list w = (Ok r, w')
    /\ heap w' !! r = Some hot
    /\ heap w' !! df = Some d
    /\ columns hot
       = flat_map (fun col => map (fun j => (col ++ " " ++ str_of_nat j)%string)
                                  (seq 0 (distinct_values d col))) cat_col_list
    /\ (cat_col_list <> [] -> length (rows hot) = length (rows d))
    /\ forall row, row ∈ rows hot ->
         occurrences (Num 1) row = length cat_col_list
         /\ forall x, x ∈ row -> x = Num 0 \/ x = Num 1.
Proof.
  assert (forall col, col ∈ cat_col_list -> is_Some (encoding_of d col)) as He.
  { intros col Hc. destruct (Hcols col Hc) as [m Hm]. exists m.
    by apply (col_encoding_encoding_of df col w d m w). }
  unfold one_hot_df. unfold bind at 1. unfold new_frame at 1. cbv beta iota.
  set (w0 := set_heap (heap w ++ [empty_frame]) w).
  destruct (one_hot_df_loop df d cat_col_list w0 (length (heap w)) empty_frame)
    as (r & w' & Hrun & Hr & Hdf & _).
  { by apply lookup_new_frame_old. }
  { apply lookup_new_frame_new. }
  { done. }
  exists r, w', (fold_left (hot_step d) cat_col_list empty_frame).
  split; [exact Hrun|]. split; [done|]. split; [done|].
  pose proof (rows_hot_fold d cat_col_list [] empty_frame He (fun _ => eq_refl)
                eq_refl) as Hrows.
  cbn [app] in Hrows.
  split; [by rewrite columns_hot_fold|]. split.
  - intros Hne. rewrite Hrows. destruct cat_col_list; [done|].
    by rewrite length_map, length_seq.
  - intros row Hrow. rewrite Hrows in Hrow.
    destruct cat_col_list as [|c0 cs] eqn:E; [by apply elem_of_nil in Hrow|].
    rewrite <- E in *. change (map ?f ?l) with (f <$> l) in Hrow.
    apply list_elem_of_fmap in Hrow as (p & -> & Hp).
    apply elem_of_seq in Hp. apply hot_row_spec; [done|lia].
Qed.

Lemma one_hot_df_labels_and_rows_witness :
  exists r w' hot,
    one_hot_df 0%nat ["strand"; "gene_name"] (world_of [category_example])
    = (Ok r, w')
    /\ heap w' !! r = Some hot
    /\ heap w' !! 0%nat = Some category_example
    /\ columns hot
       = flat_map (fun col => map (fun j => (col ++ " " ++ str_of_nat j)%string)
                                  (seq 0 (distinct_values category_example col)))
           ["strand"; "gene_name"]
    /\ (["strand"; "gene_name"] <> [] ->
        length (rows hot) = length (rows category_example))
    /\ forall row, row ∈ rows hot ->
         occurrences (Num 1) row = length ["strand"; "gene_name"]
         /\ forall x, x ∈ row -> x = Num 0 \/ x = Num 1.
Proof.
  apply (one_hot_df_labels_and_rows (world_of [category_example]) 0%nat
           category_example ["strand"; "gene_name"]).
  - reflexivity.
  - intros col Hc.
    apply elem_of_cons in Hc as [->|Hc]; [eexists; vm_compute; reflexivity|].
    apply elem_of_cons in Hc as [->|Hc]; [eexists; vm_compute; reflexivity|].
    by apply elem_of_nil in Hc.
Defined.

Example one_hot_df_example :
  let run := one_hot_df 0%nat ["strand"] (world_of [category_example]) in
  exists r, run.1 = Ok r
    /\ heap run.2 !! r
       = Some (mkDataFrame ["strand 0"; "strand 1"] [float64; float64]
                 [[Num 1; Num 0]; [Num 0; Num 1]; [Num 0; Num 1]]).
Proof. eexists. split; vm_compute; reflexivity. Qed.

(** ** [get_network_clusters] and [get_network_hubs] *)

Lemma has_module_spec G i n : has_module G i n = true <-> in_module G i n.
Proof.
  unfold has_module, in_module. split.
  - destruct (node G n) as [attrs|]; [|done].
    destruct (attrs !! "modularity") as [m|] eqn:Hm; [|done].
    intros [-> _]%py_eqb_eq. by exists attrs.
  - intros (attrs & -> & ->). by apply py_eqb_refl.
Qed.

Lemma in_module_unique G i j n : in_module G i n -> in_module G j n -> i = j.
Proof.
  intros (a1 & H1 & M1) (a2 & H2 & M2).
  assert (a1 = a2) as -> by congruence. rewrite M1 in M2.
  injection M2 as E. lia.
Qed.

Lemma cluster_loop_run G i ns w : forall acc,
  (forall n, n ∈ ns -> exists attrs, node G n = Some attrs
                         /\ is_Some (attrs !! "modularity")) ->
  for_each ns (fun n cluster_lcc =>
    attrs <- lift_option (node G n) (KeyError (Str n)) ;;
    modularity <- lift_option (attrs !! "modularity")
                              (KeyError (Str "modularity")) ;;
    if py_eqb modularity (Num (inject_Z (Z.of_nat i)))
    then ret (cluster_lcc ++ [n])
    else ret cluster_lcc) acc w
  = (Ok (acc ++ List.filter (has_module G i) ns), w).
Proof.
  induction ns as [|n ns IH]; intros acc Hns; cbn [for_each List.filter].
  - by rewrite app_nil_r.
  - destruct (Hns n) as (attrs & Hn & [m Hm]); [left|].
    unfold bind at 1. unfold bind at 1. rewrite Hn. cbn [lift_option].
    unfold ret at 1. cbv beta iota. unfold bind at 1. rewrite Hm.
    cbn [lift_option]. unfold ret at 1. cbv beta iota.
    unfold has_module at 1. rewrite Hn, Hm.
    destruct (py_eqb m (Num (inject_Z (Z.of_nat i)))).
    + unfold ret at 1. cbv beta iota.
      rewrite IH by (intros x Hx; apply Hns; by right).
      by rewrite <- app_assoc.
    + unfold ret at 1. cbv beta iota.
      apply IH. intros x Hx. apply Hns. by right.
Qed.

Lemma clusters_loop_run G w ks : forall acc,
  (forall n, n ∈ nodes G -> exists attrs, node G n = Some attrs
                              /\ is_Some (attrs !! "modularity")) ->
  for_each ks (fun i cluster_list =>
    cluster_lcc <-
      for_each (nodes G) (fun n cluster_lcc =>
        attrs <- lift_option (node G n) (KeyError (Str n)) ;;
        modularity <- lift_option (attrs !! "modularity")
                                  (KeyError (Str "modularity")) ;;
        if py_eqb modularity (Num (inject_Z (Z.of_nat i)))
        then ret (cluster_lcc ++ [n])
        else ret cluster_lcc) [] ;;
    ret (cluster_list ++ [cluster_lcc])) acc w
  = (Ok (acc ++ map (fun i => List.filter (has_module G i) (nodes G)) ks), w).
Proof.
  induction ks as [|k ks IH]; intros acc HG; cbn [for_each map].
  - by rewrite app_nil_r.
  - unfold bind at 1. unfold bind at 1.
    rewrite (cluster_loop_run G k (nodes G) w [] HG). cbv beta iota.
    unfold ret at 1. cbv beta iota. rewrite IH by done.
    by rewrite <- app_assoc.
Qed.

Lemma node_of_elem G n : n ∈ nodes G -> exists attrs, node G n = Some attrs.
Proof.
  unfold nodes, node. induction G as [|[n' a] G IH]; cbn [map List.find].
  - by intros ?%elem_of_nil.
  - intros Hn. cbn [fst]. case_bool_decide as E; [by exists a|].
    apply IH. apply elem_of_cons in Hn as [?|?]; [by subst|done].
Qed.

Lemma NoDup_filter_list {X} (P : X -> bool) (l : list X) :
  NoDup l -> NoDup (List.filter P l).
Proof.
  induction 1 as [|x l Hx Hl IH]; cbn [List.filter]; [constructor|].
  destruct (P x); [|done]. constructor; [|done].
  rewrite list_elem_of_In, filter_In, <- list_elem_of_In. by intros [? _].
Qed.

Lemma elem_of_cluster_concat G ns ks x :
  x ∈ concat (map (fun i => List.filter (has_module G i) ns) ks)
  <-> x ∈ ns /\ exists i, i ∈ ks /\ in_module G i x.
Proof.
  induction ks as [|k ks IH]; cbn [map concat].
  - split; [by intros ?%elem_of_nil|]. by intros (_ & i & ?%elem_of_nil & _).
  - rewrite elem_of_app, IH, list_elem_of_In, filter_In, <- list_elem_of_In,
      has_module_spec.
    split.
    + intros [[? ?]|(? & i & ? & ?)].
      * split; [done|]. exists k. split; [left|done].
      * split; [done|]. exists i. split; [by right|done].
    + intros (? & i & [->|?]%elem_of_cons & ?); [by left|].
      right. split; [done|]. by exists i.
Qed.

Lemma NoDup_cluster_concat G ns ks :
  NoDup ns -> NoDup ks ->
  NoDup (concat (map (fun i => List.filter (has_module G i) ns) ks)).
Proof.
  intros Hns. induction 1 as [|k ks Hk Hks IH]; cbn [map concat]; [constructor|].
  apply NoDup_app. split; [by apply NoDup_filter_list|]. split; [|done].
  intros x Hx Hx'.
  rewrite list_elem_of_In, filter_In, <- list_elem_of_In, has_module_spec in Hx.
  apply elem_of_cluster_concat in Hx' as (_ & i & Hi & Hm).
  destruct Hx as [_ Hx]. assert (k = i) as -> by (by eapply in_module_unique).
  done.
Qed.

(** X17.  On a graph whose nodes all carry a [modularity] attribute,
    [get_network_clusters] returns [n_clusters] lists.  A node is in list
    [i] exactly when its modularity is [i], so no node is in two lists or
    twice in one, and the order within a list is the graph's.  Nodes whose
    modularity is not among 0, ..., [n_clusters - 1] are left out without
    notice; when there are none, the lists partition the nodes. *)
Theorem get_network_clusters_groups_by_modularity (network_lcc : Graph)
    (n_clusters : Z) (w : world)
    (Hnodes : NoDup (nodes network_lcc))
    (Hattr : forall n attrs, node network_lcc n = Some attrs ->
               is_Some (attrs !! "modularity")) :
  exists cluster_list,
    get_network_clusters network_lcc n_clusters w = (Ok cluster_list, w)
    /\ length cluster_list = Z.to_nat n_clusters
    /\ (forall i cluster, cluster_list !! i = Some cluster ->
          cluster = List.filter (has_module network_lcc i) (nodes network_lcc)
          /\ forall n, n ∈ cluster
               <-> n ∈ nodes network_lcc /\ in_module network_lcc i n)
    /\ NoDup (concat cluster_list)
    /\ ((forall n, n ∈ nodes network_lcc ->
           exists i, (i < Z.to_nat n_clusters)%nat /\ in_module network_lcc i n) ->
        concat cluster_list ≡ₚ nodes network_lcc).
Proof.
  assert (forall n, n ∈ nodes network_lcc ->
            exists attrs, node network_lcc n = Some attrs
                          /\ is_Some (attrs !! "modularity")) as HG.
  { intros n Hn. destruct (node_of_elem _ _ Hn) as [attrs Ha].
    exists attrs. split; [done|]. by eapply Hattr. }
  eexists. split.
  { unfold get_network_clusters. by rewrite clusters_loop_run. }
  cbn [app]. split; [by rewrite length_map, length_seq|]. split; [|split].
  - intros i cluster Hc. change (map ?f ?l) with (f <$> l) in Hc.
    apply list_lookup_fmap_Some in Hc as (j & -> & Hj).
    apply lookup_seq in Hj as [-> _]. cbn [Nat.add]. split; [done|].
    intros n. by rewrite list_elem_of_In, filter_In, <- list_elem_of_In,
      has_module_spec.
  - apply NoDup_cluster_concat; [done|apply NoDup_seq].
  - intros Hall. apply NoDup_Permutation.
    + apply NoDup_cluster_concat; [done|apply NoDup_seq].
    + done.
    + intros x. rewrite elem_of_cluster_concat. split; [by intros [? _]|].
      intros Hx. split; [done|]. destruct (Hall x Hx) as (i & Hi & Hm).
      exists i. split; [|done]. apply elem_of_seq. lia.
Qed.

Lemma get_network_clusters_groups_by_modularity_witness :
  exists cluster_list,
    get_network_clusters network_example 2 (world_of [])
    = (Ok cluster_list, world_of [])
    /\ length cluster_list = Z.to_nat 2
    /\ (forall i cluster, cluster_list !! i = Some cluster ->
          cluster = List.filter (has_module network_example i)
                                (nodes network_example)
          /\ forall n, n ∈ cluster
               <-> n ∈ nodes network_example /\ in_module network_example i n)
    /\ NoDup (concat cluster_list)
    /\ ((forall n, n ∈ nodes network_example ->
           exists i, (i < Z.to_nat 2)%nat /\ in_module network_example i n) ->
        concat cluster_list ≡ₚ nodes network_example).
Proof.
  apply (get_network_clusters_groups_by_modularity network_example 2
           (world_of [])).
  - vm_compute. repeat constructor; set_solver.
  - intros n attrs H. unfold node, network_example in H. cbn [List.find fst] in H.
    repeat (case_bool_decide; [injection H as <-; by eexists|]).
    done.
Defined.

Example get_network_clusters_example :
  (get_network_clusters network_example 2 (world_of [])).1
  = Ok [["araC"; "crp"]; ["lacI"]].
Proof. vm_compute. reflexivity. Qed.

(** X18.  [get_network_clusters] reads the attribute of every node for
    every cluster number: if some node has no [modularity] attribute and
    [n_clusters] is at least one, the call raises KeyError and returns no
    list at all.  With [n_clusters] below one the graph is never looked at
    and the result is the empty list. *)
Theorem get_network_clusters_missing_attribute (network_lcc : Graph)
    (n_clusters : Z) (w : world) (n : string) (attrs : gmap string value)
    (Hn : n ∈ nodes network_lcc)
    (Hattrs : node network_lcc n = Some attrs)
    (Hnone : attrs !! "modularity" = None) :
  get_network_clusters network_lcc n_clusters w
  = if (0 <? n_clusters)%Z
    then (Raise (KeyError (Str "modularity")), w)
    else (Ok [], w).
Proof.
  unfold get_network_clusters.
  destruct (0 <? n_clusters)%Z eqn:E.
  - apply Z.ltb_lt in E.
    destruct (Z.to_nat n_clusters) as [|k] eqn:Ek; [lia|].
    cbn [seq for_each]. unfold bind at 1. unfold bind at 1.
    assert (forall ns acc, n ∈ ns ->
      (forall x, x ∈ ns -> x ∈ nodes network_lcc) ->
      for_each ns (fun n cluster_lcc =>
        attrs <- lift_option (node network_lcc n) (KeyError (Str n)) ;;
        modularity <- lift_option (attrs !! "modularity")
                                  (KeyError (Str "modularity")) ;;
        if py_eqb modularity (Num (inject_Z (Z.of_nat 0)))
        then ret (cluster_lcc ++ [n])
        else ret cluster_lcc) acc w
      = (Raise (KeyError (Str "modularity")), w)) as Hloop.
    { induction ns as [|x ns IH]; intros acc Hin Hsub;
        [by apply elem_of_nil in Hin|].
      cbn [for_each]. unfold bind at 1. unfold bind at 1.
      destruct (node_of_elem network_lcc x) as [ax Hax]; [apply Hsub; left|].
      rewrite Hax. cbn [lift_option]. unfold ret at 1. cbv beta iota.
      unfold bind at 1.
      destruct (ax !! "modularity") as [m|] eqn:Hm.
      - cbn [lift_option]. unfold ret at 1. cbv beta iota.
        assert (n ∈ ns) as Hin'.
        { apply elem_of_cons in Hin as [->|?]; [congruence|done]. }
        destruct (py_eqb m _); unfold ret at 1; cbv beta iota;
          (apply IH; [done|intros y Hy; apply Hsub; by right]).
      - done. }
    by rewrite Hloop.
  - apply Z.ltb_ge in E. replace (Z.to_nat n_clusters) with 0%nat by lia. done.
Qed.

Lemma get_network_clusters_missing_attribute_witness :
  get_network_clusters (("fis", ∅) :: network_example) 2 (world_of [])
  = if (0 <? 2)%Z
    then (Raise (KeyError (Str "modularity")), world_of [])
    else (Ok [], world_of []).
Proof.
  apply (get_network_clusters_missing_attribute (("fis", ∅) :: network_example)
           2 (world_of []) "fis" ∅).
  - vm_compute. set_solver.
  - reflexivity.
  - reflexivity.
Defined.

Lemma score_key_before (a b : string * Q) :
  goes_before true [Num a.2] [Num b.2] = true <-> (b.2 <= a.2)%Q.
Proof.
  unfold goes_before. cbn [key_cmp value_cmp]. rewrite Qle_alt.
  destruct (b.2 ?= a.2)%Q; split; intros; done.
Qed.

Lemma hubs_ordered (cen : list (string * Q)) a b :
  ordered_pair (sort_by (fun cc : string * Q => [Num cc.2]) true cen) a b ->
  (b.2 <= a.2)%Q.
Proof.
  apply (sort_by_ordered _ true (fun a b : string * Q => (b.2 <= a.2)%Q)).
  - intros x y. apply score_key_before.
  - intros x y Hf. destruct (Qlt_le_dec x.2 y.2) as [Hlt|Hle].
    + by apply Qlt_le_weak.
    + apply score_key_before in Hle. congruence.
  - intros x y z Hxy Hyz. by eapply Qle_trans.
Qed.

Section HubsProps.

Variable eigenvector_centrality : Graph -> M (list (string * Q)).

(** X19.  When the centrality computation returns, [get_network_hubs]
    returns the ten nodes of highest score (all of them if there are
    fewer), highest first: the scores never increase along the result and
    no node left out scores more than a node returned. *)
Theorem get_network_hubs_top_ten (ntw : Graph) (w w1 : world)
    (eigen_cen : list (string * Q))
    (Hcen : eigenvector_centrality ntw w = (Ok eigen_cen, w1)) :
  exists hubs,
    get_network_hubs eigenvector_centrality ntw w = (Ok hubs, w1)
    /\ length hubs = min 10 (length eigen_cen)
    /\ (forall h, h ∈ hubs -> h ∈ eigen_cen)
    /\ (forall a b, ordered_pair hubs a b -> (b.2 <= a.2)%Q)
    /\ (forall h x, h ∈ hubs -> x ∈ eigen_cen -> x ∉ hubs -> (x.2 <= h.2)%Q).
Proof.
  set (sorted := sort_by (fun cc : string * Q => [Num cc.2]) true eigen_cen).
  exists (take 10 sorted). split.
  { unfold get_network_hubs, bind. by rewrite Hcen. }
  split; [|split; [|split]].
  - rewrite length_take. unfold sorted.
    by rewrite (Permutation_length (sort_by_perm _ _ _)).
  - intros h Hh. apply elem_of_take in Hh as (i & Hi & _).
    rewrite <- (sort_by_perm (fun cc : string * Q => [Num cc.2]) true eigen_cen).
    apply list_elem_of_lookup. by exists i.
  - intros a b (i & j & Hij & Hi & Hj). apply (hubs_ordered eigen_cen).
    exists i, j. split; [done|].
    apply lookup_take_Some in Hi as [Hi _]. apply lookup_take_Some in Hj as [Hj _].
    done.
  - intros h x Hh Hx Hnot. apply (hubs_ordered eigen_cen).
    apply elem_of_take in Hh as (i & Hi & Hlt).
    rewrite <- (sort_by_perm (fun cc : string * Q => [Num cc.2]) true eigen_cen)
      in Hx.
    apply list_elem_of_lookup in Hx as [j Hj]. fold sorted in Hj.
    exists i, j. split; [|done].
    destruct (decide (j < 10)%nat) as [Hj10|]; [|lia].
    exfalso. apply Hnot. apply elem_of_take. by exists j.
Qed.

End HubsProps.

Lemma get_network_hubs_top_ten_witness :
  exists hubs,
    get_network_hubs (fun _ => ret centrality_example) network_example
      (world_of []) = (Ok hubs, world_of [])
    /\ length hubs = min 10 (length centrality_example)
    /\ (forall h, h ∈ hubs -> h ∈ centrality_example)
    /\ (forall a b, ordered_pair hubs a b -> (b.2 <= a.2)%Q)
    /\ (forall h x, h ∈ hubs -> x ∈ centrality_example -> x ∉ hubs ->
          (x.2 <= h.2)%Q).
Proof.
  apply (get_network_hubs_top_ten (fun _ => ret centrality_example)
           network_example (world_of []) (world_of []) centrality_example).
  reflexivity.
Defined.

Example get_network_hubs_example :
  map fst (default []
    (match (get_network_hubs (fun _ => ret centrality_example) network_example
              (world_of [])).1 with Ok h => Some h | Raise _ => None end))
  = ["g6"; "g5"; "g4"; "g11"; "g3"; "g10"; "g2"; "g9"; "g1"; "g8"].
Proof. vm_compute. reflexivity. Qed.

(** ** [lower_strings] *)

Lemma lower_ascii_not_upper c :
  ~ (65 <= nat_of_ascii (lower_ascii c) <= 90)%nat.
Proof. destruct c as [[] [] [] [] [] [] [] []]; vm_compute; lia. Qed.

Lemma lower_not_upper s :
  Forall (fun c => ~ (65 <= nat_of_ascii c <= 90)%nat)
         (list_ascii_of_string (lower s)).
Proof.
  induction s as [|c s IH]; cbn [lower list_ascii_of_string]; constructor;
    [apply lower_ascii_not_upper|done].
Qed.

(** X20.  [lower_strings] returns one string for every entry of its list,
    none of them with an upper-case ASCII letter; applied to its own
    result it changes nothing. *)
Theorem lower_strings_lower_case (str_of_num : Q -> string)
    (string_list : list value) :
  length (lower_strings str_of_num string_list) = length string_list
  /\ (forall s, s ∈ lower_strings str_of_num string_list ->
        Forall (fun c => ~ (65 <= nat_of_ascii c <= 90)%nat)
               (list_ascii_of_string s))
  /\ lower_strings str_of_num (map Str (lower_strings str_of_num string_list))
     = lower_strings str_of_num string_list.
Proof.
  unfold lower_strings. split; [by rewrite length_map|]. split.
  - intros s Hs. change (map ?f ?l) with (f <$> l) in Hs.
    apply list_elem_of_fmap in Hs as (x & -> & _). apply lower_not_upper.
  - rewrite !map_map. apply map_ext. intros x. cbn [py_str].
    apply lower_idem.
Qed.

(** ** [get_GO_gene_set]: which rows it returns *)

Lemma zip_with_map_same {X Y Z} (f : X -> Y -> Z) (g : X -> Y) (l : list X) :
  zip_with f l (map g l) = map (fun x => f x (g x)) l.
Proof. induction l as [|x l IH]; cbn; [done|]. by rewrite IH. Qed.

Lemma cell_insert_lt i v (row : list value) :
  (i < length row)%nat -> cell i (<[i := v]> row) = v.
Proof. intros H. unfold cell. by rewrite nth_lookup, list_lookup_insert_eq. Qed.

(** X21.  [get_GO_gene_set] matches gene names without regard to the
    case of the file's names: a row of the annotation file is returned,
    its gene name in lower case, exactly when that lower-case name is in
    [test_gene_list].  (Rows are returned once each.) *)
Theorem get_GO_gene_set_matches_lowered_names {A : Type}
    (str_of_num : Q -> string) (gene_ontology_data : A)
    (test_gene_list : list value) (w : world) (t : DataFrame) (i : nat)
    (Hfile : files w !! "../data/GO_annotations_ecoli.csv" = Some t)
    (Hcol : index_of "gene_name" (columns t) = Some i)
    (Hrows : forall row, row ∈ rows t -> (i < length row)%nat) :
  exists r w' gs,
    get_GO_gene_set str_of_num gene_ontology_data test_gene_list w = (Ok r, w')
    /\ heap w' !! r = Some gs
    /\ NoDup (rows gs)
    /\ forall row', row' ∈ rows gs
         <-> exists row, row ∈ rows t
               /\ row' = <[i := Str (lower (py_str str_of_num (cell i row)))]> row
               /\ Str (lower (py_str str_of_num (cell i row))) ∈ test_gene_list.
Proof.
  destruct (get_GO_gene_set_run str_of_num gene_ontology_data test_gene_list
              w t i Hfile Hcol) as (r & w' & Hrun & Hr).
  eexists r, w', _. split; [exact Hrun|]. split; [exact Hr|].
  destruct (gene_data_frame_spec
    (set_column t "gene_name" object_
       (map Str (lower_strings str_of_num (iloc_col t i)))) i test_gene_list)
    as (Hnd & Hel & _).
  split; [done|]. intros row'. rewrite Hel.
  unfold set_column. rewrite Hcol. cbn [rows].
  unfold lower_strings, iloc_col. rewrite !map_map, zip_with_map_same.
  change (map ?f ?l) with (f <$> l). rewrite list_elem_of_fmap. split.
  - intros [(row & -> & Hrow) Hin]. exists row. split; [done|]. split; [done|].
    rewrite cell_insert_lt in Hin by (by apply Hrows).
    by apply py_in_spec in Hin as [_ ?].
  - intros (row & Hrow & -> & Hin). split; [by exists row|].
    rewrite cell_insert_lt by (by apply Hrows). by apply py_in_spec.
Qed.

Lemma get_GO_gene_set_matches_lowered_names_witness :
  exists r w' gs,
    get_GO_gene_set (fun _ => "0") tt [Str "arac"; Str "lacZ"]
      annotation_file_example = (Ok r, w')
    /\ heap w' !! r = Some gs
    /\ NoDup (rows gs)
    /\ forall row', row' ∈ rows gs
         <-> exists row, row ∈ rows mixed_case_example
               /\ row' = <[0%nat := Str (lower (py_str (fun _ => "0")
                                                  (cell 0 row)))]> row
               /\ Str (lower (py_str (fun _ => "0") (cell 0 row)))
                  ∈ [Str "arac"; Str "lacZ"].
Proof.
  apply (get_GO_gene_set_matches_lowered_names (fun _ => "0") tt
           [Str "arac"; Str "lacZ"] annotation_file_example
           mixed_case_example 0%nat).
  - reflexivity.
  - reflexivity.
  - intros row Hrow. unfold mixed_case_example in Hrow. cbn [rows] in Hrow.
    repeat (apply elem_of_cons in Hrow as [->|Hrow]; [cbn; lia|]).
    by apply elem_of_nil in Hrow.
Defined.
